(** * go-ding-sdk: the access-token cache, the retry/backoff layer and the
    directory and login operations

    A shallow embedding of [backoff.go] ([Backoff], [NewBackoff],
    [Backoff.Duration]) and of the client: [GetAccessToken] and
    [SendMessageFromRobot], with the properties of the token cache, of the
    backoff policy and of the retry loop; and the operations on departments
    and users ([GetDepartments], [GetChildrenDepartments],
    [GetDepartmentsByParent], [GetDepartmentNamesByParent], [GetSimpleUsers],
    [GetSimpleUserByDeptIDList], [ForEach]), the login by scanned code
    ([GetUserUnionIDByCode], [GetUserIDByUnionID], [GetUserIDFromScanQrCode])
    and [GetProcessCode].

    Conventions.
    - [time.Duration] is an [int64] count of nanoseconds: a [Z], with the
      wrap-around of [int64] arithmetic written out ([wrap64]).
    - [time.Time] is an instant, a [Z] count of nanoseconds; [Time.Add] is
      addition and [Time.Before] is [<].
    - [float64] values are the rationals they denote; every arithmetic
      operation is the exact operation followed by a rounding [rnd], each
      operation rounded on its own (no fused multiply-add, as on amd64).  The
      development is parametric in [rnd] and only uses the laws of
      [Rounding]; [rnd64] is round-to-nearest-even at 53 bits of precision.
      NaN, the infinities and the bounds of the exponent are not modelled.
    - The client is a program over events (a free monad): the mutex, the
      loads and stores of [accessToken] and [expireTime], the clock, the
      network, the JSON codec, the random source, sleeping and logging.
      [run] interprets a program for one goroutine against an environment;
      [step] interleaves the events of any number of goroutines.
    - The other operations are programs over those events and the POSTs,
      decoders, signature and printing they need ([Api]); [runApi] interprets
      them, and tells a return from a panic. *)

From Stdlib Require Import ZArith QArith Qround Qpower Lia Lqa.
From Stdlib Require Import Bool List String DecimalString Permutation.
Import ListNotations.

Local Open Scope Z_scope.

(** ** Machine integers and durations *)

Definition min_int64 : Z := - 2 ^ 63.
Definition max_int64 : Z := 2 ^ 63 - 1.

Definition in_int64 (z : Z) : Prop := min_int64 <= z <= max_int64.

(** Two's-complement wrap-around of an [int64] result. *)
Definition wrap64 (z : Z) : Z := (z + 2 ^ 63) mod 2 ^ 64 - 2 ^ 63.

Definition Nanosecond : Z := 1.
Definition Second : Z := 1000000000 * Nanosecond.
Definition Minute : Z := 60 * Second.

(** ** float64 arithmetic *)

Definition float64 : Type := Q.

Definition Qltb (x y : Q) : bool := negb (Qle_bool y x).

(** Conversion of a float64 to [int64] truncates toward zero; out of range
    Go leaves the result to the implementation, and the model takes the one
    amd64 gives, the smallest [int64]. *)
Definition Qtrunc (x : Q) : Z :=
  if Qle_bool 0 x then Qfloor x else Qceiling x.

Definition int64_of_float (x : float64) : Z :=
  let z := Qtrunc x in
  if (min_int64 <=? z) && (z <=? max_int64) then z else min_int64.

(** Round to the nearest integer, ties to the even one. *)
Definition round_half_even (x : Q) : Z :=
  let f := Qfloor x in
  match (x - inject_Z f ?= 1 # 2)%Q with
  | Lt => f
  | Gt => f + 1
  | Eq => if Z.even f then f else f + 1
  end.

(** For [0 < x], the exponent [e] with [2^e <= x < 2^(e+1)]. *)
Definition Qilog2 (x : Q) : Z :=
  let e := Z.log2 (Qnum x) - Z.log2 (Zpos (Qden x)) in
  if Qle_bool (2 ^ e) x then e else e - 1.

(** For [0 < x], the nearest number with a significand of 53 bits, ties to
    the even significand. *)
Definition round53 (x : Q) : Q :=
  let ulp := (2 ^ (Qilog2 x - 52))%Q in
  (inject_Z (round_half_even (x / ulp)) * ulp)%Q.

(** Round-to-nearest-even at the 53 bits of precision of a float64, on the
    magnitude (the exponent range is not bounded: no overflow to infinity, no
    subnormal numbers). *)
Definition rnd64 (x : Q) : Q :=
  Qred match Qnum x with
       | Z0 => 0
       | Zpos _ => round53 x
       | Zneg _ => - round53 (- x)
       end.

(** ** backoff.go *)

Record Backoff : Type := mkBackoff {
  MaxDelay : Z;
  baseDelay : Z;
  factor : float64;
  jitter : float64
}.

(** ** Data of the client (req_model.go and the response types) *)

Inductive error : Type :=
| ErrLib (what : string)
    (* an error value of net/http, io or encoding/json *)
| ErrTokenRequest (err : error)
    (* Errorf "request access_token failed: %v" err,            line 69 *)
| ErrTokenStatus (status : string) (code : Z)
    (* Errorf "request access_token failed: %s(%d)" Status StatusCode, line 73 *)
| ErrTokenRead (err : error)
    (* Errorf "read access_token failed: %v" err,               line 81 *)
| ErrTokenRejected (errmsg : string) (errcode : Z)
    (* Errorf "request access_token failed: %s(%d), check the API permissions"
       ErrMsg ErrCode,                                          line 87 *)
| ErrMarshalMsg (err : error)
    (* Errorf "building the message failed: %v" err,            line 354 *)
| ErrBatchSend (retries : Z) (err : error)
    (* Errorf "batch send failed(Retries: %d): %v" retries err, line 393 *)
| ErrRequest (err : error)
    (* Errorf "request failed: %v" err,                         line 507 *)
| ErrRead (err : error)
    (* Errorf "read failed: %v" err,                            line 522 *)
| ErrParse (err : error).
    (* Errorf "parse failed: %v" err,                           line 529 *)

Record CommonResp : Type := mkCommonResp {
  ErrCode : Z;
  ErrMsg : string;
  RequestID : string
}.

Record AccessTokenResp : Type := mkAccessTokenResp {
  Common : CommonResp;
  AccessToken : string;
  ExpiresIn : Z
}.

Record SendMsgByRobotResp : Type := mkSendMsgByRobotResp {
  Code : string;
  ReqID : string;
  Message : string;
  ProcessQueryKey : string;
  InvalidStaffIdList : list string;
  FlowControlledStaffIdList : list string
}.

Record SendMsgByRobotReq : Type := mkSendMsgByRobotReq {
  RobotCode : string;
  UserIDs : list string;
  MsgKey : string;
  MsgParam : string
}.

Record MsgContent : Type := mkMsgContent {
  Title : string;
  Text : string
}.

(** The zero values of [var atr AccessTokenResp] and [var ret SendMsgByRobotResp]. *)
Definition zeroAccessTokenResp : AccessTokenResp :=
  mkAccessTokenResp (mkCommonResp 0 "" "") "" 0.

Definition zeroSendMsgByRobotResp : SendMsgByRobotResp :=
  mkSendMsgByRobotResp "" "" "" "" [] [].

(** An [*http.Response]: [Body] is what [io.ReadAll(resp.Body)] yields. *)
Record Response : Type := mkResponse {
  Status : string;
  StatusCode : Z;
  Body : error + string
}.

Definition StatusOK : Z := 200.

(** The POST request [post] builds: the object it marshals as the body and
    the headers it adds to [Content-Type]. *)
Record Request : Type := mkRequest {
  URL : string;
  Payload : SendMsgByRobotReq;
  Header : list (string * list string)
}.

(** The immutable fields of [DingTalkClient]; [accessToken], [expireTime] and
    [mutex] are the mutable state the events below act on. *)
Record DingTalkClient : Type := mkDingTalkClient {
  agentId : string;
  appKey : string;
  appSecret : string
}.

(** ** Programs: the effects of the client, as a free monad *)

Inductive Event : Type -> Type :=
| MutexLock : Event unit
| MutexUnlock : Event unit
| LoadAccessToken : Event string
| StoreAccessToken (s : string) : Event unit
| LoadExpireTime : Event Z
| StoreExpireTime (t : Z) : Event unit
| TimeNow : Event Z
| TimeSleep (d : Z) : Event unit
| RandFloat64 : Event float64
| HttpGet (url : string) : Event (error + Response)
| HttpDo (req : Request) : Event (error + Response)
| JsonMarshalMsg (m : MsgContent) : Event (error + string)
| JsonUnmarshalToken (payload : string) (out : AccessTokenResp) :
    Event (AccessTokenResp * option error)
| JsonUnmarshalSend (payload : string) (out : SendMsgByRobotResp) :
    Event (SendMsgByRobotResp * option error)
| LogErrorf (err : error) : Event unit
| Diverge : Event Empty_set.

Inductive Prog (A : Type) : Type :=
| Ret (a : A)
| Vis {X : Type} (e : Event X) (k : X -> Prog A).

Arguments Ret {A} a.
Arguments Vis {A X} e k.

Fixpoint bind {A B : Type} (p : Prog A) (f : A -> Prog B) : Prog B :=
  match p with
  | Ret a => f a
  | Vis e k => Vis e (fun x => bind (k x) f)
  end.

Definition trigger {X : Type} (e : Event X) : Prog X := Vis e Ret.

Definition diverge {A : Type} : Prog A :=
  Vis Diverge (fun x : Empty_set => match x with end).

Declare Scope prog_scope.
Delimit Scope prog_scope with prog.
Notation "x <- p ;; q" := (bind p (fun x => q))
  (at level 61, p at next level, right associativity) : prog_scope.
Notation "' pat <- p ;; q" := (bind p (fun x => match x with pat => q end))
  (at level 61, pat pattern, p at next level, right associativity) : prog_scope.
Notation "p ;; q" := (bind p (fun _ => q))
  (at level 61, right associativity) : prog_scope.
Local Open Scope prog_scope.

Definition domain : string := "https://oapi.dingtalk.com".
Definition batchSendAPI : string :=
  "https://api.dingtalk.com/v1.0/robot/oToMessages/batchSend".

(** [fmt.Sprintf(domain+reqAccessToken, appKey, appSecret)]. *)
Definition reqAccessToken (key secret : string) : string :=
  ("/gettoken?appkey=" ++ key ++ "&appsecret=" ++ secret)%string.

(** [readResult(body, &atr)]: [io.ReadAll], then [json.Unmarshal] into [out]. *)
Definition readResultToken (body : error + string) (out : AccessTokenResp) :
  Prog (AccessTokenResp * option error) :=
  match body with
  | inl err => Ret (out, Some (ErrRead err))
  | inr payload =>
      '(out', err) <- trigger (JsonUnmarshalToken payload out) ;;
      match err with
      | Some e => Ret (out', Some (ErrParse e))
      | None => Ret (out', None)
      end
  end.

Definition readResultSend (body : error + string) (out : SendMsgByRobotResp) :
  Prog (SendMsgByRobotResp * option error) :=
  match body with
  | inl err => Ret (out, Some (ErrRead err))
  | inr payload =>
      '(out', err) <- trigger (JsonUnmarshalSend payload out) ;;
      match err with
      | Some e => Ret (out', Some (ErrParse e))
      | None => Ret (out', None)
      end
  end.

(** The body of [GetAccessToken], between [Lock] and the deferred [Unlock]
    (lines 63 to 93).  Line 63 loads [d.accessToken], and reads the clock and
    [d.expireTime] only when the token is not empty; line 64 loads the token
    again.  [time.Duration(atr.ExpiresIn) * time.Second] is an [int64]
    product.  The deferred [body.Close()] touches nothing modelled here and
    is left out. *)
Definition getAccessTokenLocked (d : DingTalkClient) :
  Prog (string * option error) :=
  tok <- trigger LoadAccessToken ;;
  valid <- (if negb (tok =? "")%string
            then now <- trigger TimeNow ;;
                 expire <- trigger LoadExpireTime ;;
                 Ret (now <? expire)
            else Ret false) ;;
  if (valid : bool) then
    tok <- trigger LoadAccessToken ;;
    Ret (tok, None)
  else
    resp <- trigger (HttpGet (domain ++ reqAccessToken (appKey d) (appSecret d))) ;;
    match resp with
    | inl err => Ret (""%string, Some (ErrTokenRequest err))
    | inr resp =>
        if negb (StatusCode resp =? StatusOK) then
          Ret (""%string, Some (ErrTokenStatus (Status resp) (StatusCode resp)))
        else
          '(atr, err) <- readResultToken (Body resp) zeroAccessTokenResp ;;
          match err with
          | Some err => Ret (""%string, Some (ErrTokenRead err))
          | None =>
              if negb (ErrCode (Common atr) =? 0) then
                trigger (StoreAccessToken "") ;;
                now <- trigger TimeNow ;;
                trigger (StoreExpireTime now) ;;
                Ret (""%string,
                     Some (ErrTokenRejected (ErrMsg (Common atr))
                                            (ErrCode (Common atr))))
              else
                trigger (StoreAccessToken (AccessToken atr)) ;;
                now <- trigger TimeNow ;;
                trigger (StoreExpireTime (now + wrap64 (ExpiresIn atr * Second))) ;;
                Ret (AccessToken atr, None)
          end
    end.

Definition GetAccessToken (d : DingTalkClient) : Prog (string * option error) :=
  trigger MutexLock ;;
  r <- getAccessTokenLocked d ;;
  trigger MutexUnlock ;;
  Ret r.

(** [post(reqUrl, data, out, header)] for the one request type modelled
    (lines 489 to 517).  [json.Marshal] of a [SendMsgByRobotReq] and
    [http.NewRequest] on a constant URL do not fail; the status of the
    response is not looked at. *)
Definition post (reqUrl : string) (data : SendMsgByRobotReq)
  (out : SendMsgByRobotResp) (header : list (string * list string)) :
  Prog (SendMsgByRobotResp * option error) :=
  resp <- trigger (HttpDo (mkRequest reqUrl data header)) ;;
  match resp with
  | inl err => Ret (out, Some (ErrRequest err))
  | inr resp => readResultSend (Body resp) out
  end.

Section Float64.

(** Rounding of an exact result to the nearest float64. *)
Variable rnd : Q -> Q.

Definition fmul (x y : float64) : float64 := rnd (x * y)%Q.
Definition fadd (x y : float64) : float64 := rnd (x + y)%Q.
Definition fsub (x y : float64) : float64 := rnd (x - y)%Q.

(** [float64(d)] for an [int64] [d]. *)
Definition float64_of_int (z : Z) : float64 := rnd (inject_Z z).

Definition defaultMaxDelay : Z := 3 * Minute.
Definition defaultBaseDelay : Z := 1 * Second.
Definition defaultFactor : float64 := rnd (16 # 10).
Definition defaultJitter : float64 := rnd (2 # 10).

Definition NewBackoff : Backoff :=
  {| MaxDelay := defaultMaxDelay;
     baseDelay := defaultBaseDelay;
     factor := defaultFactor;
     jitter := defaultJitter |}.

(** The loop [for backoff < max && retries > 0 { backoff *= factor; retries-- }],
    by recursion on the retries that remain. *)
Fixpoint grow (fac max backoff : float64) (retries : nat) : float64 :=
  match retries with
  | O => backoff
  | S n =>
      if Qltb backoff max then grow fac max (fmul backoff fac) n else backoff
  end.

(** [backoff *= 1 + bc.jitter*(r*2-1)] and the conversion that follows. *)
Definition jittered (bc : Backoff) (backoff r : float64) : Z :=
  let backoff :=
    fmul backoff (fadd 1%Q (fmul (jitter bc) (fsub (fmul r 2%Q) 1%Q))) in
  if Qltb backoff 0%Q then 0 else int64_of_float backoff.

(** The value of [backoff] when the jitter is applied (lines 48 to 56). *)
Definition nominal (bc : Backoff) (retries : Z) : float64 :=
  let backoff := float64_of_int (baseDelay bc) in
  let max := float64_of_int (MaxDelay bc) in
  let backoff := grow (factor bc) max backoff (Z.to_nat retries) in
  if Qltb max backoff then max else backoff.

(** [Backoff.Duration]. *)
Definition Duration (bc : Backoff) (retries : Z) : Prog Z :=
  if retries <=? 0 then Ret (baseDelay bc)
  else
    let backoff := nominal bc retries in
    r <- trigger RandFloat64 ;;
    Ret (jittered bc backoff r).

(** The retry loop of [SendMessageFromRobot] (lines 376 to 390); it leaves
    [ret], [err] and [retries].  [fuel] bounds the iterations: a loop that
    ran out of it would not return ([diverge]); from [retries = 0] the four
    units [SendMessageFromRobot] gives are enough ([retryLoop_returns]). *)
Fixpoint retryLoop (fuel : nat) (backOff : Backoff) (reqObj : SendMsgByRobotReq)
  (header : list (string * list string))
  (ret : SendMsgByRobotResp) (err : option error) (retries : Z) :
  Prog (SendMsgByRobotResp * option error * Z) :=
  if retries >? 3 then Ret (ret, err, retries)
  else
    match fuel with
    | O => diverge
    | S fuel =>
        '(ret, err) <- post batchSendAPI reqObj ret header ;;
        match err with
        | Some e =>
            trigger (LogErrorf e) ;;
            delay <- Duration backOff (retries + 1) ;;
            trigger (TimeSleep delay) ;;
            retryLoop fuel backOff reqObj header ret err (retries + 1)
        | None => Ret (ret, err, retries)
        end
    end.

Definition SendMessageFromRobot (d : DingTalkClient)
  (robotCode title content : string) (to : list string) :
  Prog (option SendMsgByRobotResp * option error) :=
  '(accToken, err) <- GetAccessToken d ;;
  match err with
  | Some err => Ret (None, Some err)
  | None =>
      msg <- trigger (JsonMarshalMsg (mkMsgContent title content)) ;;
      match msg with
      | inl err => Ret (None, Some (ErrMarshalMsg err))
      | inr msg =>
          if (List.length to =? 0)%nat then Ret (None, None)
          else
            let to := if (20 <? List.length to)%nat then firstn 20 to else to in
            let backOff := NewBackoff in
            let reqObj :=
              {| RobotCode := robotCode;
                 UserIDs := to;
                 MsgKey := "officialMarkdownMsg";
                 MsgParam := msg |} in
            let header := [("x-acs-dingtalk-access-token"%string, [accToken])] in
            '(ret, err, retries) <-
              retryLoop 4 backOff reqObj header zeroSendMsgByRobotResp None 0 ;;
            match err with
            | Some err => Ret (None, Some (ErrBatchSend retries err))
            | None => Ret (Some ret, None)
            end
      end
  end.

End Float64.

(** ** What the proofs ask of the arithmetic and of a configuration *)

(** The laws of a rounding the proofs use: it is monotone, and the integers
    up to [2^53] in absolute value are floats. *)
Record Rounding (rnd : Q -> Q) : Prop := mkRounding {
  rnd_mono : forall x y : Q, (x <= y)%Q -> (rnd x <= rnd y)%Q;
  rnd_int : forall z : Z, Z.abs z <= 2 ^ 53 -> (rnd (inject_Z z) == inject_Z z)%Q
}.

(** A sensible [Backoff]: delays that are not negative, the base delay at most
    the maximum, a maximum that a float64 holds exactly with room for the
    jitter, and a jitter fraction between 0 and 1 that is a float. *)
Record WellFormed (rnd : Q -> Q) (bc : Backoff) : Prop := mkWellFormed {
  wf_base : 0 <= baseDelay bc <= MaxDelay bc;
  wf_max : MaxDelay bc <= 2 ^ 52;
  wf_jitter : (0 <= jitter bc <= 1)%Q;
  wf_jitter_float : (rnd (jitter bc) == jitter bc)%Q
}.

(** ** Sequential runs

    One goroutine runs a program against an environment [Env]: the [n]-th
    reading of the clock, the [n]-th random draw, the outcome of the [n]-th
    GET and POST, and the JSON codec.  [World] is the mutable state of the
    client together with a record of what the run did. *)

Record Env : Type := mkEnv {
  clock : nat -> Z;
  random : nat -> float64;
  http_get : nat -> string -> error + Response;
  http_do : nat -> Request -> error + Response;
  json_marshal_msg : MsgContent -> error + string;
  json_unmarshal_token :
    string -> AccessTokenResp -> AccessTokenResp * option error;
  json_unmarshal_send :
    string -> SendMsgByRobotResp -> SendMsgByRobotResp * option error
}.

Record World : Type := mkWorld {
  accessToken : string;
  expireTime : Z;
  mutex : bool;              (* is the mutex locked? *)
  ticks : nat;               (* readings of the clock so far *)
  draws : nat;               (* random draws so far *)
  gets : list string;        (* the GET requests issued, oldest first *)
  posts : list Request;      (* the POST requests issued, oldest first *)
  sleeps : list Z;           (* the durations slept, oldest first *)
  logs : list error          (* the errors logged, oldest first *)
}.

Definition set_accessToken (s : string) (w : World) : World :=
  mkWorld s (expireTime w) (mutex w) (ticks w) (draws w) (gets w) (posts w)
    (sleeps w) (logs w).
Definition set_expireTime (t : Z) (w : World) : World :=
  mkWorld (accessToken w) t (mutex w) (ticks w) (draws w) (gets w) (posts w)
    (sleeps w) (logs w).
Definition set_mutex (b : bool) (w : World) : World :=
  mkWorld (accessToken w) (expireTime w) b (ticks w) (draws w) (gets w)
    (posts w) (sleeps w) (logs w).
Definition tick (w : World) : World :=
  mkWorld (accessToken w) (expireTime w) (mutex w) (S (ticks w)) (draws w)
    (gets w) (posts w) (sleeps w) (logs w).
Definition draw (w : World) : World :=
  mkWorld (accessToken w) (expireTime w) (mutex w) (ticks w) (S (draws w))
    (gets w) (posts w) (sleeps w) (logs w).
Definition add_get (url : string) (w : World) : World :=
  mkWorld (accessToken w) (expireTime w) (mutex w) (ticks w) (draws w)
    (gets w ++ [url]) (posts w) (sleeps w) (logs w).
Definition add_post (r : Request) (w : World) : World :=
  mkWorld (accessToken w) (expireTime w) (mutex w) (ticks w) (draws w)
    (gets w) (posts w ++ [r]) (sleeps w) (logs w).
Definition add_sleep (d : Z) (w : World) : World :=
  mkWorld (accessToken w) (expireTime w) (mutex w) (ticks w) (draws w)
    (gets w) (posts w) (sleeps w ++ [d]) (logs w).
Definition add_log (e : error) (w : World) : World :=
  mkWorld (accessToken w) (expireTime w) (mutex w) (ticks w) (draws w)
    (gets w) (posts w) (sleeps w) (logs w ++ [e]).

(** What one event does.  [None]: the goroutine never gets past the event
    ([Lock] on a locked mutex with nobody to unlock it, [Unlock] of an
    unlocked mutex, which is fatal, and [Diverge]). *)
Definition handle (env : Env) {X : Type} (e : Event X) (w : World) :
  option (X * World) :=
  match e in Event X return option (X * World) with
  | MutexLock => if mutex w then None else Some (tt, set_mutex true w)
  | MutexUnlock => if mutex w then Some (tt, set_mutex false w) else None
  | LoadAccessToken => Some (accessToken w, w)
  | StoreAccessToken s => Some (tt, set_accessToken s w)
  | LoadExpireTime => Some (expireTime w, w)
  | StoreExpireTime t => Some (tt, set_expireTime t w)
  | TimeNow => Some (clock env (ticks w), tick w)
  | TimeSleep d => Some (tt, add_sleep d w)
  | RandFloat64 => Some (random env (draws w), draw w)
  | HttpGet url => Some (http_get env (List.length (gets w)) url, add_get url w)
  | HttpDo req => Some (http_do env (List.length (posts w)) req, add_post req w)
  | JsonMarshalMsg m => Some (json_marshal_msg env m, w)
  | JsonUnmarshalToken payload out => Some (json_unmarshal_token env payload out, w)
  | JsonUnmarshalSend payload out => Some (json_unmarshal_send env payload out, w)
  | LogErrorf err => Some (tt, add_log err w)
  | Diverge => None
  end.

Fixpoint run (env : Env) {A : Type} (p : Prog A) (w : World) :
  option (A * World) :=
  match p with
  | Ret a => Some (a, w)
  | Vis e k =>
      match handle env e w with
      | Some (x, w') => run env (k x) w'
      | None => None
      end
  end.

(** [n] calls in a row, each starting where the last one ended; the results
    are listed oldest first. *)
Fixpoint repeat_run (env : Env) {A : Type} (p : Prog A) (n : nat) (w : World) :
  option (list A * World) :=
  match n with
  | O => Some ([], w)
  | S n =>
      match run env p w with
      | Some (a, w') =>
          match repeat_run env p n w' with
          | Some (l, w'') => Some (a :: l, w'')
          | None => None
          end
      | None => None
      end
  end.

(** The URL of the token request, the validity test of line 63, and the world
    the test leaves (it reads the clock only when a token is cached). *)
Definition token_url (d : DingTalkClient) : string :=
  (domain ++ reqAccessToken (appKey d) (appSecret d))%string.

Definition cache_valid (env : Env) (w : World) : bool :=
  negb (accessToken w =? "")%string && (clock env (ticks w) <? expireTime w).

Definition checked (w : World) : World :=
  if (accessToken w =? "")%string then w else tick w.

(** Lines 68 to 74: the request failed, or the status is not 200. *)
Definition transport_error (r : error + Response) : option error :=
  match r with
  | inl err => Some (ErrTokenRequest err)
  | inr resp =>
      if StatusCode resp =? StatusOK then None
      else Some (ErrTokenStatus (Status resp) (StatusCode resp))
  end.

(** Lines 67 to 82 went through: the GET answered with status 200 and a body
    that decodes, into the zero [AccessTokenResp], as [atr]. *)
Definition fetch_decodes (env : Env) (d : DingTalkClient) (w : World)
  (atr : AccessTokenResp) : Prop :=
  exists resp payload,
    http_get env (List.length (gets w)) (token_url d) = inr resp /\
    StatusCode resp = StatusOK /\
    Body resp = inr payload /\
    json_unmarshal_token env payload zeroAccessTokenResp = (atr, None).

(** What [post] leaves in [out] and returns, when the request is the [n]-th
    POST of the run. *)
Definition post_outcome (env : Env) (n : nat) (req : Request)
  (out : SendMsgByRobotResp) : SendMsgByRobotResp * option error :=
  match http_do env n req with
  | inl err => (out, Some (ErrRequest err))
  | inr resp =>
      match Body resp with
      | inl err => (out, Some (ErrRead err))
      | inr payload =>
          let (out', err) := json_unmarshal_send env payload out in
          (out', option_map ErrParse err)
      end
  end.

(** The request every attempt of [SendMessageFromRobot] posts. *)
Definition relay_request (robotCode msg accToken : string) (to : list string) :
  Request :=
  mkRequest batchSendAPI
    {| RobotCode := robotCode;
       UserIDs := to;
       MsgKey := "officialMarkdownMsg";
       MsgParam := msg |}
    [("x-acs-dingtalk-access-token"%string, [accToken])].

(** ** Concurrent runs

    Any number of goroutines, each calling [GetAccessToken] on the same
    client.  A step is one event of one goroutine; a GET takes two steps, the
    request and its answer, and is in flight in between.  The clock, the
    network and the codec answer as they please. *)

Definition Result : Type := (string * option error)%type.

Inductive Thread : Type :=
| Running (p : Prog Result)
| AwaitGet (url : string) (k : error + Response -> Prog Result).

Record Shared : Type := mkShared {
  cachedToken : string;       (* d.accessToken *)
  cachedExpire : Z;           (* d.expireTime *)
  holder : option nat;        (* the goroutine that holds d.mutex *)
  half : bool                 (* ghost: accessToken written, expireTime not yet *)
}.

Definition Pool : Type := nat -> Thread.

Definition upd (pool : Pool) (i : nat) (t : Thread) : Pool :=
  fun j => if Nat.eqb j i then t else pool j.

Inductive Kind : Type :=
| KLock | KUnlock | KLoadToken | KLoadExpire | KStoreToken | KStoreExpire
| KGet | KEnv | KDiverge.

Definition kind {X : Type} (e : Event X) : Kind :=
  match e with
  | MutexLock => KLock
  | MutexUnlock => KUnlock
  | LoadAccessToken => KLoadToken
  | LoadExpireTime => KLoadExpire
  | StoreAccessToken _ => KStoreToken
  | StoreExpireTime _ => KStoreExpire
  | HttpGet _ => KGet
  | Diverge => KDiverge
  | _ => KEnv
  end.

(** What a step shows. *)
Inductive Obs : Type :=
| ObsLock
| ObsUnlock
| ObsLoadToken (s : string)
| ObsLoadExpire (t : Z)
| ObsStoreToken (s : string)
| ObsStoreExpire (t : Z)
| ObsSend (url : string)
| ObsReceive (r : error + Response)
| ObsEnv.

Inductive step : Shared * Pool -> nat -> Obs -> Shared * Pool -> Prop :=
| step_lock s pool i k :
    pool i = Running (Vis MutexLock k) ->
    holder s = None ->
    step (s, pool) i ObsLock
      (mkShared (cachedToken s) (cachedExpire s) (Some i) (half s),
       upd pool i (Running (k tt)))
| step_unlock s pool i k :
    pool i = Running (Vis MutexUnlock k) ->
    holder s <> None ->
    step (s, pool) i ObsUnlock
      (mkShared (cachedToken s) (cachedExpire s) None (half s),
       upd pool i (Running (k tt)))
| step_load_token s pool i k :
    pool i = Running (Vis LoadAccessToken k) ->
    step (s, pool) i (ObsLoadToken (cachedToken s))
      (s, upd pool i (Running (k (cachedToken s))))
| step_load_expire s pool i k :
    pool i = Running (Vis LoadExpireTime k) ->
    step (s, pool) i (ObsLoadExpire (cachedExpire s))
      (s, upd pool i (Running (k (cachedExpire s))))
| step_store_token s pool i v k :
    pool i = Running (Vis (StoreAccessToken v) k) ->
    step (s, pool) i (ObsStoreToken v)
      (mkShared v (cachedExpire s) (holder s) true,
       upd pool i (Running (k tt)))
| step_store_expire s pool i t k :
    pool i = Running (Vis (StoreExpireTime t) k) ->
    step (s, pool) i (ObsStoreExpire t)
      (mkShared (cachedToken s) t (holder s) false,
       upd pool i (Running (k tt)))
| step_send s pool i url k :
    pool i = Running (Vis (HttpGet url) k) ->
    step (s, pool) i (ObsSend url) (s, upd pool i (AwaitGet url k))
| step_receive s pool i url k r :
    pool i = AwaitGet url k ->
    step (s, pool) i (ObsReceive r) (s, upd pool i (Running (k r)))
| step_env s pool i X (e : Event X) k x :
    pool i = Running (Vis e k) ->
    kind e = KEnv ->
    step (s, pool) i ObsEnv (s, upd pool i (Running (k x))).

Inductive reachable (c0 : Shared * Pool) : Shared * Pool -> Prop :=
| reachable_start : reachable c0 c0
| reachable_step c i o c' :
    reachable c0 c -> step c i o c' -> reachable c0 c'.

(** The start: the mutex is free, the cache holds any token and expiry, and
    every goroutine is about to call [GetAccessToken]. *)
Definition start (d : DingTalkClient) (tok : string) (expire : Z) : Shared * Pool :=
  (mkShared tok expire None false, fun _ => Running (GetAccessToken d)).

(** *** The invariant *)











(** ** More words for the statements *)

(** Lines 80 to 82: the body of the response cannot be read, or it does not
    decode into an [AccessTokenResp]. *)
Definition read_error (env : Env) (body : error + string) : option error :=
  match body with
  | inl err => Some (ErrRead err)
  | inr payload =>
      option_map ErrParse
        (snd (json_unmarshal_token env payload zeroAccessTokenResp))
  end.

(** The world a successful fetch of [atr] leaves, from the world [w] the
    validity test left: the GET is recorded, the token is stored, the clock
    is read once and the expiry is stored. *)
Definition fetched (env : Env) (d : DingTalkClient) (atr : AccessTokenResp)
  (w : World) : World :=
  set_expireTime (clock env (ticks w) + wrap64 (ExpiresIn atr * Second))
    (tick (set_accessToken (AccessToken atr) (add_get (token_url d) w))).

(** The list [SendMessageFromRobot] puts in the request (lines 361 to 363). *)
Definition kept_recipients (to : list string) : list string :=
  if (20 <? List.length to)%nat then firstn 20 to else to.

(** The clamp of lines 54 to 56 of backoff.go, after [n] turns of the loop
    from [b]. *)
Definition clamped (rnd : Q -> Q) (bc : Backoff) (n : nat) (b : float64) :
  float64 :=
  let max := float64_of_int rnd (MaxDelay bc) in
  let g := grow rnd (factor bc) max b n in
  if Qltb max g then max else g.

(** The factor of line 58 at the smallest draw, where [rand.Float64()*2-1]
    is [-1]: [1 + bc.jitter*(-1)]. *)
Definition least_multiplier (rnd : Q -> Q) (bc : Backoff) : float64 :=
  fadd rnd 1%Q (fmul rnd (jitter bc) (-1)%Q).

(** ** The directory and login operations

    The operations below post other request objects and decode other
    response objects than [SendMessageFromRobot]; they are programs over the
    events of [Prog] and a few more.  A pointer is an [option], a slice is a
    [list] (the nil slice is the empty list), and [uint64] and [int] values
    are in [Z]: no arithmetic is done on them. *)

Definition Lang : Type := string.
Definition OrderField : Type := string.

Definition ChineseLanguage : Lang := "zh_CN"%string.
Definition EnglishLanguage : Lang := "en_US"%string.
Definition EntryAsc : OrderField := "entry_asc"%string.
Definition EntryDesc : OrderField := "entry_desc"%string.
Definition ModifyAsc : OrderField := "modify_asc"%string.
Definition ModifyDesc : OrderField := "modify_desc"%string.
Definition Custom : OrderField := "custom"%string.

(** The request objects of req_model.go; the embedded [CommonDepartmentReq]
    is written as its one field, [DeptID]. *)
Module DepartmentReq.
Record t : Type := mk { DeptID : Z; Language : Lang }.
End DepartmentReq.

Module DepartmentChildrenReq.
Record t : Type := mk { DeptID : Z }.
End DepartmentChildrenReq.

Module SimpleUserReq.
Record t : Type := mk {
  DeptID : Z;
  Cursor : Z;
  Size : Z;
  OrderField : OrderField;
  ContainAccessLimit : bool;
  Language : Lang
}.
End SimpleUserReq.

Module SnsRequest.
Record t : Type := mk { TmpAuthCode : string }.
End SnsRequest.

Module UserIDReq.
Record t : Type := mk { UnionID : string }.
End UserIDReq.

Module ProcessCodeReq.
Record t : Type := mk { Name : string }.
End ProcessCodeReq.

(** The response objects; the embedded [CommonResp] is the field [Common]. *)
Module DepartmentNameCnf.
Record t : Type := mk {
  AutoAddUser : bool;
  CreateDeptGroup : bool;
  DeptID : Z;
  Name : string;
  ParentID : Z
}.
End DepartmentNameCnf.

(** [type DepartmentNameCnfCollection []*DepartmentNameCnf]. *)
Definition DepartmentNameCnfCollection : Type :=
  list (option DepartmentNameCnf.t).

Module DepartmentResp.
Record t : Type := mk {
  Common : CommonResp;
  Result : DepartmentNameCnfCollection
}.
Definition zero : t := mk (mkCommonResp 0 "" "") [].
End DepartmentResp.

Module DeptIDList.
Record t : Type := mk { DeptIDList : list Z }.
End DeptIDList.

Module DepartmentChildrenResp.
Record t : Type := mk {
  Common : CommonResp;
  Result : option DeptIDList.t
}.
Definition zero : t := mk (mkCommonResp 0 "" "") None.
End DepartmentChildrenResp.

Module SimpleUser.
Record t : Type := mk { UserID : string; Name : string; PIDS : list Z }.
End SimpleUser.

Module ListSimpleUserRes.
Record t : Type := mk {
  HasMore : bool;
  NextCursor : Z;
  List : list (option SimpleUser.t)
}.
End ListSimpleUserRes.

Module SimpleUserResp.
Record t : Type := mk {
  Common : CommonResp;
  Result : option ListSimpleUserRes.t
}.
Definition zero : t := mk (mkCommonResp 0 "" "") None.
End SimpleUserResp.

Module SnsUserInfo.
Record t : Type := mk {
  Nick : string;
  UnionID : string;
  OpenID : string;
  MainOrgAuthHighLevel : bool
}.
End SnsUserInfo.

Module SnsResponse.
Record t : Type := mk {
  Common : CommonResp;
  UserInfo : option SnsUserInfo.t
}.
Definition zero : t := mk (mkCommonResp 0 "" "") None.
End SnsResponse.

Module UserGetByUnionIdResponse.
Record t : Type := mk { UserID : string; ContactType : Z }.
End UserGetByUnionIdResponse.

Module UserIDResponse.
Record t : Type := mk {
  Common : CommonResp;
  Result : option UserGetByUnionIdResponse.t
}.
Definition zero : t := mk (mkCommonResp 0 "" "") None.
End UserIDResponse.

Module ProcessCodeResult.
Record t : Type := mk {
  Common : CommonResp;
  Code : string
}.
Definition zero : t := mk (mkCommonResp 0 "" "") "".
End ProcessCodeResult.

(** The values these operations pass to [post] as [data interface{}]. *)
Inductive ApiData : Type :=
| DataDepartmentReq (r : DepartmentReq.t)
| DataDepartmentChildrenReq (r : DepartmentChildrenReq.t)
| DataSimpleUserReq (r : SimpleUserReq.t)
| DataSnsRequest (r : SnsRequest.t)
| DataUserIDReq (r : UserIDReq.t)
| DataProcessCodeReq (r : ProcessCodeReq.t).

(** The errors these operations return, one constructor for each [Errorf]. *)
Inductive apiError : Type :=
| Plain (err : error)
    (* an error of GetAccessToken, or one of lines 507, 522 and 529 *)
| ErrNewRequest (err : error)
    (* Errorf "creating the HTTP request failed: %v" err,           line 496 *)
| ErrDepartments (deptID : Z) (err : apiError)
    (* Errorf "department (%d) list failed: %v" deptID err,         line 116 *)
| ErrDepartmentsRejected (errmsg : string) (errcode : Z)
    (* Errorf "department list failed: %s(%d)" ErrMsg ErrCode,      line 122 *)
| ErrChildren (deptID : Z) (err : apiError)
    (* Errorf "sub-department (%d) list failed: %v" deptID err,     line 137 *)
| ErrChildrenRejected (errmsg : string) (errcode : Z)
    (* Errorf "sub-department list failed: %s(%d)" ErrMsg ErrCode,  line 141 *)
| ErrSimpleUsers (deptID : Z) (err : apiError)
    (* Errorf "users of department (%d) failed: %v" DeptID err,     line 161 *)
| ErrSimpleUsersRejected (errmsg : string) (errcode : Z)
    (* Errorf "users of department failed; %s(%d)" ErrMsg ErrCode,  line 165 *)
| ErrIDs (ids : list Z) (err : apiError)
    (* Errorf "%v, %v" ids err,               lines 196, 202, 217 and 223 *)
| ErrProcessCode (errmsg : string) (errcode : Z)
    (* Errorf "template code failed: %s(%d)" ErrMsg ErrCode,        line 409 *)
| ErrInvalidUnionID
    (* Errorf "invalid UnionID",                                    line 427 *)
| ErrSns (err : apiError)
    (* Errorf "user info by sns code failed: %v" err,               line 456 *)
| ErrRemote (errmsg : string) (errcode : Z).
    (* Errorf "%s(%d)" ErrMsg ErrCode,                    lines 461 and 483 *)

(** The map [users] of [GetSimpleUserByDeptIDList]: its entries, with
    distinct keys. *)
Definition UserMap : Type := list (string * SimpleUser.t).

(** What [fmt.Println] is given. *)
Inductive Printed : Type :=
| PrintString (s : string)
| PrintSnsResponse (r : SnsResponse.t)
| PrintSnsUserInfo (r : option SnsUserInfo.t)
| PrintUserIDResponse (r : UserIDResponse.t).

Inductive ApiEvent : Type -> Type :=
| Base {X : Type} (e : Event X) : ApiEvent X
| NewRequest (url : string) : ApiEvent (option error)
    (* http.NewRequest(http.MethodPost, url, body): it parses the URL *)
| HttpPost (url : string) (data : ApiData) : ApiEvent (error + Response)
    (* http.DefaultClient.Do of the request, whose body is the JSON of data *)
| UnmarshalDepartmentResp (payload : string) (out : DepartmentResp.t) :
    ApiEvent (DepartmentResp.t * option error)
| UnmarshalDepartmentChildrenResp (payload : string)
    (out : DepartmentChildrenResp.t) :
    ApiEvent (DepartmentChildrenResp.t * option error)
| UnmarshalSimpleUserResp (payload : string) (out : SimpleUserResp.t) :
    ApiEvent (SimpleUserResp.t * option error)
| UnmarshalSnsResponse (payload : string) (out : SnsResponse.t) :
    ApiEvent (SnsResponse.t * option error)
| UnmarshalUserIDResponse (payload : string) (out : UserIDResponse.t) :
    ApiEvent (UserIDResponse.t * option error)
| UnmarshalProcessCodeResult (payload : string) (out : ProcessCodeResult.t) :
    ApiEvent (ProcessCodeResult.t * option error)
| Sign (secret timestamp : string) : ApiEvent string
    (* url.QueryEscape of the base64 of the HMAC-SHA256 of timestamp *)
| RangeUsers (users : UserMap) : ApiEvent UserMap
    (* the entries of a map in the order [range] visits them *)
| Println (line : Printed) : ApiEvent unit
| Panic (msg : string) : ApiEvent Empty_set.

Inductive Api (A : Type) : Type :=
| ARet (a : A)
| AVis {X : Type} (e : ApiEvent X) (k : X -> Api A).

Arguments ARet {A} a.
Arguments AVis {A X} e k.

Fixpoint abind {A B : Type} (p : Api A) (f : A -> Api B) : Api B :=
  match p with
  | ARet a => f a
  | AVis e k => AVis e (fun x => abind (k x) f)
  end.

Definition atrigger {X : Type} (e : ApiEvent X) : Api X := AVis e ARet.

(** A program of [Prog], run among these. *)
Fixpoint call {A : Type} (p : Prog A) : Api A :=
  match p with
  | Ret a => ARet a
  | Vis e k => AVis (Base e) (fun x => call (k x))
  end.

Definition apanic {A : Type} (msg : string) : Api A :=
  AVis (Panic msg) (fun x : Empty_set => match x with end).

Definition adiverge {A : Type} : Api A := call diverge.

(** The message of the panic at a field of a nil pointer. *)
Definition nilDereference : string :=
  "runtime error: invalid memory address or nil pointer dereference".

Declare Scope api_scope.
Delimit Scope api_scope with api.
Notation "x <- p ;; q" := (abind p (fun x => q))
  (at level 61, p at next level, right associativity) : api_scope.
Notation "' pat <- p ;; q" := (abind p (fun x => match x with pat => q end))
  (at level 61, pat pattern, p at next level, right associativity) : api_scope.
Notation "p ;; q" := (abind p (fun _ => q))
  (at level 61, right associativity) : api_scope.
Local Open Scope api_scope.

(** [fmt.Sprintf] of the formats of lines 23 to 33. *)
Definition reqDept (accessToken : string) : string :=
  ("/topapi/v2/department/listsub?access_token=" ++ accessToken)%string.
Definition reqChildrenDept (accessToken : string) : string :=
  ("/topapi/v2/department/listsubid?access_token=" ++ accessToken)%string.
Definition reqUser (accessToken : string) : string :=
  ("/topapi/user/listsimple?access_token=" ++ accessToken)%string.
Definition snsReq (accessKey timestamp signature : string) : string :=
  ("/sns/getuserinfo_bycode?accessKey=" ++ accessKey ++ "&timestamp="
     ++ timestamp ++ "&signature=" ++ signature)%string.
Definition reqUserByUnionID (accessToken : string) : string :=
  ("/topapi/user/getbyunionid?access_token=" ++ accessToken)%string.
Definition reqProcessCode (accessToken : string) : string :=
  ("/topapi/process/get_by_name?access_token=" ++ accessToken)%string.

(** [strconv.FormatInt(i, 10)]. *)
Definition FormatInt (i : Z) : string := NilZero.string_of_int (Z.to_int i).

(** [post(reqUrl, data, out, nil)] with [readResult] (lines 489 to 533), for
    any response type; [unmarshal] is [json.Unmarshal] into that type.
    [json.Marshal] does not fail on the request objects above.  The status of
    the response is not looked at. *)
Definition apiPost {T : Type} (reqUrl : string) (data : ApiData)
  (unmarshal : string -> T -> ApiEvent (T * option error)) (out : T) :
  Api (T * option apiError) :=
  err <- atrigger (NewRequest reqUrl) ;;
  match err with
  | Some err => ARet (out, Some (ErrNewRequest err))
  | None =>
      resp <- atrigger (HttpPost reqUrl data) ;;
      match resp with
      | inl err => ARet (out, Some (Plain (ErrRequest err)))
      | inr resp =>
          match Body resp with
          | inl err => ARet (out, Some (Plain (ErrRead err)))
          | inr payload =>
              '(out', err) <- atrigger (unmarshal payload out) ;;
              match err with
              | Some e => ARet (out', Some (Plain (ErrParse e)))
              | None => ARet (out', None)
              end
          end
      end
  end.

(** [GetDepartments] (lines 98 to 125). *)
Definition GetDepartments (d : DingTalkClient) (deptID : Z) (language : Lang) :
  Api (DepartmentNameCnfCollection * option apiError) :=
  '(accToken, err) <- call (GetAccessToken d) ;;
  match err with
  | Some err => ARet ([], Some (Plain err))
  | None =>
      let lang :=
        if (language =? EnglishLanguage)%string then language
        else ChineseLanguage in
      let reqUrl := (domain ++ reqDept accToken)%string in
      '(data, err) <-
        apiPost reqUrl (DataDepartmentReq (DepartmentReq.mk deptID lang))
          UnmarshalDepartmentResp DepartmentResp.zero ;;
      match err with
      | Some err => ARet ([], Some (ErrDepartments deptID err))
      | None =>
          if negb (ErrCode (DepartmentResp.Common data) =? 0) then
            ARet ([], Some (ErrDepartmentsRejected
                              (ErrMsg (DepartmentResp.Common data))
                              (ErrCode (DepartmentResp.Common data))))
          else ARet (DepartmentResp.Result data, None)
      end
  end.

(** [DepartmentNameCnfCollection.ForEach] (lines 204 to 211 of the response
    model); [fn] is any function, with its effects and its errors. *)
Fixpoint ForEach {E : Type} (c : DepartmentNameCnfCollection)
  (fn : option DepartmentNameCnf.t -> Api (option E)) : Api (option E) :=
  match c with
  | [] => ARet None
  | item :: c =>
      err <- fn item ;;
      match err with
      | Some err => ARet (Some err)
      | None => ForEach c fn
      end
  end.

(** [GetChildrenDepartments] (lines 127 to 149). *)
Definition GetChildrenDepartments (d : DingTalkClient) (deptID : Z) :
  Api (list Z * option apiError) :=
  '(accToken, err) <- call (GetAccessToken d) ;;
  match err with
  | Some err => ARet ([], Some (Plain err))
  | None =>
      let reqUrl := (domain ++ reqChildrenDept accToken)%string in
      '(data, err) <-
        apiPost reqUrl
          (DataDepartmentChildrenReq (DepartmentChildrenReq.mk deptID))
          UnmarshalDepartmentChildrenResp DepartmentChildrenResp.zero ;;
      match err with
      | Some err => ARet ([], Some (ErrChildren deptID err))
      | None =>
          if negb (ErrCode (DepartmentChildrenResp.Common data) =? 0) then
            ARet ([], Some (ErrChildrenRejected
                              (ErrMsg (DepartmentChildrenResp.Common data))
                              (ErrCode (DepartmentChildrenResp.Common data))))
          else
            match DepartmentChildrenResp.Result data with
            | None => ARet ([], None)
            | Some result => ARet (DeptIDList.DeptIDList result, None)
            end
      end
  end.

(** The loop of [GetDepartmentsByParent] (lines 193 to 208); [again] is the
    recursive call on the children. *)
Fixpoint departmentsLoop (again : list Z -> Api (list Z * option apiError))
  (d : DingTalkClient) (ids rest data : list Z) :
  Api (list Z * option apiError) :=
  match rest with
  | [] => ARet (data, None)
  | deptId :: rest =>
      '(children, err) <- GetChildrenDepartments d deptId ;;
      match err with
      | Some err => ARet ([], Some (ErrIDs ids err))
      | None =>
          if (0 <? List.length children)%nat then
            '(cc, err) <- again children ;;
            match err with
            | Some err => ARet ([], Some (ErrIDs children err))
            | None => departmentsLoop again d ids rest ((data ++ cc) ++ children)
            end
          else departmentsLoop again d ids rest (data ++ children)
      end
  end.

(** [GetDepartmentsByParent] (lines 191 to 210).  [fuel] bounds the depth of
    the recursive calls: one nested deeper does not return. *)
Fixpoint GetDepartmentsByParent (fuel : nat) (d : DingTalkClient) (ids : list Z) :
  Api (list Z * option apiError) :=
  match fuel with
  | O => departmentsLoop (fun _ => adiverge) d ids ids []
  | S fuel => departmentsLoop (GetDepartmentsByParent fuel d) d ids ids []
  end.

(** The loop of [GetDepartmentNamesByParent] (lines 214 to 229); [again] is
    the call of [GetDepartmentsByParent] on the children. *)
Fixpoint departmentNamesLoop
  (again : list Z -> Api (list Z * option apiError))
  (d : DingTalkClient) (ids rest data : list Z) :
  Api (list Z * option apiError) :=
  match rest with
  | [] => ARet (data, None)
  | deptId :: rest =>
      '(children, err) <- GetChildrenDepartments d deptId ;;
      match err with
      | Some err => ARet ([], Some (ErrIDs ids err))
      | None =>
          if (0 <? List.length children)%nat then
            '(cc, err) <- again children ;;
            match err with
            | Some err => ARet ([], Some (ErrIDs children err))
            | None =>
                departmentNamesLoop again d ids rest ((data ++ cc) ++ children)
            end
          else departmentNamesLoop again d ids rest (data ++ children)
      end
  end.

(** [GetDepartmentNamesByParent] (lines 212 to 231); [fuel] bounds the depth
    of the calls of [GetDepartmentsByParent] below it. *)
Definition GetDepartmentNamesByParent (fuel : nat) (d : DingTalkClient)
  (ids : list Z) : Api (list Z * option apiError) :=
  match fuel with
  | O => departmentNamesLoop (fun _ => adiverge) d ids ids []
  | S fuel => departmentNamesLoop (GetDepartmentsByParent fuel d) d ids ids []
  end.

(** [GetSimpleUsers] (lines 151 to 169). *)
Definition GetSimpleUsers (d : DingTalkClient) (reqParams : SimpleUserReq.t) :
  Api (option ListSimpleUserRes.t * option apiError) :=
  '(accToken, err) <- call (GetAccessToken d) ;;
  match err with
  | Some err => ARet (None, Some (Plain err))
  | None =>
      let reqUrl := (domain ++ reqUser accToken)%string in
      '(data, err) <-
        apiPost reqUrl (DataSimpleUserReq reqParams)
          UnmarshalSimpleUserResp SimpleUserResp.zero ;;
      match err with
      | Some err =>
          ARet (None, Some (ErrSimpleUsers (SimpleUserReq.DeptID reqParams) err))
      | None =>
          if negb (ErrCode (SimpleUserResp.Common data) =? 0) then
            ARet (None, Some (ErrSimpleUsersRejected
                                (ErrMsg (SimpleUserResp.Common data))
                                (ErrCode (SimpleUserResp.Common data))))
          else ARet (SimpleUserResp.Result data, None)
      end
  end.

(** [users[k] = v]. *)
Fixpoint map_set (k : string) (v : SimpleUser.t) (users : UserMap) : UserMap :=
  match users with
  | [] => [(k, v)]
  | (k', v') :: users =>
      if (k' =? k)%string then (k, v) :: users
      else (k', v') :: map_set k v users
  end.

(** [for _, u := range listRes.List { users[u.UserID] = u }] (lines 252 to
    254); a nil [u] panics at [u.UserID]. *)
Fixpoint insertUsers (l : list (option SimpleUser.t)) (users : UserMap) :
  Api UserMap :=
  match l with
  | [] => ARet users
  | None :: _ => apanic nilDereference
  | Some u :: l => insertUsers l (map_set (SimpleUser.UserID u) u users)
  end.

(** The inner loop of [GetSimpleUserByDeptIDList] (lines 236 to 259): the
    pages of one department.  A nil [listRes] panics at
    [listRes.NextCursor].  [fuel] bounds the pages asked for: a loop that
    ran out of it would not return. *)
Fixpoint userPages (fuel : nat) (d : DingTalkClient) (dept cursor : Z)
  (users : UserMap) : Api (UserMap * option apiError) :=
  match fuel with
  | O => adiverge
  | S fuel =>
      '(listRes, err) <-
        GetSimpleUsers d
          (SimpleUserReq.mk dept cursor 100 EntryAsc false ChineseLanguage) ;;
      match err with
      | Some err => ARet (users, Some err)
      | None =>
          match listRes with
          | None => apanic nilDereference
          | Some listRes =>
              let cursor := ListSimpleUserRes.NextCursor listRes in
              users <- insertUsers (ListSimpleUserRes.List listRes) users ;;
              if negb (ListSimpleUserRes.HasMore listRes) then ARet (users, None)
              else userPages fuel d dept cursor users
          end
      end
  end.

(** The outer loop (lines 235 to 260). *)
Fixpoint userDepts (fuel : nat) (d : DingTalkClient) (depts : list Z)
  (users : UserMap) : Api (UserMap * option apiError) :=
  match depts with
  | [] => ARet (users, None)
  | dept :: depts =>
      '(users, err) <- userPages fuel d dept 0 users ;;
      match err with
      | Some err => ARet (users, Some err)
      | None => userDepts fuel d depts users
      end
  end.

(** [GetSimpleUserByDeptIDList] (lines 233 to 267).  The slice returned
    holds the values of the map in the order [range] visits the map. *)
Definition GetSimpleUserByDeptIDList (fuel : nat) (d : DingTalkClient)
  (depts : list Z) : Api (list SimpleUser.t * option apiError) :=
  '(users, err) <- userDepts fuel d depts [] ;;
  match err with
  | Some err => ARet ([], Some err)
  | None =>
      entries <- atrigger (RangeUsers users) ;;
      ARet (map snd entries, None)
  end.

(** [GetUserUnionIDByCode] (lines 438 to 466).  [time.Now().UnixNano()] is
    the reading of the clock; the division of [int64] truncates. *)
Definition GetUserUnionIDByCode (d : DingTalkClient) (tmpCode : string) :
  Api (option SnsUserInfo.t * option apiError) :=
  now <- atrigger (Base TimeNow) ;;
  let timestamp := FormatInt (Z.quot now 1000000) in
  sig <- atrigger (Sign (appSecret d) timestamp) ;;
  let reqUrl := (domain ++ snsReq (appKey d) timestamp sig)%string in
  atrigger (Println (PrintString reqUrl)) ;;
  '(data, err) <-
    apiPost reqUrl (DataSnsRequest (SnsRequest.mk tmpCode))
      UnmarshalSnsResponse SnsResponse.zero ;;
  match err with
  | Some err => ARet (None, Some (ErrSns err))
  | None =>
      if ErrCode (SnsResponse.Common data) >? 0 then
        atrigger (Println (PrintSnsResponse data)) ;;
        ARet (None, Some (ErrRemote (ErrMsg (SnsResponse.Common data))
                            (ErrCode (SnsResponse.Common data))))
      else
        atrigger (Println (PrintSnsUserInfo (SnsResponse.UserInfo data))) ;;
        ARet (SnsResponse.UserInfo data, None)
  end.

(** [GetUserIDByUnionID] (lines 469 to 487); a nil [data.Result] panics at
    [data.Result.UserID]. *)
Definition GetUserIDByUnionID (d : DingTalkClient) (unionID : string) :
  Api (string * option apiError) :=
  '(accToken, err) <- call (GetAccessToken d) ;;
  match err with
  | Some err => ARet (""%string, Some (Plain err))
  | None =>
      let reqUrl := (domain ++ reqUserByUnionID accToken)%string in
      '(data, err) <-
        apiPost reqUrl (DataUserIDReq (UserIDReq.mk unionID))
          UnmarshalUserIDResponse UserIDResponse.zero ;;
      match err with
      | Some err => ARet (""%string, Some err)
      | None =>
          if ErrCode (UserIDResponse.Common data) >? 0 then
            atrigger (Println (PrintUserIDResponse data)) ;;
            ARet (""%string,
                  Some (ErrRemote (ErrMsg (UserIDResponse.Common data))
                          (ErrCode (UserIDResponse.Common data))))
          else
            match UserIDResponse.Result data with
            | None => apanic nilDereference
            | Some result => ARet (UserGetByUnionIdResponse.UserID result, None)
            end
      end
  end.

(** [GetProcessCode] (lines 399 to 414).  When [post] fails, the error is
    built from [data], as the request left it, and not from [err]. *)
Definition GetProcessCode (d : DingTalkClient) : Api (option apiError) :=
  '(accToken, err) <- call (GetAccessToken d) ;;
  match err with
  | Some err => ARet (Some (Plain err))
  | None =>
      let reqUrl := (domain ++ reqProcessCode accToken)%string in
      '(data, err) <-
        apiPost reqUrl
          (DataProcessCodeReq (ProcessCodeReq.mk "每日工作结果日志[V]"))
          UnmarshalProcessCodeResult ProcessCodeResult.zero ;;
      match err with
      | Some _ =>
          ARet (Some (ErrProcessCode (ErrMsg (ProcessCodeResult.Common data))
                        (ErrCode (ProcessCodeResult.Common data))))
      | None =>
          atrigger (Println (PrintString (ProcessCodeResult.Code data))) ;;
          ARet None
      end
  end.

(** [GetUserIDFromScanQrCode] (lines 420 to 436). *)
Definition GetUserIDFromScanQrCode (d : DingTalkClient) (tmpCode : string) :
  Api (string * option apiError) :=
  '(snsUserInfo, err) <- GetUserUnionIDByCode d tmpCode ;;
  match err with
  | Some err => ARet (""%string, Some err)
  | None =>
      match snsUserInfo with
      | None => ARet (""%string, Some ErrInvalidUnionID)
      | Some snsUserInfo =>
          '(userId, err) <-
            GetUserIDByUnionID d (SnsUserInfo.UnionID snsUserInfo) ;;
          match err with
          | Some err => ARet (""%string, Some err)
          | None => ARet (userId, None)
          end
      end
  end.

(** *** Running them

    The environment answers the [n]-th POST of [post], parses URLs, decodes
    the response objects, signs, and picks the order in which a map is
    ranged over.  The world records the POSTs and what was printed. *)

Record ApiEnv : Type := mkApiEnv {
  base_env : Env;
  new_request : string -> option error;
  http_post : nat -> string -> ApiData -> error + Response;
  unmarshal_department :
    string -> DepartmentResp.t -> DepartmentResp.t * option error;
  unmarshal_children :
    string -> DepartmentChildrenResp.t ->
    DepartmentChildrenResp.t * option error;
  unmarshal_simple_users :
    string -> SimpleUserResp.t -> SimpleUserResp.t * option error;
  unmarshal_sns : string -> SnsResponse.t -> SnsResponse.t * option error;
  unmarshal_user_id :
    string -> UserIDResponse.t -> UserIDResponse.t * option error;
  unmarshal_process_code :
    string -> ProcessCodeResult.t -> ProcessCodeResult.t * option error;
  sign : string -> string -> string;
  range_order : UserMap -> UserMap
}.

Record ApiWorld : Type := mkApiWorld {
  world : World;
  api_posts : list (string * ApiData);  (* the POSTs of [post], oldest first *)
  printed : list Printed                (* the lines printed, oldest first *)
}.

Definition set_world (w0 : World) (w : ApiWorld) : ApiWorld :=
  mkApiWorld w0 (api_posts w) (printed w).
Definition add_api_post (url : string) (data : ApiData) (w : ApiWorld) :
  ApiWorld :=
  mkApiWorld (world w) (api_posts w ++ [(url, data)]) (printed w).
Definition add_printed (line : Printed) (w : ApiWorld) : ApiWorld :=
  mkApiWorld (world w) (api_posts w) (printed w ++ [line]).

(** How a run ends: it returns, it panics, or it never gets past an event
    (see [handle]). *)
Inductive Outcome (A : Type) : Type :=
| Returned (a : A) (w : ApiWorld)
| Panicked (msg : string) (w : ApiWorld)
| Blocked.

Arguments Returned {A} a w.
Arguments Panicked {A} msg w.
Arguments Blocked {A}.

Definition handleApi (env : ApiEnv) {X : Type} (e : ApiEvent X) (w : ApiWorld) :
  Outcome X :=
  match e in ApiEvent X return Outcome X with
  | Base e =>
      match handle (base_env env) e (world w) with
      | Some (x, w') => Returned x (set_world w' w)
      | None => Blocked
      end
  | NewRequest url => Returned (new_request env url) w
  | HttpPost url data =>
      Returned (http_post env (List.length (api_posts w)) url data)
        (add_api_post url data w)
  | UnmarshalDepartmentResp payload out =>
      Returned (unmarshal_department env payload out) w
  | UnmarshalDepartmentChildrenResp payload out =>
      Returned (unmarshal_children env payload out) w
  | UnmarshalSimpleUserResp payload out =>
      Returned (unmarshal_simple_users env payload out) w
  | UnmarshalSnsResponse payload out => Returned (unmarshal_sns env payload out) w
  | UnmarshalUserIDResponse payload out =>
      Returned (unmarshal_user_id env payload out) w
  | UnmarshalProcessCodeResult payload out =>
      Returned (unmarshal_process_code env payload out) w
  | Sign secret timestamp => Returned (sign env secret timestamp) w
  | RangeUsers users => Returned (range_order env users) w
  | Println line => Returned tt (add_printed line w)
  | Panic msg => Panicked msg w
  end.

Fixpoint runApi (env : ApiEnv) {A : Type} (p : Api A) (w : ApiWorld) :
  Outcome A :=
  match p with
  | ARet a => Returned a w
  | AVis e k =>
      match handleApi env e w with
      | Returned x w' => runApi env (k x) w'
      | Panicked msg w' => Panicked msg w'
      | Blocked => Blocked
      end
  end.

(** *** Words for the statements *)

(** The cache holds a token that no reading of the clock finds expired, and
    the mutex is free: every [GetAccessToken] is a hit. *)
Definition token_held (env : Env) (w : World) : Prop :=
  mutex w = false /\ accessToken w <> ""%string /\
  forall n, clock env n < expireTime w.

(** What [post] leaves in [out] and returns, when the request is the [n]-th
    POST of the run and [decode] is [json.Unmarshal]. *)
Definition api_post_outcome (env : ApiEnv) {T : Type}
  (decode : string -> T -> T * option error) (n : nat) (url : string)
  (data : ApiData) (out : T) : T * option apiError :=
  match http_post env n url data with
  | inl err => (out, Some (Plain (ErrRequest err)))
  | inr resp =>
      match Body resp with
      | inl err => (out, Some (Plain (ErrRead err)))
      | inr payload =>
          let (out', err) := decode payload out in
          (out', option_map (fun e => Plain (ErrParse e)) err)
      end
  end.

(** Lines 144 to 148: the identifiers a decoded response yields. *)
Definition children_of (data : DepartmentChildrenResp.t) : list Z :=
  match DepartmentChildrenResp.Result data with
  | None => []
  | Some result => DeptIDList.DeptIDList result
  end.

(** The request [GetChildrenDepartments] posts with the token [tok]. *)
Definition children_request (tok : string) (deptID : Z) : string * ApiData :=
  ((domain ++ reqChildrenDept tok)%string,
   DataDepartmentChildrenReq (DepartmentChildrenReq.mk deptID)).

(** A department with the departments below it, and a forest of them as the
    directory describes it: [kids] gives the identifiers
    [GetChildrenDepartments] is answered with. *)
#[local] Unset Elimination Schemes.
Inductive tree : Type := T (id : Z) (sub : list tree).
#[local] Set Elimination Schemes.

Definition root (t : tree) : Z := match t with T id _ => id end.
Definition subtrees (t : tree) : list tree := match t with T _ sub => sub end.

Fixpoint shaped (kids : Z -> list Z) (t : tree) : Prop :=
  match t with
  | T id sub =>
      kids id = map root sub /\
      fold_right (fun t P => shaped kids t /\ P) True sub
  end.

Fixpoint height (t : tree) : nat :=
  match t with
  | T _ sub => fold_right (fun t h => Nat.max (S (height t)) h) O sub
  end.

(** The departments of a tree, each before those below it. *)
Fixpoint preorder (t : tree) : list Z :=
  match t with
  | T id sub => id :: flat_map preorder sub
  end.

(** The departments below the root. *)
Definition descendants (t : tree) : list Z := flat_map preorder (subtrees t).

(** The departments below the root in the order [GetDepartmentsByParent]
    lists them: those below each child, then the children (lines 205 and
    207). *)
Fixpoint below (t : tree) : list Z :=
  match t with
  | T _ sub => flat_map below sub ++ map root sub
  end.

(** With the token [tok], every request for the children of a department
    is answered, with error code 0 and the identifiers [kids] gives. *)
Definition serves_children (env : ApiEnv) (tok : string) (kids : Z -> list Z) :
  Prop :=
  forall deptID : Z,
    new_request env (fst (children_request tok deptID)) = None /\
    forall n : nat,
    exists data : DepartmentChildrenResp.t,
      api_post_outcome env (unmarshal_children env) n
        (fst (children_request tok deptID)) (snd (children_request tok deptID))
        DepartmentChildrenResp.zero = (data, None) /\
      ErrCode (DepartmentChildrenResp.Common data) = 0 /\
      children_of data = kids deptID.

(** The world after requests for the children of the departments [ids],
    each made with the cached token: one reading of the clock and one POST
    for each. *)
Definition after_requests (ids : list Z) (w : ApiWorld) : ApiWorld :=
  mkApiWorld (Nat.iter (List.length ids) tick (world w))
    (api_posts w ++ map (children_request (accessToken (world w))) ids)
    (printed w).

(** [under kids p c]: the directory puts the department [c] below [p]. *)
Inductive under (kids : Z -> list Z) : Z -> Z -> Prop :=
| under_child (p c : Z) : In c (kids p) -> under kids p c
| under_below (p c g : Z) : In c (kids p) -> under kids c g -> under kids p g.

(** There are [n] levels of departments below [id]. *)
Fixpoint deep (kids : Z -> list Z) (n : nat) (id : Z) : Prop :=
  match n with
  | O => True
  | S n => exists c : Z, In c (kids id) /\ deep kids n c
  end.

(** A walk of a directory that answers every request either goes on, with
    the token still held, or does not return. *)
Definition walk_goes_on (env : ApiEnv) (w : ApiWorld)
  (o : Outcome (list Z * option apiError)) : Prop :=
  match o with
  | Returned (_, None) w' =>
      token_held (base_env env) (world w') /\
      accessToken (world w') = accessToken (world w)
  | Returned (_, Some _) _ => False
  | Panicked _ _ => False
  | Blocked => True
  end.

(** The request [GetSimpleUserByDeptIDList] makes for the page of the
    department [dept] at [cursor] (lines 238 to 245), and what is posted for
    it with the token [tok]. *)
Definition page_request (dept cursor : Z) : SimpleUserReq.t :=
  SimpleUserReq.mk dept cursor 100 EntryAsc false ChineseLanguage.

Definition users_request (tok : string) (req : SimpleUserReq.t) :
  string * ApiData :=
  ((domain ++ reqUser tok)%string, DataSimpleUserReq req).

(** The keys of the map are distinct, and each entry is filed under its
    [UserID]. *)
Definition keyed (users : UserMap) : Prop :=
  NoDup (map fst users) /\
  Forall (fun kv => fst kv = SimpleUser.UserID (snd kv)) users.

(** With the token [tok], the request for any page of any department is
    answered with error code 0 and the page [page] gives. *)
Definition serves_users (env : ApiEnv) (tok : string)
  (page : Z -> Z -> ListSimpleUserRes.t) : Prop :=
  forall dept cursor : Z,
    new_request env (fst (users_request tok (page_request dept cursor))) = None /\
    forall n : nat,
    exists data : SimpleUserResp.t,
      api_post_outcome env (unmarshal_simple_users env) n
        (fst (users_request tok (page_request dept cursor)))
        (snd (users_request tok (page_request dept cursor)))
        SimpleUserResp.zero = (data, None) /\
      ErrCode (SimpleUserResp.Common data) = 0 /\
      SimpleUserResp.Result data = Some (page dept cursor).

(** The cursors of the pages of a department from [cursor] on, as long as
    the pages have more, [n] of them at most; and whether the pages end
    within [n]. *)
Fixpoint cursors (page : Z -> Z -> ListSimpleUserRes.t) (dept cursor : Z)
  (n : nat) : list Z :=
  match n with
  | O => []
  | S n =>
      cursor ::
      (if ListSimpleUserRes.HasMore (page dept cursor)
       then cursors page dept (ListSimpleUserRes.NextCursor (page dept cursor)) n
       else [])
  end.

Fixpoint ends_within (page : Z -> Z -> ListSimpleUserRes.t) (dept cursor : Z)
  (n : nat) : bool :=
  match n with
  | O => false
  | S n =>
      negb (ListSimpleUserRes.HasMore (page dept cursor))
      || ends_within page dept
           (ListSimpleUserRes.NextCursor (page dept cursor)) n
  end.

(** The pages asked for, for the departments [depts] in turn: the
    requests, and the users listed. *)
Definition pages_asked (page : Z -> Z -> ListSimpleUserRes.t) (depts : list Z)
  (n : nat) : list SimpleUserReq.t :=
  flat_map (fun dept => map (page_request dept) (cursors page dept 0 n)) depts.

Definition users_listed (page : Z -> Z -> ListSimpleUserRes.t)
  (depts : list Z) (n : nat) : list (option SimpleUser.t) :=
  flat_map
    (fun dept =>
       flat_map (fun cursor => ListSimpleUserRes.List (page dept cursor))
         (cursors page dept 0 n))
    depts.

(** The map after the assignments [users[u.UserID] = u] for the users [us]
    in turn. *)
Definition assign_all (us : list SimpleUser.t) (users : UserMap) : UserMap :=
  fold_left (fun users u => map_set (SimpleUser.UserID u) u users) us users.

(** The world after the requests [reqs], each made after a look at a cached
    token that is held: one reading of the clock and one POST for each. *)
Definition after_posts (reqs : list (string * ApiData)) (w : ApiWorld) :
  ApiWorld :=
  mkApiWorld (Nat.iter (List.length reqs) tick (world w))
    (api_posts w ++ reqs) (printed w).

(** The URL [GetUserUnionIDByCode] builds in the world [w] (lines 445 to
    451): the time in milliseconds and its signature under the secret of the
    application. *)
Definition sns_timestamp (env : ApiEnv) (w : ApiWorld) : string :=
  FormatInt (Z.quot (clock (base_env env) (ticks (world w))) 1000000).

Definition sns_url (env : ApiEnv) (d : DingTalkClient) (w : ApiWorld) : string :=
  (domain
   ++ snsReq (appKey d) (sns_timestamp env w)
        (sign env (appSecret d) (sns_timestamp env w)))%string.

(** The request [GetUserIDByUnionID] posts with the token [tok]. *)
Definition union_request (tok unionID : string) : string * ApiData :=
  ((domain ++ reqUserByUnionID tok)%string,
   DataUserIDReq (UserIDReq.mk unionID)).

(** The request [GetProcessCode] posts with the token [tok]. *)
Definition process_code_request (tok : string) : string * ApiData :=
  ((domain ++ reqProcessCode tok)%string,
   DataProcessCodeReq (ProcessCodeReq.mk "每日工作结果日志[V]")).

(** ** Concrete environments, for the examples *)

Definition client0 : DingTalkClient := mkDingTalkClient "agent" "key" "secret".

Definition world0 (tok : string) (expire : Z) : World :=
  mkWorld tok expire false 0 0 [] [] [] [].

Definition response_ok : Response := mkResponse "200 OK" 200 (inr "{}"%string).
Definition response_unavailable : Response :=
  mkResponse "503 Service Unavailable" 503 (inr ""%string).

(** Every GET is answered by [get] and decodes to [atr]; every POST by [do];
    the clock stands at [now] and every random draw is [r]. *)
Definition env0 (now : Z) (r : float64) (get : error + Response)
  (atr : AccessTokenResp) (do : error + Response) : Env :=
  mkEnv (fun _ => now) (fun _ => r) (fun _ _ => get) (fun _ _ => do)
    (fun m => inr ("{" ++ Title m ++ "," ++ Text m ++ "}")%string)
    (fun _ _ => (atr, None))
    (fun _ out => (out, None)).

Definition atr_ok (ttl : Z) : AccessTokenResp :=
  mkAccessTokenResp (mkCommonResp 0 "ok" "") "7122c6639d12378195cae4237d5fd61e" ttl.
Definition atr_rejected : AccessTokenResp :=
  mkAccessTokenResp (mkCommonResp 40089 "invalid appkey or appsecret" "") "" 0.

(** The token endpoint grants a token for 7200 seconds; the relay refuses
    every connection. *)
Definition env_relay_down : Env :=
  env0 300 (1 # 2) (inr response_ok) (atr_ok 7200)
    (inl (ErrLib "dial tcp: connection refused")).

(** The same, with a relay that accepts every request. *)
Definition env_relay_up : Env :=
  env0 300 (1 # 2) (inr response_ok) (atr_ok 7200) (inr response_ok).

(** Twenty-five recipients, ["A"] to ["Y"]. *)
Definition recipients25 : list string :=
  map (fun n => String (Ascii.ascii_of_nat (65 + n)) EmptyString) (seq 0 25).

(** The world after a first, successful [GetAccessToken] in those
    environments. *)
Definition world_fetched : World :=
  mkWorld "7122c6639d12378195cae4237d5fd61e" (300 + 7200 * Second) false
    1 0 [token_url client0] [] [] [].

(** A response with status 200 whose body breaks off while it is read. *)
Definition response_truncated : Response :=
  mkResponse "200 OK" 200 (inl (ErrLib "unexpected EOF")).

(** A response with status 500 and a body that decodes. *)
Definition response_server_error : Response :=
  mkResponse "500 Internal Server Error" 500 (inr "{}"%string).

(** The token endpoint grants a token for 7200 seconds, and two readings of
    the clock are 7200 seconds apart. *)
Definition env_slow_clock : Env :=
  mkEnv (fun n => Z.of_nat n * (7200 * Second)) (fun _ => 1 # 2)
    (fun _ _ => inr response_ok) (fun _ _ => inr response_ok)
    (fun m => inr ("{" ++ Title m ++ "," ++ Text m ++ "}")%string)
    (fun _ _ => (atr_ok 7200, None))
    (fun _ out => (out, None)).

(** The relay refuses the first [k] connections and accepts the others. *)
Definition env_relay_flaky (k : nat) : Env :=
  mkEnv (fun _ => 300) (fun _ => 1 # 2)
    (fun _ _ => inr response_ok)
    (fun n _ =>
       if (n <? k)%nat then inl (ErrLib "dial tcp: connection refused")
       else inr response_ok)
    (fun m => inr ("{" ++ Title m ++ "," ++ Text m ++ "}")%string)
    (fun _ _ => (atr_ok 7200, None))
    (fun _ out => (out, None)).

(** The message cannot be marshalled. *)
Definition env_marshal_fails : Env :=
  mkEnv (fun _ => 300) (fun _ => 1 # 2)
    (fun _ _ => inr response_ok) (fun _ _ => inr response_ok)
    (fun _ => inl (ErrLib "json: unsupported value"))
    (fun _ _ => (atr_ok 7200, None))
    (fun _ out => (out, None)).

(** The token endpoint answers 200 with a body that breaks off. *)
Definition env_token_truncated : Env :=
  env0 300 (1 # 2) (inr response_truncated) (atr_ok 7200) (inr response_ok).


(** The relay answers every request with status 500 and a body that decodes. *)
Definition env_relay_500 : Env :=
  env0 300 (1 # 2) (inr response_ok) (atr_ok 7200) (inr response_server_error).

(** A small directory behind the other operations.  Department 1 has the
    children 2 and 3, 2 has the child 4, and 7 and 8 are each other's child;
    department 10 has two pages of users and 20 has one, with ["bob"] on
    both.  The answers are told apart by their bodies, which stand for the
    JSON. *)
Definition children_payload (deptID : Z) : string :=
  match deptID with
  | 1 => "[2,3]"
  | 2 => "[4]"
  | 7 => "[8]"
  | 8 => "[7]"
  | _ => "{}"
  end.

Definition decode_children (payload : string) : DepartmentChildrenResp.t :=
  DepartmentChildrenResp.mk (mkCommonResp 0 "ok" "")
    (if (payload =? "[2,3]")%string then Some (DeptIDList.mk [2; 3])
     else if (payload =? "[4]")%string then Some (DeptIDList.mk [4])
     else if (payload =? "[8]")%string then Some (DeptIDList.mk [8])
     else if (payload =? "[7]")%string then Some (DeptIDList.mk [7])
     else None).

Definition kids0 (deptID : Z) : list Z :=
  children_of (decode_children (children_payload deptID)).

Definition alice : SimpleUser.t := SimpleUser.mk "alice" "Alice" [10].
Definition bob : SimpleUser.t := SimpleUser.mk "bob" "Bob" [10].
Definition carol : SimpleUser.t := SimpleUser.mk "carol" "Carol" [10].
Definition bob20 : SimpleUser.t := SimpleUser.mk "bob" "Bob" [10; 20].

Definition users_payload (dept cursor : Z) : string :=
  if (dept =? 10) && (cursor =? 0) then "page 1 of 10"
  else if (dept =? 10) && (cursor =? 100) then "page 2 of 10"
  else if (dept =? 20) && (cursor =? 0) then "page 1 of 20"
  else "empty page".

Definition decode_page (payload : string) : ListSimpleUserRes.t :=
  if (payload =? "page 1 of 10")%string
  then ListSimpleUserRes.mk true 100 [Some alice; Some bob]
  else if (payload =? "page 2 of 10")%string
  then ListSimpleUserRes.mk false 0 [Some carol]
  else if (payload =? "page 1 of 20")%string
  then ListSimpleUserRes.mk false 0 [Some bob20]
  else ListSimpleUserRes.mk false 0 [].

Definition page0 (dept cursor : Z) : ListSimpleUserRes.t :=
  decode_page (users_payload dept cursor).

Definition sns_user : SnsUserInfo.t :=
  SnsUserInfo.mk "Alice" "union-alice" "open-alice" false.

(** The body of the answer to a request. *)
Definition payload0 (data : ApiData) : string :=
  match data with
  | DataDepartmentReq _ => "{}"
  | DataDepartmentChildrenReq r =>
      children_payload (DepartmentChildrenReq.DeptID r)
  | DataSimpleUserReq r =>
      users_payload (SimpleUserReq.DeptID r) (SimpleUserReq.Cursor r)
  | DataSnsRequest r =>
      if (SnsRequest.TmpAuthCode r =? "code of alice")%string
      then "alice" else "busy"
  | DataUserIDReq r =>
      if (UserIDReq.UnionID r =? "union-alice")%string
      then "alice" else "busy"
  | DataProcessCodeReq _ => "no such template"
  end.

(** Over [env_relay_up]: every URL parses, every POST is answered as
    [answer] says, a list of users decodes as [users] says, the signature of
    a timestamp is a mark around it, and a map is ranged over from its last
    entry to its first.  The service answers a code or a union id it does
    not know with the error code -1 and nothing else, and it knows no
    template. *)
Definition api_env (answer : ApiData -> error + Response)
  (users : string -> option ListSimpleUserRes.t) : ApiEnv :=
  mkApiEnv env_relay_up
    (fun _ => None)
    (fun _ _ data => answer data)
    (fun _ out => (out, None))
    (fun payload _ => (decode_children payload, None))
    (fun payload _ =>
       (SimpleUserResp.mk (mkCommonResp 0 "ok" "") (users payload), None))
    (fun payload _ =>
       (if (payload =? "alice")%string
        then SnsResponse.mk (mkCommonResp 0 "ok" "") (Some sns_user)
        else SnsResponse.mk (mkCommonResp (-1) "system busy" "") None, None))
    (fun payload _ =>
       (if (payload =? "alice")%string
        then UserIDResponse.mk (mkCommonResp 0 "ok" "")
               (Some (UserGetByUnionIdResponse.mk "manager4220" 0))
        else UserIDResponse.mk (mkCommonResp (-1) "system busy" "") None, None))
    (fun _ _ =>
       (ProcessCodeResult.mk (mkCommonResp 40078 "no such template" "") "",
        None))
    (fun _ timestamp => ("sig(" ++ timestamp ++ ")")%string)
    (fun users => rev users).

(** Every POST is answered with status 200 and the body [payload0] gives. *)
Definition answer0 (data : ApiData) : error + Response :=
  inr (mkResponse "200 OK" 200 (inr (payload0 data))).

(** The service lists the users page by page; or it answers with error
    code 0 and no result; or it refuses every connection. *)
Definition api_env0 : ApiEnv :=
  api_env answer0 (fun payload => Some (decode_page payload)).
Definition api_env_no_result : ApiEnv := api_env answer0 (fun _ => None).
Definition api_env_down : ApiEnv :=
  api_env (fun _ => inl (ErrLib "dial tcp: connection refused"))
    (fun _ => None).

(** A world with the token cached, before any request. *)
Definition api_world0 : ApiWorld := mkApiWorld world_fetched [] [].

(** The tree under department 1. *)
Definition tree0 : tree := T 1 [T 2 [T 4 []]; T 3 []].

(** Three departments, and a function that prints the names and stops at
    department 2. *)
Definition department (deptID : Z) (name : string) : option DepartmentNameCnf.t :=
  Some (DepartmentNameCnf.mk true true deptID name 1).

Definition print_until_2 (item : option DepartmentNameCnf.t) :
  Api (option string) :=
  match item with
  | None => ARet (Some "nil item"%string)
  | Some c =>
      if DepartmentNameCnf.DeptID c =? 2 then ARet (Some "stop"%string)
      else
        atrigger (Println (PrintString (DepartmentNameCnf.Name c))) ;;
        ARet None
  end.

(** * Properties *)

(** ** Running programs *)

Lemma run_bind (env : Env) (A B : Type) (p : Prog A) (f : A -> Prog B) (w : World) :
  run env (bind p f) w =
  match run env p w with
  | Some (a, w') => run env (f a) w'
  | None => None
  end.
Proof.
  revert w. induction p as [a | X e k IH]; intros w; simpl.
  - reflexivity.
  - destruct (handle env e w) as [[x w'] |]; auto.
Qed.

Ltac break_match :=
  match goal with
  | |- context [match ?x with _ => _ end] => destruct x eqn:?
  | |- context [if ?x then _ else _] => destruct x eqn:?
  end.

Ltac unfold_token :=
  unfold GetAccessToken, getAccessTokenLocked, readResultToken, cache_valid,
    checked, transport_error, token_url.

(** ** The token cache *)

(** With the mutex free, [GetAccessToken] returns, leaves the mutex free, and
    on a cache miss has issued exactly one GET, to the token endpoint. *)
Lemma GetAccessToken_returns (env : Env) (d : DingTalkClient) (w : World) :
  mutex w = false ->
  exists r w',
    run env (GetAccessToken d) w = Some (r, w') /\ mutex w' = false /\
    (cache_valid env w = false -> gets w' = gets w ++ [token_url d]).
Proof.
  intros Hm. unfold_token. cbn. rewrite Hm. cbn.
  repeat (break_match; cbn); try discriminate.
  all: eexists; eexists; split; [reflexivity|]; split; [reflexivity|].
  all: try discriminate; intros; reflexivity.
Qed.

Lemma GetAccessToken_hit (env : Env) (d : DingTalkClient) (w : World) :
  mutex w = false -> cache_valid env w = true ->
  run env (GetAccessToken d) w = Some ((accessToken w, None), tick w).
Proof.
  unfold cache_valid. intros Hm Hv. apply andb_prop in Hv as [Hne Hlt].
  unfold_token. cbn. rewrite Hm. cbn. rewrite Hne. cbn. rewrite Hlt. cbn.
  destruct w; cbn in *. subst. reflexivity.
Qed.

(** C1. If the cache holds a non-empty token and each of the next [n] readings
    of the clock is before the stored expiry, then [n] calls of
    [GetAccessToken] in a row each return the cached token with a nil error;
    no GET or POST is issued, and the cached token and expiry are unchanged
    (each call only reads the clock once). *)
Theorem GetAccessToken_cache_hit (env : Env) (d : DingTalkClient) (n : nat) (w : World) :
  mutex w = false ->
  accessToken w <> ""%string ->
  (forall i, (i < n)%nat -> clock env (ticks w + i) < expireTime w) ->
  exists w',
    repeat_run env (GetAccessToken d) n w
      = Some (repeat (accessToken w, None) n, w') /\
    gets w' = gets w /\ posts w' = posts w /\
    accessToken w' = accessToken w /\ expireTime w' = expireTime w /\
    ticks w' = (ticks w + n)%nat.
Proof.
  revert w. induction n as [| n IH]; intros w Hm Hne Hclk.
  - exists w. cbn. rewrite Nat.add_0_r. repeat split.
  - assert (Hv : cache_valid env w = true).
    { unfold cache_valid. apply andb_true_intro. split.
      - apply negb_true_iff, String.eqb_neq, Hne.
      - apply Z.ltb_lt. specialize (Hclk O). rewrite Nat.add_0_r in Hclk.
        apply Hclk. lia. }
    destruct (IH (tick w)) as (w' & Hrun & Hg & Hp & Ht & He & Hk).
    + exact Hm.
    + exact Hne.
    + intros i Hi. change (ticks (tick w)) with (S (ticks w)).
      change (expireTime (tick w)) with (expireTime w).
      replace (S (ticks w) + i)%nat with (ticks w + S i)%nat by lia.
      apply Hclk. lia.
    + exists w'. cbn [repeat_run repeat].
      rewrite (GetAccessToken_hit env d w Hm Hv).
      change (accessToken (tick w)) with (accessToken w) in Hrun, Ht.
      change (expireTime (tick w)) with (expireTime w) in He.
      change (gets (tick w)) with (gets w) in Hg.
      change (posts (tick w)) with (posts w) in Hp.
      change (ticks (tick w)) with (S (ticks w)) in Hk.
      rewrite Hrun. repeat split; try assumption. lia.
Qed.

Lemma GetAccessToken_cache_hit_witness :
  exists w',
    repeat_run (env0 100 (1 # 2) (inl (ErrLib "unreachable")) atr_rejected
                  (inl (ErrLib "unreachable")))
      (GetAccessToken client0) 3 (world0 "tok" 200)
      = Some (repeat ("tok"%string, None) 3, w') /\
    gets w' = [] /\ posts w' = [] /\
    accessToken w' = "tok"%string /\ expireTime w' = 200 /\ ticks w' = 3%nat.
Proof.
  apply (GetAccessToken_cache_hit
           (env0 100 (1 # 2) (inl (ErrLib "unreachable")) atr_rejected
              (inl (ErrLib "unreachable")))
           client0 3 (world0 "tok" 200)).
  - reflexivity.
  - discriminate.
  - intros i _. cbn. lia.
Defined.

(** C3. On a cache miss, when the GET fails or its status is not 200,
    [GetAccessToken] returns the empty string with an error and the cached
    token and expiry are exactly what they were. *)
Theorem GetAccessToken_transport_failure (env : Env) (d : DingTalkClient) (w : World) (e : error) :
  mutex w = false ->
  cache_valid env w = false ->
  transport_error (http_get env (List.length (gets w)) (token_url d)) = Some e ->
  exists w',
    run env (GetAccessToken d) w = Some ((""%string, Some e), w') /\
    accessToken w' = accessToken w /\ expireTime w' = expireTime w /\
    gets w' = gets w ++ [token_url d].
Proof.
  intros Hm Hv He. revert Hv He. unfold_token. cbn. rewrite Hm. cbn.
  destruct (accessToken w =? "")%string eqn:Htok; cbn.
  - intros _.
    destruct (http_get env (List.length (gets w)) _) as [err | resp]; cbn.
    + intros [= <-]. eexists. repeat split.
    + destruct (StatusCode resp =? StatusOK); cbn; [discriminate |].
      intros [= <-]. eexists. repeat split.
  - intros Hlt. rewrite Hlt. cbn.
    destruct (http_get env (List.length (gets w)) _) as [err | resp]; cbn.
    + intros [= <-]. eexists. repeat split.
    + destruct (StatusCode resp =? StatusOK); cbn; [discriminate |].
      intros [= <-]. eexists. repeat split.
Qed.

Lemma GetAccessToken_transport_failure_witness :
  exists w',
    run (env0 300 (1 # 2) (inr response_unavailable) atr_rejected
           (inl (ErrLib "unreachable")))
      (GetAccessToken client0) (world0 "stale" 200)
      = Some ((""%string, Some (ErrTokenStatus "503 Service Unavailable" 503)), w') /\
    accessToken w' = "stale"%string /\ expireTime w' = 200 /\
    gets w' = [token_url client0].
Proof.
  apply (GetAccessToken_transport_failure
           (env0 300 (1 # 2) (inr response_unavailable) atr_rejected
              (inl (ErrLib "unreachable")))
           client0 (world0 "stale" 200)); reflexivity.
Defined.

Lemma wrap64_in_range (z : Z) : in_int64 z -> wrap64 z = z.
Proof.
  unfold in_int64, wrap64, min_int64, max_int64. intros H.
  rewrite Z.mod_small; lia.
Qed.

Lemma fetch_decodes_env0 (now : Z) (r : float64) (body : string) (st : string)
  (atr : AccessTokenResp) (do : error + Response) (d : DingTalkClient) (w : World) :
  fetch_decodes (env0 now r (inr (mkResponse st 200 (inr body))) atr do) d w atr.
Proof. exists (mkResponse st 200 (inr body)), body. repeat split. Qed.

(** C2. On a cache miss, when the token endpoint answers with a body that
    decodes and whose [errcode] is not zero, [GetAccessToken] returns the
    error built from [errmsg] and [errcode], the cached token is the empty
    string and the cached expiry is reset to the current reading of the clock;
    the next call, in any environment, issues a GET to the token endpoint. *)
Theorem GetAccessToken_application_error (env : Env) (d : DingTalkClient) (w : World)
  (atr : AccessTokenResp) :
  mutex w = false ->
  cache_valid env w = false ->
  fetch_decodes env d w atr ->
  ErrCode (Common atr) <> 0 ->
  exists w',
    run env (GetAccessToken d) w
      = Some ((""%string,
               Some (ErrTokenRejected (ErrMsg (Common atr)) (ErrCode (Common atr)))),
              w') /\
    accessToken w' = ""%string /\
    expireTime w' = clock env (ticks (checked w)) /\
    forall env', exists r w'',
      run env' (GetAccessToken d) w' = Some (r, w'') /\
      gets w'' = gets w' ++ [token_url d].
Proof.
  intros Hm Hv (resp & payload & Hget & Hst & Hbody & Hdec) Hcode.
  apply Z.eqb_neq in Hcode.
  assert (Hrun : exists w',
    run env (GetAccessToken d) w
      = Some ((""%string,
               Some (ErrTokenRejected (ErrMsg (Common atr)) (ErrCode (Common atr)))),
              w') /\
    accessToken w' = ""%string /\
    expireTime w' = clock env (ticks (checked w)) /\ mutex w' = false).
  { revert Hv Hget. unfold_token. cbn. rewrite Hm. cbn.
    destruct (accessToken w =? "")%string eqn:Htok; cbn.
    - intros _ Hget. rewrite Hget. cbn. rewrite Hst, Hbody. cbn.
      rewrite Hdec. cbn. rewrite Hcode. cbn. eexists. repeat split.
    - intros Hlt Hget. rewrite Hlt. cbn. rewrite Hget. cbn. rewrite Hst, Hbody. cbn.
      rewrite Hdec. cbn. rewrite Hcode. cbn. eexists. repeat split. }
  destruct Hrun as (w' & Hrun & Htok & Hexp & Hm').
  exists w'. repeat split; try assumption.
  intros env'. destruct (GetAccessToken_returns env' d w' Hm') as (r & w'' & Hr & _ & Hg).
  exists r, w''. split; [exact Hr |]. apply Hg.
  unfold cache_valid. rewrite Htok. reflexivity.
Qed.

Lemma GetAccessToken_application_error_witness :
  exists w',
    run (env0 300 (1 # 2) (inr response_ok) atr_rejected (inl (ErrLib "unreachable")))
      (GetAccessToken client0) (world0 "stale" 200)
      = Some ((""%string,
               Some (ErrTokenRejected "invalid appkey or appsecret" 40089)), w') /\
    accessToken w' = ""%string /\
    expireTime w' = 300 /\
    forall env', exists r w'',
      run env' (GetAccessToken client0) w' = Some (r, w'') /\
      gets w'' = gets w' ++ [token_url client0].
Proof.
  apply (GetAccessToken_application_error
           (env0 300 (1 # 2) (inr response_ok) atr_rejected (inl (ErrLib "unreachable")))
           client0 (world0 "stale" 200) atr_rejected).
  - reflexivity.
  - reflexivity.
  - apply fetch_decodes_env0.
  - discriminate.
Defined.

(** C4, as the code has it.  On a cache miss, when the token endpoint answers
    with a body that decodes and whose [errcode] is zero, [GetAccessToken]
    returns the token with a nil error and caches it; the cached expiry is the
    current reading of the clock plus the [int64] product [expires_in * 1e9]
    nanoseconds, which is the clock plus [expires_in] seconds whenever that
    product fits in an [int64]. *)
Theorem GetAccessToken_success (env : Env) (d : DingTalkClient) (w : World)
  (atr : AccessTokenResp) :
  mutex w = false ->
  cache_valid env w = false ->
  fetch_decodes env d w atr ->
  ErrCode (Common atr) = 0 ->
  exists w',
    run env (GetAccessToken d) w = Some ((AccessToken atr, None), w') /\
    accessToken w' = AccessToken atr /\
    expireTime w'
      = clock env (ticks (checked w)) + wrap64 (ExpiresIn atr * Second) /\
    (in_int64 (ExpiresIn atr * Second) ->
     expireTime w' = clock env (ticks (checked w)) + ExpiresIn atr * Second).
Proof.
  intros Hm Hv (resp & payload & Hget & Hst & Hbody & Hdec) Hcode.
  assert (Hrun : exists w',
    run env (GetAccessToken d) w = Some ((AccessToken atr, None), w') /\
    accessToken w' = AccessToken atr /\
    expireTime w'
      = clock env (ticks (checked w)) + wrap64 (ExpiresIn atr * Second)).
  { revert Hv Hget. unfold_token. cbn. rewrite Hm. cbn.
    destruct (accessToken w =? "")%string eqn:Htok; cbn.
    - intros _ Hget. rewrite Hget. cbn. rewrite Hst, Hbody. cbn.
      rewrite Hdec. cbn. rewrite Hcode. cbn. eexists. repeat split.
    - intros Hlt Hget. rewrite Hlt. cbn. rewrite Hget. cbn. rewrite Hst, Hbody. cbn.
      rewrite Hdec. cbn. rewrite Hcode. cbn. eexists. repeat split. }
  destruct Hrun as (w' & Hrun & Htok & Hexp).
  exists w'. repeat split; try assumption.
  intros Hrange. rewrite Hexp, (wrap64_in_range _ Hrange). reflexivity.
Qed.

Lemma GetAccessToken_success_witness :
  exists w',
    run (env0 300 (1 # 2) (inr response_ok) (atr_ok 7200) (inl (ErrLib "unreachable")))
      (GetAccessToken client0) (world0 "stale" 200)
      = Some (("7122c6639d12378195cae4237d5fd61e"%string, None), w') /\
    accessToken w' = "7122c6639d12378195cae4237d5fd61e"%string /\
    expireTime w' = 300 + wrap64 (7200 * Second) /\
    (in_int64 (7200 * Second) -> expireTime w' = 300 + 7200 * Second).
Proof.
  apply (GetAccessToken_success
           (env0 300 (1 # 2) (inr response_ok) (atr_ok 7200) (inl (ErrLib "unreachable")))
           client0 (world0 "stale" 200) (atr_ok 7200)).
  - reflexivity.
  - reflexivity.
  - apply fetch_decodes_env0.
  - reflexivity.
Defined.

(** C4 as stated fails: with [expires_in = 9223372037] the product
    [expires_in * 1e9] overflows [int64]; the expiry stored is in the past,
    not the clock plus 9223372037 seconds. *)
Lemma GetAccessToken_success_overflow :
  exists w',
    run (env0 1700000000000000000 (1 # 2) (inr response_ok) (atr_ok 9223372037)
           (inl (ErrLib "unreachable")))
      (GetAccessToken client0) (world0 "" 0)
      = Some (("7122c6639d12378195cae4237d5fd61e"%string, None), w') /\
    expireTime w' = 1700000000000000000 - 9223372036709551616 /\
    expireTime w' <> 1700000000000000000 + 9223372037 * Second.
Proof.
  eexists. split; [reflexivity |]. split; [reflexivity |].
  vm_compute. discriminate.
Qed.

(** ** The retry loop *)

Lemma run_post (env : Env) (url : string) (req : SendMsgByRobotReq)
  (out : SendMsgByRobotResp) (hdr : list (string * list string)) (w : World) :
  run env (post url req out hdr) w
  = Some (post_outcome env (List.length (posts w)) (mkRequest url req hdr) out,
          add_post (mkRequest url req hdr) w).
Proof.
  unfold post, post_outcome, readResultSend. cbn.
  destruct (http_do env _ _) as [err | resp]; cbn; [reflexivity |].
  destruct (Body resp) as [err | payload]; cbn; [reflexivity |].
  destruct (json_unmarshal_send env payload out) as [out' [e |]]; reflexivity.
Qed.

Section Retry.

Variable rnd : Q -> Q.

Lemma run_Duration_base (env : Env) (bc : Backoff) (retries : Z) (w : World) :
  retries <= 0 ->
  run env (Duration rnd bc retries) w = Some (baseDelay bc, w).
Proof.
  intros H. unfold Duration. apply Z.leb_le in H. rewrite H. reflexivity.
Qed.

Lemma run_Duration_jittered (env : Env) (bc : Backoff) (retries : Z) (w : World) :
  0 < retries ->
  run env (Duration rnd bc retries) w
  = Some (jittered rnd bc (nominal rnd bc retries) (random env (draws w)), draw w).
Proof.
  intros H. unfold Duration. apply Z.leb_gt in H. rewrite H. reflexivity.
Qed.

(** [GetAccessToken] posts nothing, sleeps and logs nothing, draws nothing. *)
Lemma GetAccessToken_frame (env : Env) (d : DingTalkClient) (w w' : World)
  (r : string * option error) :
  run env (GetAccessToken d) w = Some (r, w') ->
  posts w' = posts w /\ sleeps w' = sleeps w /\ logs w' = logs w /\
  draws w' = draws w.
Proof.
  unfold_token. cbn.
  destruct (mutex w) eqn:Hm; cbn; [discriminate |].
  repeat (break_match; cbn).
  all: intros H; try discriminate H; injection H as <- <-; repeat split.
Qed.

Variables (env : Env) (backOff : Backoff) (reqObj : SendMsgByRobotReq)
  (header : list (string * list string)).

Let request : Request := mkRequest batchSendAPI reqObj header.

Lemma retryLoop_break (fuel : nat) (ret : SendMsgByRobotResp) (err : option error)
  (retries : Z) (w : World) :
  3 < retries ->
  run env (retryLoop rnd fuel backOff reqObj header ret err retries) w
  = Some ((ret, err, retries), w).
Proof.
  intros H. apply Z.gtb_lt in H. destruct fuel; cbn; rewrite H; reflexivity.
Qed.

Lemma retryLoop_success (fuel : nat) (ret ret' : SendMsgByRobotResp)
  (err : option error) (retries : Z) (w : World) :
  retries <= 3 ->
  post_outcome env (List.length (posts w)) request ret = (ret', None) ->
  run env (retryLoop rnd (S fuel) backOff reqObj header ret err retries) w
  = Some ((ret', None, retries), add_post request w).
Proof.
  intros H Hpost. cbn [retryLoop].
  replace (retries >? 3) with false by (symmetry; rewrite Z.gtb_ltb; apply Z.ltb_ge; lia).
  rewrite run_bind, run_post. fold request. rewrite Hpost. reflexivity.
Qed.

(** One failed attempt: the error is logged, the goroutine sleeps for
    [Duration (retries + 1)], and the loop goes on with [retries + 1]. *)
Lemma retryLoop_failure (fuel : nat) (ret ret' : SendMsgByRobotResp)
  (err : option error) (e : error) (retries : Z) (w : World) :
  0 <= retries <= 3 ->
  post_outcome env (List.length (posts w)) request ret = (ret', Some e) ->
  run env (retryLoop rnd (S fuel) backOff reqObj header ret err retries) w
  = run env (retryLoop rnd fuel backOff reqObj header ret' (Some e) (retries + 1))
      (add_sleep
         (jittered rnd backOff (nominal rnd backOff (retries + 1))
            (random env (draws w)))
         (draw (add_log e (add_post request w)))).
Proof.
  intros H Hpost. cbn [retryLoop].
  replace (retries >? 3) with false by (symmetry; rewrite Z.gtb_ltb; apply Z.ltb_ge; lia).
  rewrite run_bind, run_post. fold request. rewrite Hpost.
  cbn [bind trigger run handle].
  rewrite run_bind, run_Duration_jittered by lia.
  reflexivity.
Qed.

(** The loop returns (it never runs out of fuel), after between one and four
    POSTs of the same request when it starts from [retries = 0]. *)
Lemma retryLoop_returns (fuel : nat) :
  forall (ret : SendMsgByRobotResp) (err : option error) (retries : Z) (w : World),
    0 <= retries ->
    4 - retries <= Z.of_nat fuel ->
    exists r w' k,
      run env (retryLoop rnd fuel backOff reqObj header ret err retries) w
        = Some (r, w') /\
      posts w' = posts w ++ repeat request k /\
      Z.of_nat k <= Z.max 0 (4 - retries) /\
      (retries <= 3 -> (1 <= k)%nat).
Proof.
  induction fuel as [| fuel IH]; intros ret err retries w H0 Hfuel.
  - exists (ret, err, retries), w, O. rewrite retryLoop_break by lia.
    cbn. rewrite app_nil_r. repeat split; lia.
  - destruct (Z_lt_le_dec 3 retries) as [Hgt | Hle].
    + exists (ret, err, retries), w, O. rewrite retryLoop_break by lia.
      cbn. rewrite app_nil_r. repeat split; lia.
    + destruct (post_outcome env (List.length (posts w)) request ret)
        as [ret' [e |]] eqn:Hpost.
      * rewrite (retryLoop_failure fuel ret ret' err e retries w) by (assumption || lia).
        destruct (IH ret' (Some e) (retries + 1)
                    (add_sleep
                       (jittered rnd backOff (nominal rnd backOff (retries + 1))
                          (random env (draws w)))
                       (draw (add_log e (add_post request w)))))
          as (r & w' & k & Hrun & Hposts & Hk & _); try lia.
        exists r, w', (S k). split; [exact Hrun |].
        split; [| split; lia].
        rewrite Hposts. cbn. rewrite <- app_assoc. reflexivity.
      * exists (ret', None, retries), (add_post request w), 1%nat.
        rewrite (retryLoop_success fuel ret ret' err retries w) by assumption.
        repeat split; lia.
Qed.

End Retry.

(** ** SendMessageFromRobot *)

Section Send.

Variable rnd : Q -> Q.
Variables (env : Env) (d : DingTalkClient) (robotCode title content : string).

(** The recipients the request carries (lines 361 to 363). *)
Let recipients (to : list string) : list string :=
  if (20 <? List.length to)%nat then firstn 20 to else to.

(** The delay slept after the failed attempt number [i], when [n] draws were
    made before it. *)
Let delay (i : Z) (n : nat) : Z :=
  jittered rnd (NewBackoff rnd) (nominal rnd (NewBackoff rnd) i) (random env n).

Lemma SendMessageFromRobot_unfold (to : list string) (w w1 : World)
  (accToken msg : string) :
  run env (GetAccessToken d) w = Some ((accToken, None), w1) ->
  json_marshal_msg env (mkMsgContent title content) = inr msg ->
  to <> [] ->
  run env (SendMessageFromRobot rnd d robotCode title content to) w
  = match
      run env
        (retryLoop rnd 4 (NewBackoff rnd)
           (Payload (relay_request robotCode msg accToken (recipients to)))
           (Header (relay_request robotCode msg accToken (recipients to)))
           zeroSendMsgByRobotResp None 0) w1
    with
    | Some ((ret, Some err, retries), w') =>
        Some ((None, Some (ErrBatchSend retries err)), w')
    | Some ((ret, None, retries), w') => Some ((Some ret, None), w')
    | None => None
    end.
Proof.
  intros Htok Hmsg Hto. unfold SendMessageFromRobot.
  rewrite run_bind, Htok. cbn [bind trigger run handle]. rewrite Hmsg.
  destruct to as [| x to]; [congruence |]. cbn [List.length Nat.eqb].
  rewrite run_bind. unfold recipients, relay_request. cbn [Payload Header].
  destruct (run env _ w1) as [[[[ret [e |]] retries] w'] |]; reflexivity.
Qed.

(** C10. With no recipient, once the token is acquired and the message is
    marshalled, [SendMessageFromRobot] returns a nil response and a nil error;
    it posts nothing, sleeps and logs nothing: the world is the one
    [GetAccessToken] left. *)
Theorem SendMessageFromRobot_no_recipient (w w1 : World) (accToken msg : string) :
  run env (GetAccessToken d) w = Some ((accToken, None), w1) ->
  json_marshal_msg env (mkMsgContent title content) = inr msg ->
  run env (SendMessageFromRobot rnd d robotCode title content []) w
    = Some ((None, None), w1) /\
  posts w1 = posts w /\ sleeps w1 = sleeps w /\ logs w1 = logs w /\
  draws w1 = draws w.
Proof.
  intros Htok Hmsg. split.
  - unfold SendMessageFromRobot.
    rewrite run_bind, Htok. cbn [bind trigger run handle]. rewrite Hmsg.
    reflexivity.
  - exact (GetAccessToken_frame env d w w1 _ Htok).
Qed.

(** C8. With 25 recipients, once the token is acquired and the message is
    marshalled, [SendMessageFromRobot] returns after between one and four
    POSTs, and each of them carries exactly the first 20 recipients, in
    order. *)
Theorem SendMessageFromRobot_truncates (to : list string) (w w1 : World)
  (accToken msg : string) :
  run env (GetAccessToken d) w = Some ((accToken, None), w1) ->
  json_marshal_msg env (mkMsgContent title content) = inr msg ->
  List.length to = 25%nat ->
  exists r w' k,
    run env (SendMessageFromRobot rnd d robotCode title content to) w
      = Some (r, w') /\
    (1 <= k <= 4)%nat /\
    posts w'
      = posts w ++ repeat (relay_request robotCode msg accToken (firstn 20 to)) k /\
    UserIDs (Payload (relay_request robotCode msg accToken (firstn 20 to)))
      = firstn 20 to /\
    List.length (firstn 20 to) = 20%nat.
Proof.
  intros Htok Hmsg Hlen.
  assert (Hto : to <> []) by (intros ->; discriminate).
  rewrite (SendMessageFromRobot_unfold to w w1 accToken msg Htok Hmsg Hto).
  assert (Hrec : recipients to = firstn 20 to).
  { unfold recipients. rewrite Hlen. reflexivity. }
  rewrite Hrec.
  destruct (retryLoop_returns rnd env (NewBackoff rnd)
              (Payload (relay_request robotCode msg accToken (firstn 20 to)))
              (Header (relay_request robotCode msg accToken (firstn 20 to)))
              4 zeroSendMsgByRobotResp None 0 w1)
    as (r & w' & k & Hrun & Hposts & Hk & Hk1); try (cbn; lia).
  rewrite Hrun.
  destruct (GetAccessToken_frame env d w w1 _ Htok) as (Hp & _).
  assert (Hk' : (1 <= k <= 4)%nat) by (split; [apply Hk1 |]; lia).
  rewrite Hp in Hposts.
  destruct r as [[ret [e |]] retries]; eexists; exists w', k;
    (split; [reflexivity |]); (split; [exact Hk' |]);
    (split; [exact Hposts |]); (split; [reflexivity |]);
    rewrite length_firstn, Hlen; reflexivity.
Qed.

(** C7, as the code has it.  When every POST to the relay fails, the loop
    makes exactly four POSTs; after each of the four failures, the last one
    too, it logs the error and sleeps for [Duration (retries + 1)], so it
    sleeps four times, for [Duration 1] to [Duration 4]; the error returned
    reports [Retries: 4]. *)
Theorem SendMessageFromRobot_all_fail (to : list string) (w w1 : World)
  (accToken msg : string) :
  run env (GetAccessToken d) w = Some ((accToken, None), w1) ->
  json_marshal_msg env (mkMsgContent title content) = inr msg ->
  to <> [] ->
  (forall n out,
      snd (post_outcome env n
             (relay_request robotCode msg accToken (recipients to)) out) <> None) ->
  exists e w',
    run env (SendMessageFromRobot rnd d robotCode title content to) w
      = Some ((None, Some (ErrBatchSend 4 e)), w') /\
    posts w'
      = posts w ++ repeat (relay_request robotCode msg accToken (recipients to)) 4 /\
    sleeps w'
      = sleeps w ++ [delay 1 (draws w); delay 2 (1 + draws w);
                     delay 3 (2 + draws w); delay 4 (3 + draws w)] /\
    List.length (logs w') = (List.length (logs w) + 4)%nat.
Proof.
  intros Htok Hmsg Hto Hfail.
  rewrite (SendMessageFromRobot_unfold to w w1 accToken msg Htok Hmsg Hto).
  destruct (GetAccessToken_frame env d w w1 _ Htok) as (Hp & Hs & Hl & Hd).
  set (R := relay_request robotCode msg accToken (recipients to)) in *.
  assert (Hstep : forall n out, exists out' e,
             post_outcome env n R out = (out', Some e)).
  { intros n out. specialize (Hfail n out).
    destruct (post_outcome env n R out) as [out' [e |]]; [eauto | easy]. }
  destruct (Hstep (List.length (posts w1)) zeroSendMsgByRobotResp) as (o1 & e1 & H1).
  rewrite (retryLoop_failure rnd env (NewBackoff rnd) (Payload R) (Header R)
             3 zeroSendMsgByRobotResp o1 None e1 0 w1) by (exact H1 || lia).
  match goal with |- context [run env _ ?w] => set (w2 := w) end.
  destruct (Hstep (List.length (posts w2)) o1) as (o2 & e2 & H2).
  rewrite (retryLoop_failure rnd env (NewBackoff rnd) (Payload R) (Header R)
             2 o1 o2 (Some e1) e2 (0 + 1) w2) by (exact H2 || lia).
  match goal with |- context [run env _ ?w] => set (w3 := w) end.
  destruct (Hstep (List.length (posts w3)) o2) as (o3 & e3 & H3).
  rewrite (retryLoop_failure rnd env (NewBackoff rnd) (Payload R) (Header R)
             1 o2 o3 (Some e2) e3 (0 + 1 + 1) w3) by (exact H3 || lia).
  match goal with |- context [run env _ ?w] => set (w4 := w) end.
  destruct (Hstep (List.length (posts w4)) o3) as (o4 & e4 & H4).
  rewrite (retryLoop_failure rnd env (NewBackoff rnd) (Payload R) (Header R)
             0 o3 o4 (Some e3) e4 (0 + 1 + 1 + 1) w4) by (exact H4 || lia).
  rewrite retryLoop_break by lia.
  exists e4. eexists. split; [reflexivity |].
  subst w4 w3 w2. unfold delay. cbn.
  rewrite Hp, Hs, Hl, Hd, <- !app_assoc, !length_app. cbn.
  repeat split.
Qed.

End Send.

Lemma SendMessageFromRobot_no_recipient_witness :
  run env_relay_down
    (SendMessageFromRobot rnd64 client0 "robot" "title" "text" [])
    (world0 "" 0)
  = Some ((None, None), world_fetched) /\
  posts world_fetched = posts (world0 "" 0) /\
  sleeps world_fetched = sleeps (world0 "" 0) /\
  logs world_fetched = logs (world0 "" 0) /\
  draws world_fetched = draws (world0 "" 0).
Proof.
  apply (SendMessageFromRobot_no_recipient rnd64 env_relay_down client0
           "robot" "title" "text" (world0 "" 0) world_fetched
           "7122c6639d12378195cae4237d5fd61e" "{title,text}");
    reflexivity.
Defined.

Lemma SendMessageFromRobot_truncates_witness :
  exists r w' k,
    run env_relay_up
      (SendMessageFromRobot rnd64 client0 "robot" "title" "text" recipients25)
      (world0 "" 0) = Some (r, w') /\
    (1 <= k <= 4)%nat /\
    posts w'
      = [] ++ repeat (relay_request "robot" "{title,text}"
                        "7122c6639d12378195cae4237d5fd61e"
                        (firstn 20 recipients25)) k /\
    UserIDs (Payload (relay_request "robot" "{title,text}"
                        "7122c6639d12378195cae4237d5fd61e"
                        (firstn 20 recipients25)))
      = firstn 20 recipients25 /\
    List.length (firstn 20 recipients25) = 20%nat.
Proof.
  apply (SendMessageFromRobot_truncates rnd64 env_relay_up client0
           "robot" "title" "text" recipients25 (world0 "" 0) world_fetched);
    reflexivity.
Defined.

Lemma SendMessageFromRobot_all_fail_witness :
  exists e w',
    run env_relay_down
      (SendMessageFromRobot rnd64 client0 "robot" "title" "text" ["A"; "B"]%string)
      (world0 "" 0)
      = Some ((None, Some (ErrBatchSend 4 e)), w') /\
    posts w'
      = repeat (relay_request "robot" "{title,text}"
                  "7122c6639d12378195cae4237d5fd61e" ["A"; "B"]%string) 4 /\
    sleeps w' = [1600000000; 2560000000; 4096000000; 6553600000] /\
    List.length (logs w') = 4%nat.
Proof.
  destruct (SendMessageFromRobot_all_fail rnd64 env_relay_down client0
              "robot" "title" "text" ["A"; "B"]%string (world0 "" 0)
              world_fetched "7122c6639d12378195cae4237d5fd61e" "{title,text}")
    as (e & w' & Hrun & Hposts & Hsleeps & Hlogs).
  - reflexivity.
  - reflexivity.
  - discriminate.
  - intros n out. cbn. discriminate.
  - exists e, w'. repeat split; assumption.
Defined.

(** * The backoff policy *)

(** ** Rounding to the nearest integer *)

Lemma round_half_even_floor (x : Q) :
  Qfloor x <= round_half_even x <= Qfloor x + 1.
Proof.
  unfold round_half_even.
  destruct (Qcompare _ _); [destruct (Z.even _) | |]; lia.
Qed.

Lemma round_half_even_mono (x y : Q) :
  (x <= y)%Q -> round_half_even x <= round_half_even y.
Proof.
  intros Hxy. pose proof (Qfloor_resp_le x y Hxy) as Hf.
  pose proof (round_half_even_floor x) as Hx.
  pose proof (round_half_even_floor y) as Hy.
  destruct (Z.eq_dec (Qfloor x) (Qfloor y)) as [Heq | Hne]; [| lia].
  unfold round_half_even in *. rewrite <- Heq in *.
  destruct (Qcompare (x - inject_Z (Qfloor x)) (1 # 2)) eqn:Hcx;
    destruct (Qcompare (y - inject_Z (Qfloor x)) (1 # 2)) eqn:Hcy;
    try (destruct (Z.even (Qfloor x))); try lia.
  all: repeat match goal with
         | H : Qcompare _ _ = Eq |- _ => apply <- Qeq_alt in H
         | H : Qcompare _ _ = Lt |- _ => apply <- Qlt_alt in H
         | H : Qcompare _ _ = Gt |- _ => apply <- Qgt_alt in H
         end.
  all: exfalso; lra.
Qed.

Lemma round_half_even_Z (z : Z) : round_half_even (inject_Z z) = z.
Proof.
  unfold round_half_even. rewrite Qfloor_Z.
  destruct (Qcompare (inject_Z z - inject_Z z) (1 # 2)) eqn:Hc.
  - apply <- Qeq_alt in Hc. exfalso. lra.
  - reflexivity.
  - apply <- Qgt_alt in Hc. exfalso. lra.
Qed.

Lemma round_half_even_proper (x y : Q) :
  (x == y)%Q -> round_half_even x = round_half_even y.
Proof.
  intros H. apply Z.le_antisymm; apply round_half_even_mono; rewrite H; apply Qle_refl.
Qed.

(** ** Powers of two *)

Lemma pow2_pos (e : Z) : (0 < 2 ^ e)%Q.
Proof. apply Qpower_0_lt. reflexivity. Qed.

Lemma pow2_succ (e : Z) : (2 ^ (e + 1) == 2 * 2 ^ e)%Q.
Proof. rewrite Qpower_plus by discriminate. change (2 ^ 1)%Q with 2%Q. ring. Qed.

Lemma pow2_le (n m : Z) : n <= m -> (2 ^ n <= 2 ^ m)%Q.
Proof. intros H. apply Qpower_le_compat_l; [exact H | discriminate]. Qed.

Lemma pow2_Z (n : Z) : 0 <= n -> (inject_Z (2 ^ n) == 2 ^ n)%Q.
Proof. intros H. rewrite Zpower_Qpower by exact H. reflexivity. Qed.

(** ** The exponent of a positive rational *)

Lemma log2_bounds (n : Z) :
  0 < n -> (2 ^ Z.log2 n <= inject_Z n < 2 ^ (Z.log2 n + 1))%Q.
Proof.
  intros Hn. pose proof (Z.log2_spec n Hn) as [H1 H2].
  pose proof (Z.log2_nonneg n) as H0.
  rewrite <- !pow2_Z by lia. rewrite <- Zle_Qle, <- Zlt_Qlt. 
  replace (Z.log2 n + 1) with (Z.succ (Z.log2 n)) by lia. split; assumption.
Qed.

Lemma Qilog2_spec (x : Q) :
  (0 < x)%Q -> (2 ^ Qilog2 x <= x < 2 ^ (Qilog2 x + 1))%Q.
Proof.
  intros Hx. destruct x as [n d]. unfold Qilog2. cbn [Qnum Qden].
  assert (Hn : 0 < n).
  { unfold Qlt in Hx. cbn in Hx. lia. }
  pose proof (log2_bounds n Hn) as [Hn1 Hn2].
  pose proof (log2_bounds (Zpos d) (Pos2Z.is_pos d)) as [Hd1 Hd2].
  set (a := Z.log2 n) in *. set (b := Z.log2 (Zpos d)) in *.
  assert (Hxd : ((n # d) * inject_Z (Zpos d) == inject_Z n)%Q).
  { rewrite (Qmake_Qdiv n d). field. discriminate. }
  assert (Hdpos : (0 < inject_Z (Zpos d))%Q) by reflexivity.
  pose proof (pow2_pos (a - b)) as Hp0.
  pose proof (pow2_pos (a - b - 1)) as Hp1.
  pose proof (pow2_pos b) as Hpb.
  assert (Ha : (2 ^ a == 2 ^ (a - b) * 2 ^ b)%Q).
  { rewrite <- Qpower_plus by discriminate. replace (a - b + b) with a by lia. reflexivity. }
  assert (Hs : (2 ^ (a - b) == 2 * 2 ^ (a - b - 1))%Q).
  { rewrite <- pow2_succ. replace (a - b - 1 + 1) with (a - b) by lia. reflexivity. }
  rewrite pow2_succ in Hn2, Hd2.
  destruct (Qle_bool (2 ^ (a - b)) (n # d)) eqn:Hle.
  - apply Qle_bool_iff in Hle. split; [exact Hle |].
    rewrite pow2_succ. 
    apply Qnot_le_lt. intros Hc.
    assert ((2 * 2 ^ (a - b)) * inject_Z (Zpos d) <= (n # d) * inject_Z (Zpos d))%Q by nra.
    nra.
  - assert (Hlt : (n # d < 2 ^ (a - b))%Q).
    { apply Qnot_le_lt. intros Hc. apply Qle_bool_iff in Hc. congruence. }
    replace (a - b - 1 + 1) with (a - b) by lia. split; [| exact Hlt].
    apply Qnot_lt_le. intros Hc.
    assert ((n # d) * inject_Z (Zpos d) < 2 ^ (a - b - 1) * inject_Z (Zpos d))%Q by nra.
    nra.
Qed.

Lemma Qilog2_unique (x : Q) (e : Z) :
  (2 ^ e <= x < 2 ^ (e + 1))%Q -> Qilog2 x = e.
Proof.
  intros [H1 H2].
  assert (Hx : (0 < x)%Q) by (pose proof (pow2_pos e); lra).
  pose proof (Qilog2_spec x Hx) as [H3 H4].
  assert (Ha : (2 ^ e < 2 ^ (Qilog2 x + 1))%Q) by lra.
  assert (Hb : (2 ^ Qilog2 x < 2 ^ (e + 1))%Q) by lra.
  apply Qpower_lt_compat_l_inv in Ha; [| reflexivity].
  apply Qpower_lt_compat_l_inv in Hb; [| reflexivity].
  lia.
Qed.

Lemma Qilog2_mono (x y : Q) : (0 < x)%Q -> (x <= y)%Q -> Qilog2 x <= Qilog2 y.
Proof.
  intros Hx Hxy. assert (Hy : (0 < y)%Q) by lra.
  pose proof (Qilog2_spec x Hx) as [H1 H2].
  pose proof (Qilog2_spec y Hy) as [H3 H4].
  assert (Ha : (2 ^ Qilog2 x < 2 ^ (Qilog2 y + 1))%Q) by lra.
  apply Qpower_lt_compat_l_inv in Ha; [| reflexivity]. lia.
Qed.

(** ** Rounding a positive rational to 53 bits *)

Lemma round53_scaled (x : Q) :
  (0 < x)%Q ->
  (inject_Z (2 ^ 52) <= x / 2 ^ (Qilog2 x - 52) <= inject_Z (2 ^ 53))%Q.
Proof.
  intros Hx. pose proof (Qilog2_spec x Hx) as [H1 H2].
  set (e := Qilog2 x) in *.
  pose proof (pow2_pos (e - 52)) as Hu.
  assert (He : (2 ^ e == inject_Z (2 ^ 52) * 2 ^ (e - 52))%Q).
  { rewrite pow2_Z by lia. rewrite <- Qpower_plus by discriminate.
    replace (52 + (e - 52)) with e by lia. reflexivity. }
  assert (He1 : (2 ^ (e + 1) == inject_Z (2 ^ 53) * 2 ^ (e - 52))%Q).
  { rewrite pow2_Z by lia. rewrite <- Qpower_plus by discriminate.
    replace (53 + (e - 52)) with (e + 1) by lia. reflexivity. }
  assert (Hy : (x == x / 2 ^ (e - 52) * 2 ^ (e - 52))%Q).
  { field. intros Hc. rewrite Hc in Hu. discriminate. }
  set (y := (x / 2 ^ (e - 52))%Q) in *.
  set (u := (2 ^ (e - 52))%Q) in *.
  set (a := inject_Z (2 ^ 52)) in *. set (b := inject_Z (2 ^ 53)) in *.
  split; apply Qnot_lt_le; intros Hc; nra.
Qed.

Lemma round53_bounds (x : Q) :
  (0 < x)%Q -> (2 ^ Qilog2 x <= round53 x <= 2 ^ (Qilog2 x + 1))%Q.
Proof.
  intros Hx. pose proof (round53_scaled x Hx) as [H1 H2]. unfold round53.
  set (e := Qilog2 x) in *.
  pose proof (pow2_pos (e - 52)) as Hu.
  apply round_half_even_mono in H1, H2. rewrite round_half_even_Z in H1, H2.
  rewrite Zle_Qle in H1, H2.
  assert (He : (2 ^ e == inject_Z (2 ^ 52) * 2 ^ (e - 52))%Q).
  { rewrite pow2_Z by lia. rewrite <- Qpower_plus by discriminate.
    replace (52 + (e - 52)) with e by lia. reflexivity. }
  assert (He1 : (2 ^ (e + 1) == inject_Z (2 ^ 53) * 2 ^ (e - 52))%Q).
  { rewrite pow2_Z by lia. rewrite <- Qpower_plus by discriminate.
    replace (53 + (e - 52)) with (e + 1) by lia. reflexivity. }
  rewrite He, He1.
  set (r := inject_Z (round_half_even (x / 2 ^ (e - 52)))) in *.
  set (u := (2 ^ (e - 52))%Q) in *.
  set (a := inject_Z (2 ^ 52)) in *. set (b := inject_Z (2 ^ 53)) in *.
  split; nra.
Qed.

Lemma round53_pos (x : Q) : (0 < x)%Q -> (0 < round53 x)%Q.
Proof.
  intros Hx. pose proof (round53_bounds x Hx) as [H _].
  pose proof (pow2_pos (Qilog2 x)). lra.
Qed.

Lemma round53_mono (x y : Q) :
  (0 < x)%Q -> (x <= y)%Q -> (round53 x <= round53 y)%Q.
Proof.
  intros Hx Hxy. assert (Hy : (0 < y)%Q) by lra.
  pose proof (Qilog2_mono x y Hx Hxy) as He.
  destruct (Z.eq_dec (Qilog2 x) (Qilog2 y)) as [Heq | Hne].
  - unfold round53. rewrite <- Heq.
    pose proof (pow2_pos (Qilog2 x - 52)) as Hu.
    assert (Hs : (x / 2 ^ (Qilog2 x - 52) <= y / 2 ^ (Qilog2 x - 52))%Q).
    { apply Qmult_le_compat_r; [exact Hxy |]. apply Qlt_le_weak, Qinv_lt_0_compat, Hu. }
    apply round_half_even_mono in Hs. rewrite Zle_Qle in Hs.
    apply Qmult_le_compat_r; [exact Hs | apply Qlt_le_weak, Hu].
  - pose proof (round53_bounds x Hx) as [_ H1].
    pose proof (round53_bounds y Hy) as [H2 _].
    assert (H3 : (2 ^ (Qilog2 x + 1) <= 2 ^ Qilog2 y)%Q) by (apply pow2_le; lia).
    lra.
Qed.

Lemma round53_Z (z : Z) :
  0 < z <= 2 ^ 53 -> (round53 (inject_Z z) == inject_Z z)%Q.
Proof.
  intros [Hz0 Hz1].
  assert (Hx : (0 < inject_Z z)%Q).
  { change 0%Q with (inject_Z 0). rewrite <- Zlt_Qlt. exact Hz0. }
  pose proof (Qilog2_spec _ Hx) as [H1 H2].
  assert (He : Qilog2 (inject_Z z) <= 53).
  { apply (Qpower_le_compat_l_inv 2); [| reflexivity].
    rewrite <- (pow2_Z 53) by lia. rewrite Zle_Qle in Hz1. lra. }
  destruct (Z.eq_dec (Qilog2 (inject_Z z)) 53) as [H53 | Hlt].
  - assert (Hz : z = 2 ^ 53).
    { rewrite H53, <- (pow2_Z 53) in H1 by lia. rewrite <- Zle_Qle in H1. lia. }
    subst z. vm_compute. reflexivity.
  - unfold round53. set (e := Qilog2 (inject_Z z)) in *.
    assert (Hk : 0 <= 52 - e) by lia.
    assert (Hu : (2 ^ (e - 52) == / inject_Z (2 ^ (52 - e)))%Q).
    { rewrite pow2_Z by lia. rewrite <- Qpower_opp.
      replace (- (52 - e)) with (e - 52) by lia. reflexivity. }
    assert (Hp : (0 < inject_Z (2 ^ (52 - e)))%Q).
    { rewrite pow2_Z by lia. apply pow2_pos. }
    assert (Hy : (inject_Z z / 2 ^ (e - 52) == inject_Z (z * 2 ^ (52 - e)))%Q).
    { rewrite Hu, inject_Z_mult. field. intros Hc. rewrite Hc in Hp. discriminate. }
    rewrite (round_half_even_proper _ _ Hy), round_half_even_Z.
    rewrite Hu, inject_Z_mult. field. intros Hc. rewrite Hc in Hp. discriminate.
Qed.

(** ** [rnd64] is a rounding *)

Lemma rnd64_cases (x : Q) :
  (x == 0 /\ rnd64 x == 0)%Q \/
  ((0 < x)%Q /\ (rnd64 x == round53 x)%Q) \/
  ((x < 0)%Q /\ (rnd64 x == - round53 (- x))%Q).
Proof.
  unfold rnd64. rewrite Qred_correct. destruct x as [[| p | p] d]; cbn [Qnum].
  - left. split; reflexivity.
  - right. left. split; reflexivity.
  - right. right. split; reflexivity.
Qed.

Lemma rnd64_mono (x y : Q) : (x <= y)%Q -> (rnd64 x <= rnd64 y)%Q.
Proof.
  intros Hxy.
  destruct (rnd64_cases x) as [[Hx ->] | [[Hx ->] | [Hx ->]]];
    destruct (rnd64_cases y) as [[Hy ->] | [[Hy ->] | [Hy ->]]];
    try (exfalso; lra).
  - apply Qle_refl.
  - apply Qlt_le_weak, round53_pos, Hy.
  - apply round53_mono; assumption.
  - assert (H : (0 < round53 (- x))%Q) by (apply round53_pos; lra). lra.
  - assert (H : (0 < round53 (- x))%Q) by (apply round53_pos; lra).
    pose proof (round53_pos y Hy). lra.
  - assert (H : (round53 (- y) <= round53 (- x))%Q) by (apply round53_mono; lra).
    lra.
Qed.

Lemma rnd64_Z (z : Z) :
  Z.abs z <= 2 ^ 53 -> (rnd64 (inject_Z z) == inject_Z z)%Q.
Proof.
  intros Hz. unfold rnd64. rewrite Qred_correct.
  destruct z as [| p | p]; cbn [inject_Z Qnum].
  - reflexivity.
  - apply (round53_Z (Zpos p)). lia.
  - change (- (Zneg p # 1))%Q with (inject_Z (Zpos p)).
    rewrite (round53_Z (Zpos p)) by lia. reflexivity.
Qed.

Theorem rnd64_Rounding : Rounding rnd64.
Proof. split; [exact rnd64_mono | exact rnd64_Z]. Qed.

(** The constants of [backoff.go] as float64: [1.6] is [0x1.999999999999ap+0]
    and [0.2] is [0x1.999999999999ap-3]. *)
Example defaultFactor_float64 :
  defaultFactor rnd64 = 7205759403792794 / 2 # 2 ^ 51.
Proof. vm_compute. reflexivity. Qed.

Example defaultJitter_float64 :
  defaultJitter rnd64 = 7205759403792794 / 2 # 2 ^ 54.
Proof. vm_compute. reflexivity. Qed.

(** A tie goes to the even significand: [2^53 + 1] rounds down to [2^53] and
    [2^53 + 3] rounds up to [2^53 + 4]. *)
Example rnd64_ties :
  rnd64 (inject_Z (2 ^ 53 + 1)) = inject_Z (2 ^ 53) /\
  rnd64 (inject_Z (2 ^ 53 + 3)) = inject_Z (2 ^ 53 + 4).
Proof. split; vm_compute; reflexivity. Qed.

(** ** Bounds on the delay *)

Section BackoffBounds.

Variable rnd : Q -> Q.
Hypothesis R : Rounding rnd.

Lemma rnd_proper (x y : Q) : (x == y)%Q -> (rnd x == rnd y)%Q.
Proof.
  intros H. apply Qle_antisym; apply (rnd_mono rnd R); rewrite H; apply Qle_refl.
Qed.

Lemma rnd_small (z : Z) (x : Q) :
  Z.abs z <= 2 ^ 53 -> (x == inject_Z z)%Q -> (rnd x == inject_Z z)%Q.
Proof.
  intros Hz Hx. rewrite (rnd_proper _ _ Hx). apply (rnd_int rnd R), Hz.
Qed.

Lemma rnd_le_int (z : Z) (x : Q) :
  Z.abs z <= 2 ^ 53 -> (x <= inject_Z z)%Q -> (rnd x <= inject_Z z)%Q.
Proof.
  intros Hz Hx. rewrite <- (rnd_int rnd R z Hz). apply (rnd_mono rnd R), Hx.
Qed.

Lemma rnd_ge_int (z : Z) (x : Q) :
  Z.abs z <= 2 ^ 53 -> (inject_Z z <= x)%Q -> (inject_Z z <= rnd x)%Q.
Proof.
  intros Hz Hx. rewrite <- (rnd_int rnd R z Hz). apply (rnd_mono rnd R), Hx.
Qed.

Lemma Qltb_true (x y : Q) : Qltb x y = true <-> (x < y)%Q.
Proof.
  unfold Qltb. rewrite negb_true_iff. split.
  - intros H. apply Qnot_le_lt. intros Hle. apply Qle_bool_iff in Hle. congruence.
  - intros H. apply not_true_is_false. intros Hle. apply Qle_bool_iff in Hle.
    apply (Qlt_not_le _ _ H Hle).
Qed.

Lemma Qltb_false (x y : Q) : Qltb x y = false <-> (y <= x)%Q.
Proof.
  unfold Qltb. rewrite negb_false_iff. apply Qle_bool_iff.
Qed.

(** The draw [u = r*2 - 1]. *)
Lemma draw_bounds (r : Q) :
  (0 <= r <= 1)%Q -> (-1 <= fsub rnd (fmul rnd r 2) 1 <= 1)%Q.
Proof.
  intros [H0 H1]. unfold fsub, fmul.
  assert (Ha : (0 <= rnd (r * 2))%Q).
  { apply (rnd_ge_int 0); [cbn; lia | unfold inject_Z; lra]. }
  assert (Hb : (rnd (r * 2) <= 2)%Q).
  { apply (rnd_le_int 2); [cbn; lia | unfold inject_Z; lra]. }
  split.
  - apply (rnd_ge_int (-1)); [cbn; lia | unfold inject_Z; lra].
  - apply (rnd_le_int 1); [cbn; lia | unfold inject_Z; lra].
Qed.

Lemma draw_nonpos (r : Q) :
  (0 <= r <= 1 # 2)%Q -> (fsub rnd (fmul rnd r 2) 1 <= 0)%Q.
Proof.
  intros [H0 H1]. unfold fsub, fmul.
  assert (Hb : (rnd (r * 2) <= 1)%Q).
  { apply (rnd_le_int 1); [cbn; lia | unfold inject_Z; lra]. }
  apply (rnd_le_int 0); [cbn; lia | unfold inject_Z; lra].
Qed.

Variable bc : Backoff.
Hypothesis WF : WellFormed rnd bc.

(** The factor [m = 1 + jitter * u] the delay is multiplied by. *)
Lemma multiplier_bounds (u : Q) :
  (-1 <= u <= 1)%Q ->
  (0 <= fadd rnd 1 (fmul rnd (jitter bc) u) <= fadd rnd 1 (jitter bc))%Q.
Proof.
  intros [Hu0 Hu1]. destruct WF as [_ _ [Hj0 Hj1] Hjf]. unfold fadd, fmul.
  assert (Ha : (-1 <= rnd (jitter bc * u))%Q).
  { apply (rnd_ge_int (-1)); [cbn; lia | unfold inject_Z; nra]. }
  assert (Hb : (rnd (jitter bc * u) <= jitter bc)%Q).
  { rewrite <- Hjf at 2. apply (rnd_mono rnd R). nra. }
  split.
  - apply (rnd_ge_int 0); [cbn; lia | unfold inject_Z; lra].
  - apply (rnd_mono rnd R). lra.
Qed.

Lemma multiplier_le_1 (u : Q) :
  (-1 <= u <= 0)%Q -> (fadd rnd 1 (fmul rnd (jitter bc) u) <= 1)%Q.
Proof.
  intros [Hu0 Hu1]. destruct WF as [_ _ [Hj0 Hj1] Hjf]. unfold fadd, fmul.
  assert (Hb : (rnd (jitter bc * u) <= 0)%Q).
  { apply (rnd_le_int 0); [cbn; lia | unfold inject_Z; nra]. }
  apply (rnd_le_int 1); [cbn; lia | unfold inject_Z; lra].
Qed.

Lemma one_plus_jitter : (1 <= fadd rnd 1 (jitter bc) <= 2)%Q.
Proof.
  destruct WF as [_ _ [Hj0 Hj1] _]. unfold fadd. split.
  - apply (rnd_ge_int 1); [cbn; lia | unfold inject_Z; lra].
  - apply (rnd_le_int 2); [cbn; lia | unfold inject_Z; lra].
Qed.

Lemma float_MaxDelay : (float64_of_int rnd (MaxDelay bc) == inject_Z (MaxDelay bc))%Q.
Proof.
  destruct WF as [Hb Hm _ _]. apply (rnd_int rnd R). 
  assert (2 ^ 52 <= 2 ^ 53) by (cbn; lia). lia.
Qed.

Lemma float_baseDelay : (float64_of_int rnd (baseDelay bc) == inject_Z (baseDelay bc))%Q.
Proof.
  destruct WF as [Hb Hm _ _]. apply (rnd_int rnd R). 
  assert (2 ^ 52 <= 2 ^ 53) by (cbn; lia). lia.
Qed.

(** After the clamp of lines 54 to 56 the delay is at most the maximum. *)
Lemma nominal_le_max (retries : Z) :
  (nominal rnd bc retries <= inject_Z (MaxDelay bc))%Q.
Proof.
  unfold nominal. rewrite <- float_MaxDelay.
  destruct (Qltb _ _) eqn:H.
  - apply Qle_refl.
  - apply Qltb_false in H. exact H.
Qed.

Lemma bound_props :
  (0 <= fmul rnd (float64_of_int rnd (MaxDelay bc)) (fadd rnd 1 (jitter bc))
     <= inject_Z (2 * MaxDelay bc))%Q.
Proof.
  pose proof one_plus_jitter as [HM1 HM2]. pose proof float_MaxDelay as Hmax.
  destruct WF as [Hb Hm _ _].
  assert (H0 : (0 <= inject_Z (MaxDelay bc))%Q).
  { change 0%Q with (inject_Z 0). rewrite <- Zle_Qle. lia. }
  assert (H52 : 2 ^ 52 = 4503599627370496) by reflexivity.
  assert (H53 : 2 ^ 53 = 9007199254740992) by reflexivity.
  unfold fmul. split.
  - apply (rnd_ge_int 0); [cbn; lia |]. unfold inject_Z at 1.
    rewrite Hmax. nra.
  - apply rnd_le_int; [lia |]. rewrite Hmax, inject_Z_mult.
    change (inject_Z 2) with 2%Q. nra.
Qed.

Lemma product_le (b m M : Q) :
  (b <= inject_Z (MaxDelay bc))%Q -> (0 <= m <= M)%Q ->
  (b * m <= inject_Z (MaxDelay bc) * M)%Q.
Proof.
  intros Hb [Hm0 HmM]. destruct WF as [Hbase _ _ _].
  assert (H0 : (0 <= inject_Z (MaxDelay bc))%Q).
  { change 0%Q with (inject_Z 0). rewrite <- Zle_Qle. lia. }
  destruct (Qlt_le_dec b 0) as [Hneg | Hpos]; nra.
Qed.

Lemma int64_of_float_floor (x : Q) (n : Z) :
  (0 <= x <= inject_Z n)%Q -> n <= max_int64 ->
  int64_of_float x = Qfloor x /\ 0 <= Qfloor x /\ (inject_Z (Qfloor x) <= x)%Q.
Proof.
  intros [H0 Hn] Hmax. unfold int64_of_float, Qtrunc.
  assert (Hle : Qle_bool 0 x = true) by (apply Qle_bool_iff, H0).
  rewrite Hle.
  assert (Hf0 : 0 <= Qfloor x).
  { change 0 with (Qfloor 0). apply Qfloor_resp_le, H0. }
  assert (Hfn : Qfloor x <= n).
  { rewrite <- (Qfloor_Z n). apply Qfloor_resp_le, Hn. }
  replace (min_int64 <=? Qfloor x) with true
    by (symmetry; apply Z.leb_le; unfold min_int64; lia).
  replace (Qfloor x <=? max_int64) with true by (symmetry; apply Z.leb_le; lia).
  cbn. repeat split; [assumption | apply Qfloor_le].
Qed.

(** Lines 58 to 63, on a delay that is at most the maximum. *)
Lemma jittered_bounds (b r : Q) :
  (b <= inject_Z (MaxDelay bc))%Q -> (0 <= r <= 1)%Q ->
  0 <= jittered rnd bc b r /\
  (inject_Z (jittered rnd bc b r)
   <= fmul rnd (float64_of_int rnd (MaxDelay bc)) (fadd rnd 1 (jitter bc)))%Q.
Proof.
  intros Hb Hr. unfold jittered.
  pose proof (multiplier_bounds _ (draw_bounds r Hr)) as Hm.
  pose proof bound_props as [HB0 HB1].
  set (m := fadd rnd 1%Q (fmul rnd (jitter bc) (fsub rnd (fmul rnd r 2%Q) 1%Q))) in *.
  assert (Hx : (fmul rnd b m
                <= fmul rnd (float64_of_int rnd (MaxDelay bc)) (fadd rnd 1 (jitter bc)))%Q).
  { unfold fmul. apply (rnd_mono rnd R). fold (float64_of_int rnd (MaxDelay bc)).
    rewrite float_MaxDelay. apply product_le; assumption. }
  destruct (Qltb (fmul rnd b m) 0) eqn:Hneg.
  - split; [lia | exact HB0].
  - apply Qltb_false in Hneg.
    destruct (int64_of_float_floor (fmul rnd b m) (2 * MaxDelay bc)) as (-> & H1 & H2).
    + split; [assumption | lra].
    + destruct WF as [_ Hmax _ _]. unfold max_int64.
      assert (2 * 2 ^ 52 <= 2 ^ 63 - 1) by (cbn; lia). lia.
    + split; [assumption | lra].
Qed.

Lemma jittered_le_max (b r : Q) :
  (b <= inject_Z (MaxDelay bc))%Q -> (0 <= r <= 1 # 2)%Q ->
  0 <= jittered rnd bc b r <= MaxDelay bc.
Proof.
  intros Hb Hr. unfold jittered.
  assert (Hr' : (0 <= r <= 1)%Q) by lra.
  pose proof (multiplier_bounds _ (draw_bounds r Hr')) as [Hm0 _].
  pose proof (draw_bounds r Hr') as [Hu0 _].
  pose proof (multiplier_le_1 _ (conj Hu0 (draw_nonpos r Hr))) as Hm1.
  set (m := fadd rnd 1%Q (fmul rnd (jitter bc) (fsub rnd (fmul rnd r 2%Q) 1%Q))) in *.
  destruct WF as [Hbase Hmax _ _].
  assert (H53 : 2 ^ 52 <= 2 ^ 53) by (cbn; lia).
  assert (Hx : (fmul rnd b m <= inject_Z (MaxDelay bc))%Q).
  { unfold fmul. apply rnd_le_int; [lia |].
    setoid_replace (inject_Z (MaxDelay bc)) with (inject_Z (MaxDelay bc) * 1)%Q by ring.
    apply product_le; [assumption | lra]. }
  destruct (Qltb (fmul rnd b m) 0) eqn:Hneg.
  - lia.
  - apply Qltb_false in Hneg.
    destruct (int64_of_float_floor (fmul rnd b m) (MaxDelay bc)) as (-> & H1 & H2).
    + split; assumption.
    + unfold max_int64. assert (2 ^ 52 <= 2 ^ 63 - 1) by (cbn; lia). lia.
    + split; [assumption |]. rewrite <- (Qfloor_Z (MaxDelay bc)).
      apply Qfloor_resp_le, Hx.
Qed.

Lemma grow_nonneg (fac max b : Q) (n : nat) :
  (0 <= fac)%Q -> (0 <= b)%Q -> (0 <= grow rnd fac max b n)%Q.
Proof.
  intros Hf. revert b. induction n as [| n IH]; intros b Hb; cbn.
  - exact Hb.
  - destruct (Qltb b max); [| exact Hb].
    apply IH. unfold fmul. apply (rnd_ge_int 0); [cbn; lia |].
    unfold inject_Z. nra.
Qed.

Lemma nominal_nonneg (retries : Z) :
  (0 <= factor bc)%Q -> (0 <= nominal rnd bc retries)%Q.
Proof.
  intros Hf. unfold nominal.
  assert (H0 : (0 <= float64_of_int rnd (MaxDelay bc))%Q).
  { rewrite float_MaxDelay. destruct WF as [Hb _ _ _].
    change 0%Q with (inject_Z 0). rewrite <- Zle_Qle. lia. }
  destruct (Qltb _ _); [exact H0 |].
  apply grow_nonneg; [exact Hf |].
  rewrite float_baseDelay. destruct WF as [Hb _ _ _].
  change 0%Q with (inject_Z 0). rewrite <- Zle_Qle. lia.
Qed.

(** C5. For a well-formed [Backoff], every number of retries and every random
    draw [r] in [0, 1] (a jitter draw [U = 2r - 1] in [-1, 1]),
    [Backoff.Duration] returns a delay [d] with
    [0 <= d <= MaxDelay * (1 + jitter)], the bound being computed in float64
    as the delay is; so no draw makes the delay negative. *)
Theorem Duration_bounds (env : Env) (retries : Z) (w : World) :
  (0 <= random env (draws w) <= 1)%Q ->
  exists delay w',
    run env (Duration rnd bc retries) w = Some (delay, w') /\
    0 <= delay /\
    (inject_Z delay
     <= fmul rnd (float64_of_int rnd (MaxDelay bc)) (fadd rnd 1 (jitter bc)))%Q.
Proof.
  intros Hr. destruct (Z_le_gt_dec retries 0) as [Hle | Hgt].
  - exists (baseDelay bc), w. rewrite run_Duration_base by exact Hle.
    split; [reflexivity |]. destruct WF as [Hb Hm _ _]. split; [lia |].
    pose proof one_plus_jitter as [HM1 _]. pose proof float_MaxDelay as Hmax.
    apply Qle_trans with (inject_Z (MaxDelay bc)).
    + rewrite <- Zle_Qle. lia.
    + rewrite <- Hmax at 1. unfold float64_of_int at 1. unfold fmul.
      apply (rnd_mono rnd R). fold (float64_of_int rnd (MaxDelay bc)).
      rewrite Hmax.
      assert (H0 : (0 <= inject_Z (MaxDelay bc))%Q).
      { change 0%Q with (inject_Z 0). rewrite <- Zle_Qle. lia. }
      nra.
  - exists (jittered rnd bc (nominal rnd bc retries) (random env (draws w))), (draw w).
    rewrite run_Duration_jittered by lia.
    split; [reflexivity |].
    apply jittered_bounds; [apply nominal_le_max | exact Hr].
Qed.

(** C6, as the code has it.  For a well-formed [Backoff] with a factor that is
    not negative and every number of retries, however large, the delay before
    the jitter is applied lies in [0, MaxDelay]; the delay returned lies in
    [0, MaxDelay] when the jitter draw is not positive ([r <= 1/2]). *)
Theorem Duration_within_MaxDelay (env : Env) (retries : Z) (w : World) :
  (0 <= factor bc)%Q ->
  (0 <= nominal rnd bc retries <= inject_Z (MaxDelay bc))%Q /\
  ((0 <= random env (draws w) <= 1 # 2)%Q ->
   exists delay w',
     run env (Duration rnd bc retries) w = Some (delay, w') /\
     0 <= delay <= MaxDelay bc).
Proof.
  intros Hf. split.
  - split; [apply nominal_nonneg, Hf | apply nominal_le_max].
  - intros Hr. destruct (Z_le_gt_dec retries 0) as [Hle | Hgt].
    + exists (baseDelay bc), w. rewrite run_Duration_base by exact Hle.
      split; [reflexivity |]. destruct WF as [Hb _ _ _]. lia.
    + exists (jittered rnd bc (nominal rnd bc retries) (random env (draws w))), (draw w).
      rewrite run_Duration_jittered by lia.
      split; [reflexivity |].
      apply jittered_le_max; [apply nominal_le_max | exact Hr].
Qed.

End BackoffBounds.

Lemma NewBackoff_WellFormed : WellFormed rnd64 (NewBackoff rnd64).
Proof.
  split.
  - cbn. lia.
  - cbn. lia.
  - split; vm_compute; discriminate.
  - vm_compute. reflexivity.
Qed.

Lemma Duration_bounds_witness :
  exists delay w',
    run (env0 300 (3 # 4) (inr response_ok) (atr_ok 7200) (inr response_ok))
      (Duration rnd64 (NewBackoff rnd64) 12) (world0 "" 0) = Some (delay, w') /\
    0 <= delay /\
    (inject_Z delay
     <= fmul rnd64 (float64_of_int rnd64 (MaxDelay (NewBackoff rnd64)))
          (fadd rnd64 1 (jitter (NewBackoff rnd64))))%Q.
Proof.
  apply (Duration_bounds rnd64 rnd64_Rounding (NewBackoff rnd64)
           NewBackoff_WellFormed
           (env0 300 (3 # 4) (inr response_ok) (atr_ok 7200) (inr response_ok))
           12 (world0 "" 0)).
  split; vm_compute; discriminate.
Defined.

Lemma Duration_within_MaxDelay_witness :
  (0 <= nominal rnd64 (NewBackoff rnd64) 12
     <= inject_Z (MaxDelay (NewBackoff rnd64)))%Q /\
  exists delay w',
    run (env0 300 (1 # 4) (inr response_ok) (atr_ok 7200) (inr response_ok))
      (Duration rnd64 (NewBackoff rnd64) 12) (world0 "" 0) = Some (delay, w') /\
    0 <= delay <= MaxDelay (NewBackoff rnd64).
Proof.
  destruct (Duration_within_MaxDelay rnd64 rnd64_Rounding (NewBackoff rnd64)
              NewBackoff_WellFormed
              (env0 300 (1 # 4) (inr response_ok) (atr_ok 7200) (inr response_ok))
              12 (world0 "" 0)) as [Hnominal Hdelay].
  - vm_compute. discriminate.
  - split; [exact Hnominal |]. apply Hdelay.
    split; vm_compute; discriminate.
Defined.

(** The bound of C5 for the default configuration is 216 seconds. *)
Lemma NewBackoff_bound :
  (fmul rnd64 (float64_of_int rnd64 (MaxDelay (NewBackoff rnd64)))
     (fadd rnd64 1 (jitter (NewBackoff rnd64))) == inject_Z 216000000000)%Q.
Proof. vm_compute. reflexivity. Qed.

(** With the default configuration and round-to-nearest-even, every delay is
    between 0 and 216 seconds. *)
Lemma NewBackoff_Duration_bounds (env : Env) (retries : Z) (w : World) :
  (0 <= random env (draws w) <= 1)%Q ->
  exists delay w',
    run env (Duration rnd64 (NewBackoff rnd64) retries) w = Some (delay, w') /\
    0 <= delay <= 216000000000.
Proof.
  intros Hr. destruct (Z_le_gt_dec retries 0) as [Hle | Hgt].
  - exists (baseDelay (NewBackoff rnd64)), w.
    rewrite run_Duration_base by exact Hle.
    split; [reflexivity | cbn; lia].
  - eexists. exists (draw w). rewrite run_Duration_jittered by lia.
    split; [reflexivity |].
    destruct (jittered_bounds rnd64 rnd64_Rounding (NewBackoff rnd64)
                NewBackoff_WellFormed
                (nominal rnd64 (NewBackoff rnd64) retries)
                (random env (draws w))) as [H0 Hle].
    + apply nominal_le_max; [exact rnd64_Rounding | exact NewBackoff_WellFormed].
    + exact Hr.
    + split; [exact H0 |].
      rewrite NewBackoff_bound in Hle. rewrite <- Zle_Qle in Hle. exact Hle.
Qed.

(** C6 as stated fails: with the default configuration, 12 retries (or
    1000) and the draw [r = 3/4], the delay is 198 seconds, above the
    [MaxDelay] of 180 seconds. *)
Lemma Duration_exceeds_MaxDelay :
  let env := env0 300 (3 # 4) (inr response_ok) (atr_ok 7200) (inr response_ok) in
  run env (Duration rnd64 (NewBackoff rnd64) 12) (world0 "" 0)
    = Some (198000000000, draw (world0 "" 0)) /\
  run env (Duration rnd64 (NewBackoff rnd64) 1000) (world0 "" 0)
    = Some (198000000000, draw (world0 "" 0)) /\
  MaxDelay (NewBackoff rnd64) = 180000000000 /\
  ~ (0 <= 198000000000 <= MaxDelay (NewBackoff rnd64)).
Proof.
  cbv zeta. split; [vm_compute; reflexivity |].
  split; [vm_compute; reflexivity |].
  split; [reflexivity |]. cbn. lia.
Qed.

(** * Concurrent callers *)













Tactic Notation "next" hyp(H) open_constr(rule) :=
  eapply reachable_step in H;
  [| eapply rule; try (cbn; reflexivity); try discriminate];
  cbn in H.

Lemma example_two_callers :
  exists c,
    reachable (start client0 "" 0) c /\
    snd c 0%nat = Running (Ret ("7122c6639d12378195cae4237d5fd61e"%string, None)) /\
    snd c 1%nat = Running (Ret ("7122c6639d12378195cae4237d5fd61e"%string, None)) /\
    fst c = mkShared "7122c6639d12378195cae4237d5fd61e" (300 + 7200 * Second) None false.
Proof.
  pose proof (reachable_start (start client0 "" 0)) as H.
  unfold start in H at 2.
  next H (step_lock _ _ 0%nat).
  next H (step_load_token _ _ 0%nat).
  next H (step_send _ _ 0%nat).
  next H (step_receive _ _ 0%nat _ _ (inr response_ok)).
  next H (step_env _ _ 0%nat _ _ _ (atr_ok 7200, None)).
  next H (step_store_token _ _ 0%nat).
  next H (step_env _ _ 0%nat _ _ _ 300).
  next H (step_store_expire _ _ 0%nat).
  next H (step_unlock _ _ 0%nat).
  next H (step_lock _ _ 1%nat).
  next H (step_load_token _ _ 1%nat).
  next H (step_env _ _ 1%nat _ _ _ 400).
  next H (step_load_expire _ _ 1%nat).
  next H (step_load_token _ _ 1%nat).
  next H (step_unlock _ _ 1%nat).
  eexists. split; [exact H |]. cbn. repeat split.
Qed.


(** * Further properties of the token cache, the retry loop and the backoff *)

(** ** More on the token cache *)

Lemma cache_valid_false_checked (env : Env) (w : World) :
  cache_valid env w = false ->
  (accessToken w = ""%string /\ checked w = w) \/
  (accessToken w <> ""%string /\ expireTime w <= clock env (ticks w) /\
   checked w = tick w).
Proof.
  unfold cache_valid, checked. destruct (accessToken w =? "")%string eqn:Htok; cbn.
  - intros _. left. split; [apply String.eqb_eq, Htok | reflexivity].
  - intros Hlt. right. apply String.eqb_neq in Htok. apply Z.ltb_ge in Hlt. auto.
Qed.

(** The run of [GetAccessToken] on a cache miss, up to the GET. *)
Lemma run_GetAccessToken_miss (env : Env) (d : DingTalkClient) (w : World) :
  mutex w = false ->
  cache_valid env w = false ->
  run env (GetAccessToken d) w
  = match http_get env (List.length (gets w)) (token_url d) with
    | inl err =>
        Some ((""%string, Some (ErrTokenRequest err)),
              add_get (token_url d) (checked w))
    | inr resp =>
        if negb (StatusCode resp =? StatusOK) then
          Some ((""%string, Some (ErrTokenStatus (Status resp) (StatusCode resp))),
                add_get (token_url d) (checked w))
        else
          match Body resp with
          | inl err =>
              Some ((""%string, Some (ErrTokenRead (ErrRead err))),
                    add_get (token_url d) (checked w))
          | inr payload =>
              match json_unmarshal_token env payload zeroAccessTokenResp with
              | (atr, Some err) =>
                  Some ((""%string, Some (ErrTokenRead (ErrParse err))),
                        add_get (token_url d) (checked w))
              | (atr, None) =>
                  if negb (ErrCode (Common atr) =? 0) then
                    Some ((""%string,
                           Some (ErrTokenRejected (ErrMsg (Common atr))
                                   (ErrCode (Common atr)))),
                          set_expireTime (clock env (ticks (checked w)))
                            (tick (set_accessToken ""
                                     (add_get (token_url d) (checked w)))))
                  else
                    Some ((AccessToken atr, None), fetched env d atr (checked w))
              end
          end
    end.
Proof.
  intros Hm Hv. unfold fetched. revert Hv.
  unfold GetAccessToken, getAccessTokenLocked, readResultToken, cache_valid,
    checked, token_url.
  destruct w as [tok ex mu ti dr ge po sl lo]. cbn in Hm. subst mu. cbn.
  destruct (tok =? "")%string eqn:Htok; cbn.
  - intros _. destruct (http_get env _ _) as [err | resp]; cbn; [reflexivity |].
    destruct (StatusCode resp =? StatusOK); cbn; [| reflexivity].
    destruct (Body resp) as [err | payload]; cbn; [reflexivity |].
    destruct (json_unmarshal_token env payload zeroAccessTokenResp) as [atr [e |]];
      cbn; [reflexivity |].
    destruct (ErrCode (Common atr) =? 0); reflexivity.
  - intros Hlt. rewrite Hlt. cbn.
    destruct (http_get env _ _) as [err | resp]; cbn; [reflexivity |].
    destruct (StatusCode resp =? StatusOK); cbn; [| reflexivity].
    destruct (Body resp) as [err | payload]; cbn; [reflexivity |].
    destruct (json_unmarshal_token env payload zeroAccessTokenResp) as [atr [e |]];
      cbn; [reflexivity |].
    destruct (ErrCode (Common atr) =? 0); reflexivity.
Qed.

(** X1. On a cache miss answered with status 200, a body that cannot be read
    or does not decode makes [GetAccessToken] return the empty string and
    the read error wrapped once more (line 81), after one GET; the cached
    token and expiry are what they were. *)
Theorem GetAccessToken_decode_failure (env : Env) (d : DingTalkClient) (w : World)
  (resp : Response) (e : error) :
  mutex w = false ->
  cache_valid env w = false ->
  http_get env (List.length (gets w)) (token_url d) = inr resp ->
  StatusCode resp = StatusOK ->
  read_error env (Body resp) = Some e ->
  exists w',
    run env (GetAccessToken d) w = Some ((""%string, Some (ErrTokenRead e)), w') /\
    accessToken w' = accessToken w /\ expireTime w' = expireTime w /\
    gets w' = gets w ++ [token_url d].
Proof.
  intros Hm Hv Hget Hst Hread.
  rewrite (run_GetAccessToken_miss env d w Hm Hv), Hget, Hst. cbn.
  assert (Hc : accessToken (checked w) = accessToken w /\
               expireTime (checked w) = expireTime w /\
               gets (checked w) = gets w).
  { unfold checked. destruct (accessToken w =? "")%string; repeat split. }
  destruct Hc as (Ha & Hb & Hc).
  unfold read_error in Hread. destruct (Body resp) as [err | payload].
  - injection Hread as <-. eexists. split; [reflexivity |]. cbn.
    rewrite Ha, Hb, Hc. repeat split.
  - destruct (json_unmarshal_token env payload zeroAccessTokenResp) as [atr [e' |]];
      cbn in Hread; [| discriminate].
    injection Hread as <-. eexists. split; [reflexivity |]. cbn.
    rewrite Ha, Hb, Hc. repeat split.
Qed.

Lemma checked_fields (w : World) :
  accessToken (checked w) = accessToken w /\
  expireTime (checked w) = expireTime w /\
  mutex (checked w) = mutex w /\
  gets (checked w) = gets w /\
  posts (checked w) = posts w.
Proof. unfold checked. destruct (accessToken w =? "")%string; repeat split. Qed.

(** X2. With the mutex free, [GetAccessToken] always returns, and leaves the
    mutex free on every path (the deferred Unlock).  When the error is nil
    the string returned is the token the cache now holds; when it is not,
    the string is empty.  A GET is issued exactly when the cache was not
    valid, and it goes to the token URL. *)
Theorem GetAccessToken_outcome (env : Env) (d : DingTalkClient) (w : World) :
  mutex w = false ->
  exists tok err w',
    run env (GetAccessToken d) w = Some ((tok, err), w') /\
    mutex w' = false /\
    (err = None -> tok = accessToken w') /\
    (err <> None -> tok = ""%string) /\
    gets w' = (if cache_valid env w then gets w else gets w ++ [token_url d]).
Proof.
  intros Hm. destruct (cache_valid env w) eqn:Hv.
  - exists (accessToken w), None, (tick w).
    rewrite (GetAccessToken_hit env d w Hm Hv).
    repeat split; solve [assumption | intros; congruence | reflexivity].
  - rewrite (run_GetAccessToken_miss env d w Hm Hv).
    destruct (checked_fields w) as (Ha & Hb & Hc & Hd & He).
    destruct (http_get env _ _) as [err | resp].
    { do 3 eexists. split; [reflexivity |]. cbn. rewrite Hc, Hd.
      repeat split; solve [assumption | intros; congruence | reflexivity]. }
    destruct (StatusCode resp =? StatusOK); cbn.
    2: { do 3 eexists. split; [reflexivity |]. cbn. rewrite Hc, Hd.
         repeat split; solve [assumption | intros; congruence | reflexivity]. }
    destruct (Body resp) as [err | payload].
    { do 3 eexists. split; [reflexivity |]. cbn. rewrite Hc, Hd.
      repeat split; solve [assumption | intros; congruence | reflexivity]. }
    destruct (json_unmarshal_token env payload zeroAccessTokenResp) as [atr [e |]].
    { do 3 eexists. split; [reflexivity |]. cbn. rewrite Hc, Hd.
      repeat split; solve [assumption | intros; congruence | reflexivity]. }
    destruct (ErrCode (Common atr) =? 0); cbn.
    + do 3 eexists. split; [reflexivity |]. cbn. rewrite Hc, Hd.
      repeat split; solve [assumption | intros; congruence | reflexivity].
    + do 3 eexists. split; [reflexivity |]. cbn. rewrite Hc, Hd.
      repeat split; solve [assumption | intros; congruence | reflexivity].
Qed.

(** X3. A call that returns a nil error either found the cache valid at its
    one reading of the clock, and changed nothing else, or fetched: the GET
    answered 200 with a body that decodes with error code 0, the token
    returned is the one decoded, and the cache holds it with the new expiry.
    A token whose expiry has passed is never handed out. *)
Theorem GetAccessToken_never_stale (env : Env) (d : DingTalkClient) (w w' : World)
  (tok : string) :
  run env (GetAccessToken d) w = Some ((tok, None), w') ->
  (cache_valid env w = true /\ tok = accessToken w /\ w' = tick w) \/
  (cache_valid env w = false /\
   exists atr,
     fetch_decodes env d w atr /\ ErrCode (Common atr) = 0 /\
     tok = AccessToken atr /\ w' = fetched env d atr (checked w)).
Proof.
  intros Hrun.
  assert (Hm : mutex w = false).
  { destruct (mutex w) eqn:Hm; [| reflexivity].
    unfold GetAccessToken in Hrun. cbn in Hrun. rewrite Hm in Hrun. discriminate. }
  destruct (cache_valid env w) eqn:Hv.
  - left. rewrite (GetAccessToken_hit env d w Hm Hv) in Hrun.
    injection Hrun as <- <-. auto.
  - right. split; [reflexivity |].
    rewrite (run_GetAccessToken_miss env d w Hm Hv) in Hrun.
    destruct (http_get env _ _) as [err | resp] eqn:Hget; [discriminate |].
    destruct (StatusCode resp =? StatusOK) eqn:Hst; cbn in Hrun; [| discriminate].
    destruct (Body resp) as [err | payload] eqn:Hbody; [discriminate |].
    destruct (json_unmarshal_token env payload zeroAccessTokenResp)
      as [atr [e |]] eqn:Hdec; [discriminate |].
    destruct (ErrCode (Common atr) =? 0) eqn:Hcode; cbn in Hrun; [| discriminate].
    injection Hrun as <- <-. exists atr. repeat split.
    + exists resp, payload. repeat split; try assumption.
      apply Z.eqb_eq, Hst.
    + apply Z.eqb_eq, Hcode.
Qed.

(** [n] calls in a row on a cache that stays valid. *)
Lemma repeat_run_hits (env : Env) (d : DingTalkClient) (n : nat) :
  forall w,
    mutex w = false ->
    accessToken w <> ""%string ->
    (forall i, (i < n)%nat -> clock env (ticks w + i) < expireTime w) ->
    repeat_run env (GetAccessToken d) n w
    = Some (repeat (accessToken w, None) n, Nat.iter n tick w).
Proof.
  induction n as [| n IH]; intros w Hm Hne Hclk; [reflexivity |].
  assert (Hv : cache_valid env w = true).
  { unfold cache_valid. apply andb_true_intro. split.
    - apply negb_true_iff, String.eqb_neq, Hne.
    - apply Z.ltb_lt. specialize (Hclk O). rewrite Nat.add_0_r in Hclk.
      apply Hclk. lia. }
  cbn [repeat_run repeat]. rewrite (GetAccessToken_hit env d w Hm Hv).
  rewrite (IH (tick w)).
  - change (accessToken (tick w)) with (accessToken w).
    rewrite <- Nat.iter_succ_r. reflexivity.
  - exact Hm.
  - exact Hne.
  - intros i Hi. change (ticks (tick w)) with (S (ticks w)).
    change (expireTime (tick w)) with (expireTime w).
    replace (S (ticks w) + i)%nat with (ticks w + S i)%nat by lia.
    apply Hclk. lia.
Qed.

Lemma iter_tick_fields (n : nat) (w : World) :
  accessToken (Nat.iter n tick w) = accessToken w /\
  expireTime (Nat.iter n tick w) = expireTime w /\
  gets (Nat.iter n tick w) = gets w /\
  ticks (Nat.iter n tick w) = (n + ticks w)%nat.
Proof.
  induction n as [| n (Ha & Hb & Hc & Hd)]; [repeat split |].
  change (Nat.iter (S n) tick w) with (tick (Nat.iter n tick w)).
  generalize dependent (Nat.iter n tick w). intros x Ha Hb Hc Hd.
  cbn. rewrite Ha, Hb, Hc, Hd. repeat split.
Qed.

Lemma run_GetAccessToken_fetched (env : Env) (d : DingTalkClient) (w : World)
  (atr : AccessTokenResp) :
  mutex w = false ->
  cache_valid env w = false ->
  fetch_decodes env d w atr ->
  ErrCode (Common atr) = 0 ->
  run env (GetAccessToken d) w
  = Some ((AccessToken atr, None), fetched env d atr (checked w)).
Proof.
  intros Hm Hv (resp & payload & Hget & Hst & Hbody & Hdec) Hcode.
  rewrite (run_GetAccessToken_miss env d w Hm Hv), Hget, Hst, Hbody, Hdec, Hcode.
  reflexivity.
Qed.

Lemma fetched_fields (env : Env) (d : DingTalkClient) (atr : AccessTokenResp)
  (w : World) :
  accessToken (fetched env d atr w) = AccessToken atr /\
  expireTime (fetched env d atr w)
    = clock env (ticks w) + wrap64 (ExpiresIn atr * Second) /\
  mutex (fetched env d atr w) = mutex w /\
  gets (fetched env d atr w) = gets w ++ [token_url d] /\
  ticks (fetched env d atr w) = S (ticks w).
Proof. repeat split. Qed.

(** X4. A successful fetch followed by [n] more calls, each reading the clock
    before the expiry the fetch computed: all [n + 1] calls return the
    fetched token, and the whole sequence issues exactly one GET. *)
Theorem GetAccessToken_fetch_then_hits (env : Env) (d : DingTalkClient) (w : World)
  (atr : AccessTokenResp) (n : nat) :
  mutex w = false ->
  cache_valid env w = false ->
  fetch_decodes env d w atr ->
  ErrCode (Common atr) = 0 ->
  AccessToken atr <> ""%string ->
  in_int64 (ExpiresIn atr * Second) ->
  (forall i, (1 <= i <= n)%nat ->
     clock env (ticks (checked w) + i)
     < clock env (ticks (checked w)) + ExpiresIn atr * Second) ->
  exists w',
    repeat_run env (GetAccessToken d) (S n) w
      = Some (repeat (AccessToken atr, None) (S n), w') /\
    gets w' = gets w ++ [token_url d].
Proof.
  intros Hm Hv Hfetch Hcode Htok Hrange Hclk.
  cbn [repeat_run repeat].
  rewrite (run_GetAccessToken_fetched env d w atr Hm Hv Hfetch Hcode).
  destruct (checked_fields w) as (Ha & Hb & Hc & Hd & He).
  destruct (fetched_fields env d atr (checked w)) as (Fa & Fb & Fc & Fd & Fe).
  rewrite (repeat_run_hits env d n (fetched env d atr (checked w))).
  - rewrite Fa. eexists. split; [reflexivity |].
    destruct (iter_tick_fields n (fetched env d atr (checked w))) as (_ & _ & Hg & _).
    rewrite Hg, Fd, Hd. reflexivity.
  - congruence.
  - rewrite Fa. exact Htok.
  - intros i Hi. rewrite Fb, Fe, (wrap64_in_range _ Hrange).
    replace (S (ticks (checked w)) + i)%nat with (ticks (checked w) + S i)%nat by lia.
    apply Hclk. lia.
Qed.

(** X5. A successful fetch followed by a call that reads the clock at or
    after the expiry: the second call does not use the cache, it issues a
    second GET to the token URL. *)
Theorem GetAccessToken_refresh_on_expiry (env : Env) (d : DingTalkClient) (w : World)
  (atr : AccessTokenResp) :
  mutex w = false ->
  cache_valid env w = false ->
  fetch_decodes env d w atr ->
  ErrCode (Common atr) = 0 ->
  in_int64 (ExpiresIn atr * Second) ->
  clock env (ticks (checked w)) + ExpiresIn atr * Second
    <= clock env (S (ticks (checked w))) ->
  exists r w',
    repeat_run env (GetAccessToken d) 2 w
      = Some ([(AccessToken atr, None); r], w') /\
    gets w' = gets w ++ [token_url d; token_url d].
Proof.
  intros Hm Hv Hfetch Hcode Hrange Hclk.
  cbn [repeat_run].
  rewrite (run_GetAccessToken_fetched env d w atr Hm Hv Hfetch Hcode).
  destruct (checked_fields w) as (Ha & Hb & Hc & Hd & He).
  destruct (fetched_fields env d atr (checked w)) as (Fa & Fb & Fc & Fd & Fe).
  set (w1 := fetched env d atr (checked w)) in *.
  assert (Hm1 : mutex w1 = false) by congruence.
  assert (Hv1 : cache_valid env w1 = false).
  { unfold cache_valid. rewrite Fb, Fe, (wrap64_in_range _ Hrange).
    apply andb_false_iff. right. apply Z.ltb_ge. exact Hclk. }
  destruct (GetAccessToken_returns env d w1 Hm1) as (r & w2 & Hrun & _ & Hg).
  rewrite Hrun. exists r, w2. split; [reflexivity |].
  rewrite (Hg Hv1), Fd, Hd, <- app_assoc. reflexivity.
Qed.

(** ** More on the retry loop *)

Section RetryCounts.

Variable rnd : Q -> Q.
Variables (env : Env) (backOff : Backoff) (reqObj : SendMsgByRobotReq)
  (header : list (string * list string)).


(** What the loop leaves, from [retries = 0]: [k] POSTs of the same request
    and [f] failed attempts, each logged and slept after; either the last
    attempt succeeded, or all four failed. *)
Lemma retryLoop_counts (fuel : nat) :
  forall (ret : SendMsgByRobotResp) (err : option error) (retries : Z) (w : World),
    0 <= retries ->
    4 - retries <= Z.of_nat fuel ->
    exists ret' err' w' k f,
      run env (retryLoop rnd fuel backOff reqObj header ret err retries) w
        = Some ((ret', err', retries + Z.of_nat f), w') /\
      posts w' = posts w ++ repeat (mkRequest batchSendAPI reqObj header) k /\
      List.length (sleeps w') = (List.length (sleeps w) + f)%nat /\
      List.length (logs w') = (List.length (logs w) + f)%nat /\
      mutex w' = mutex w /\
      Z.of_nat k <= Z.max 0 (4 - retries) /\
      ((err' = None /\ k = S f /\ retries + Z.of_nat f <= 3) \/
       (k = f /\ 3 < retries + Z.of_nat f /\
        (f = O -> err' = err) /\ ((0 < f)%nat -> err' <> None))).
Proof.
  induction fuel as [| fuel IH]; intros ret err retries w H0 Hfuel.
  - exists ret, err, w, O, O. rewrite retryLoop_break by lia.
    rewrite Z.add_0_r, app_nil_r, !Nat.add_0_r.
    repeat split; [lia |]. right. repeat split; try lia; intros H; inversion H.
  - destruct (Z_lt_le_dec 3 retries) as [Hgt | Hle].
    + exists ret, err, w, O, O. rewrite retryLoop_break by lia.
      rewrite Z.add_0_r, app_nil_r, !Nat.add_0_r.
      repeat split; [lia |]. right. repeat split; try lia; intros H; inversion H.
    + destruct (post_outcome env (List.length (posts w)) (mkRequest batchSendAPI reqObj header) ret)
        as [ret' [e |]] eqn:Hpost.
      * rewrite (retryLoop_failure rnd env backOff reqObj header
                   fuel ret ret' err e retries w) by (assumption || lia).
        match goal with |- context [run env _ ?x] => set (w1 := x) end.
        destruct (IH ret' (Some e) (retries + 1) w1)
          as (r' & e' & w' & k & f & Hrun & Hposts & Hsl & Hlg & Hmu & Hkb & Hcase);
          try lia.
        exists r', e', w', (S k), (S f). rewrite Hrun.
        replace (retries + 1 + Z.of_nat f) with (retries + Z.of_nat (S f)) by lia.
        split; [reflexivity |].
        split; [rewrite Hposts; cbn; rewrite <- app_assoc; reflexivity |].
        split; [rewrite Hsl; subst w1; cbn; rewrite length_app; cbn; lia |].
        split; [rewrite Hlg; subst w1; cbn; rewrite length_app; cbn; lia |].
        split; [rewrite Hmu; reflexivity |].
        split; [lia |].
        destruct Hcase as [(He' & Hk & Hr) | (Hk & Hr & Hf0 & Hf1)].
        -- left. repeat split; [assumption | lia | lia].
        -- right. repeat split; try lia.
           intros _. destruct f as [| f].
           ++ rewrite Hf0 by reflexivity. discriminate.
           ++ apply Hf1. lia.
      * exists ret', None, (add_post (mkRequest batchSendAPI reqObj header) w), 1%nat, O.
        rewrite (retryLoop_success rnd env backOff reqObj header
                   fuel ret ret' err retries w) by assumption.
        rewrite Z.add_0_r, !Nat.add_0_r. repeat split; [lia |].
        left. repeat split. lia.
Qed.

(** [k] failed attempts, then one that succeeds. *)
Lemma retryLoop_fail_then_succeed (k : nat) :
  forall (fuel : nat) (ret : SendMsgByRobotResp) (err : option error)
    (retries : Z) (w : World),
    0 <= retries ->
    retries + Z.of_nat k <= 3 ->
    (k < fuel)%nat ->
    (forall i out, (i < k)%nat ->
       snd (post_outcome env (List.length (posts w) + i) (mkRequest batchSendAPI reqObj header) out) <> None) ->
    (forall out,
       snd (post_outcome env (List.length (posts w) + k) (mkRequest batchSendAPI reqObj header) out) = None) ->
    exists ret' w',
      run env (retryLoop rnd fuel backOff reqObj header ret err retries) w
        = Some ((ret', None, retries + Z.of_nat k), w') /\
      posts w' = posts w ++ repeat (mkRequest batchSendAPI reqObj header) (S k) /\
      List.length (sleeps w') = (List.length (sleeps w) + k)%nat /\
      List.length (logs w') = (List.length (logs w) + k)%nat.
Proof.
  induction k as [| k IH]; intros fuel ret err retries w H0 Hr Hfuel Hfail Hok.
  - destruct fuel as [| fuel]; [lia |].
    specialize (Hok ret). rewrite Nat.add_0_r in Hok.
    destruct (post_outcome env (List.length (posts w)) (mkRequest batchSendAPI reqObj header) ret)
      as [ret' e'] eqn:Hpost. cbn in Hok. subst e'.
    exists ret', (add_post (mkRequest batchSendAPI reqObj header) w).
    rewrite (retryLoop_success rnd env backOff reqObj header
               fuel ret ret' err retries w) by (assumption || lia).
    rewrite Z.add_0_r, !Nat.add_0_r. repeat split.
  - destruct fuel as [| fuel]; [lia |].
    pose proof (Hfail O ret ltac:(lia)) as Hf. rewrite Nat.add_0_r in Hf.
    destruct (post_outcome env (List.length (posts w)) (mkRequest batchSendAPI reqObj header) ret)
      as [ret1 [e |]] eqn:Hpost; [| cbn in Hf; congruence].
    rewrite (retryLoop_failure rnd env backOff reqObj header
               fuel ret ret1 err e retries w) by (assumption || lia).
    match goal with |- context [run env _ ?x] => set (w1 := x) end.
    assert (Hlen : List.length (posts w1) = S (List.length (posts w))).
    { subst w1. cbn. rewrite length_app. cbn. lia. }
    destruct (IH fuel ret1 (Some e) (retries + 1) w1)
      as (ret' & w' & Hrun & Hposts & Hsl & Hlg); try lia.
    + intros i out Hi. rewrite Hlen.
      replace (S (List.length (posts w)) + i)%nat
        with (List.length (posts w) + S i)%nat by lia.
      apply Hfail. lia.
    + intros out. rewrite Hlen.
      replace (S (List.length (posts w)) + k)%nat
        with (List.length (posts w) + S k)%nat by lia.
      apply Hok.
    + exists ret', w'. rewrite Hrun.
      replace (retries + 1 + Z.of_nat k) with (retries + Z.of_nat (S k)) by lia.
      split; [reflexivity |].
      split; [rewrite Hposts; subst w1; cbn; rewrite <- app_assoc; reflexivity |].
      split; [rewrite Hsl; subst w1; cbn; rewrite length_app; cbn; lia |].
      rewrite Hlg; subst w1; cbn; rewrite length_app; cbn; lia.
Qed.

End RetryCounts.

(** ** More on SendMessageFromRobot *)

Section SendMore.

Variable rnd : Q -> Q.
Variables (env : Env) (d : DingTalkClient) (robotCode title content : string).


(** X7. When the message cannot be marshalled, [SendMessageFromRobot]
    returns a nil response and the marshalling error wrapped (line 354),
    whatever the recipients: nothing is posted, slept or logged. *)
Theorem SendMessageFromRobot_marshal_error (to : list string) (w w1 : World)
  (accToken : string) (e : error) :
  run env (GetAccessToken d) w = Some ((accToken, None), w1) ->
  json_marshal_msg env (mkMsgContent title content) = inl e ->
  run env (SendMessageFromRobot rnd d robotCode title content to) w
    = Some ((None, Some (ErrMarshalMsg e)), w1) /\
  posts w1 = posts w /\ sleeps w1 = sleeps w /\ logs w1 = logs w.
Proof.
  intros Htok Hmsg. split.
  - unfold SendMessageFromRobot. rewrite run_bind, Htok.
    cbn [bind trigger run handle]. rewrite Hmsg. reflexivity.
  - destruct (GetAccessToken_frame env d w w1 _ Htok) as (Hp & Hs & Hl & _). auto.
Qed.

(** X8. In every environment and for every list of recipients,
    [SendMessageFromRobot] returns with the mutex free after [k <= 4] POSTs
    and [f] failures, each failure logged once and slept after once.  With
    an error the response is nil and either nothing was posted or all four
    attempts failed; with a nil error either nothing was posted (no
    recipient: nil response) or the last of the [k = f + 1] POSTs succeeded
    and its response is returned. *)
Theorem SendMessageFromRobot_retry_cap (to : list string) (w : World) :
  mutex w = false ->
  exists resp err w' k f,
    run env (SendMessageFromRobot rnd d robotCode title content to) w
      = Some ((resp, err), w') /\
    mutex w' = false /\
    List.length (posts w') = (List.length (posts w) + k)%nat /\
    List.length (sleeps w') = (List.length (sleeps w) + f)%nat /\
    List.length (logs w') = (List.length (logs w) + f)%nat /\
    (k <= 4)%nat /\
    (err <> None -> resp = None /\ (k = f /\ (k = 0 \/ k = 4))%nat) /\
    (err = None -> (resp = None /\ k = O /\ f = O) \/ (resp <> None /\ k = S f)).
Proof.
  intros Hm.
  destruct (GetAccessToken_returns env d w Hm) as ([tok terr] & w1 & Htok & Hm1 & _).
  destruct (GetAccessToken_frame env d w w1 _ Htok) as (Hp & Hs & Hl & _).
  destruct terr as [e |].
  { exists None, (Some e), w1, O, O.
    unfold SendMessageFromRobot. rewrite run_bind, Htok.
    rewrite Hp, Hs, Hl, !Nat.add_0_r.
    repeat split; try lia; try reflexivity; try assumption; discriminate. }
  destruct (json_marshal_msg env (mkMsgContent title content)) as [e | msg] eqn:Hmsg.
  { exists None, (Some (ErrMarshalMsg e)), w1, O, O.
    unfold SendMessageFromRobot. rewrite run_bind, Htok.
    cbn [bind trigger run handle]. rewrite Hmsg.
    rewrite Hp, Hs, Hl, !Nat.add_0_r.
    repeat split; try lia; try reflexivity; try assumption; discriminate. }
  destruct to as [| x to'].
  { exists None, None, w1, O, O.
    unfold SendMessageFromRobot. rewrite run_bind, Htok.
    cbn [bind trigger run handle]. rewrite Hmsg.
    rewrite Hp, Hs, Hl, !Nat.add_0_r.
    repeat split; try lia; try reflexivity; try assumption; try congruence.
    intros _. left. repeat split. }
  rewrite (SendMessageFromRobot_unfold rnd env d robotCode title content
             (x :: to') w w1 tok msg Htok Hmsg) by discriminate.
  match goal with
  | |- context [retryLoop rnd 4 ?b ?p ?h _ _ _] =>
      destruct (retryLoop_counts rnd env b p h 4 zeroSendMsgByRobotResp None 0 w1)
        as (ret' & err' & w' & k & f & Hrun & Hposts & Hsl & Hlg & Hmu & Hkb & Hcase);
        [lia | cbn; lia |]
  end.
  rewrite Hrun.
  assert (Hk4 : (k <= 4)%nat) by lia.
  assert (Hpl : List.length (posts w') = (List.length (posts w) + k)%nat).
  { rewrite Hposts, length_app, repeat_length, Hp. reflexivity. }
  destruct Hcase as [(He' & Hk & Hr) | (Hk & Hr & Hf0 & Hf1)].
  - subst err'. exists (Some ret'), None, w', k, f.
    repeat split; try lia; try congruence.
    intros _. right. split; [discriminate | exact Hk].
  - destruct err' as [e |].
    + exists None, (Some (ErrBatchSend (0 + Z.of_nat f) e)), w', k, f.
      repeat split; try lia; try congruence.
    + exfalso. apply Hf1; [lia | reflexivity].
Qed.

(** X9. When the first [k <= 3] attempts fail and the next one succeeds,
    [SendMessageFromRobot] returns the decoded response with a nil error
    after [k + 1] POSTs of the same request, [k] sleeps and [k] log lines:
    the failures leave no trace in the result. *)
Theorem SendMessageFromRobot_retries_until_success (to : list string)
  (w w1 : World) (accToken msg : string) (k : nat) :
  run env (GetAccessToken d) w = Some ((accToken, None), w1) ->
  json_marshal_msg env (mkMsgContent title content) = inr msg ->
  to <> [] ->
  (k <= 3)%nat ->
  (forall i out, (i < k)%nat ->
     snd (post_outcome env (List.length (posts w) + i)
            (relay_request robotCode msg accToken
               (kept_recipients to)) out)
     <> None) ->
  (forall out,
     snd (post_outcome env (List.length (posts w) + k)
            (relay_request robotCode msg accToken
               (kept_recipients to)) out)
     = None) ->
  exists ret w',
    run env (SendMessageFromRobot rnd d robotCode title content to) w
      = Some ((Some ret, None), w') /\
    posts w'
      = posts w ++ repeat (relay_request robotCode msg accToken
                             (kept_recipients to))
                     (S k) /\
    List.length (sleeps w') = (List.length (sleeps w) + k)%nat /\
    List.length (logs w') = (List.length (logs w) + k)%nat.
Proof.
  intros Htok Hmsg Hto Hk Hfail Hok.
  unfold kept_recipients in *.
  rewrite (SendMessageFromRobot_unfold rnd env d robotCode title content
             to w w1 accToken msg Htok Hmsg Hto).
  destruct (GetAccessToken_frame env d w w1 _ Htok) as (Hp & Hs & Hl & _).
  set (R := relay_request robotCode msg accToken
              (if (20 <? List.length to)%nat then firstn 20 to else to)) in *.
  destruct (retryLoop_fail_then_succeed rnd env (NewBackoff rnd)
              (Payload R) (Header R) k 4 zeroSendMsgByRobotResp None 0 w1)
    as (ret & w' & Hrun & Hposts & Hsl & Hlg); try lia.
  - intros i out Hi. rewrite Hp. apply Hfail, Hi.
  - intros out. rewrite Hp. apply Hok.
  - rewrite Hrun. exists ret, w'. split; [reflexivity |].
    rewrite Hposts, Hsl, Hlg, Hp, Hs, Hl. repeat split.
Qed.

(** X10. [post] does not look at the status of the response: whatever
    [StatusCode] the relay answers with, a body that decodes makes the first
    attempt a success, and [SendMessageFromRobot] returns what it decoded
    after that single POST, with no sleep and no log line. *)
Theorem SendMessageFromRobot_ignores_status (to : list string)
  (w w1 : World) (accToken msg payload : string) (resp : Response)
  (ret : SendMsgByRobotResp) :
  run env (GetAccessToken d) w = Some ((accToken, None), w1) ->
  json_marshal_msg env (mkMsgContent title content) = inr msg ->
  to <> [] ->
  http_do env (List.length (posts w))
    (relay_request robotCode msg accToken
       (kept_recipients to)) = inr resp ->
  Body resp = inr payload ->
  json_unmarshal_send env payload zeroSendMsgByRobotResp = (ret, None) ->
  run env (SendMessageFromRobot rnd d robotCode title content to) w
    = Some ((Some ret, None),
            add_post (relay_request robotCode msg accToken
                        (kept_recipients to))
              w1).
Proof.
  intros Htok Hmsg Hto Hdo Hbody Hdec.
  unfold kept_recipients in *.
  rewrite (SendMessageFromRobot_unfold rnd env d robotCode title content
             to w w1 accToken msg Htok Hmsg Hto).
  destruct (GetAccessToken_frame env d w w1 _ Htok) as (Hp & _).
  set (R := relay_request robotCode msg accToken
              (if (20 <? List.length to)%nat then firstn 20 to else to)) in *.
  rewrite (retryLoop_success rnd env (NewBackoff rnd) (Payload R) (Header R)
             3 zeroSendMsgByRobotResp ret None 0 w1); [reflexivity | lia |].
  unfold post_outcome. rewrite Hp. fold R.
  change (mkRequest batchSendAPI (Payload R) (Header R)) with R.
  rewrite Hdo, Hbody, Hdec. reflexivity.
Qed.

(** X11. A list of 1 to 20 recipients is posted as it is, in full and in
    order, in each of the 1 to 4 POSTs. *)
Theorem SendMessageFromRobot_keeps_short_list (to : list string) (w w1 : World)
  (accToken msg : string) :
  run env (GetAccessToken d) w = Some ((accToken, None), w1) ->
  json_marshal_msg env (mkMsgContent title content) = inr msg ->
  (1 <= List.length to <= 20)%nat ->
  exists r w' k,
    run env (SendMessageFromRobot rnd d robotCode title content to) w
      = Some (r, w') /\
    (1 <= k <= 4)%nat /\
    posts w' = posts w ++ repeat (relay_request robotCode msg accToken to) k.
Proof.
  intros Htok Hmsg Hlen.
  assert (Hto : to <> []) by (intros ->; cbn in Hlen; lia).
  rewrite (SendMessageFromRobot_unfold rnd env d robotCode title content
             to w w1 accToken msg Htok Hmsg Hto).
  replace (20 <? List.length to)%nat with false
    by (symmetry; apply Nat.ltb_ge; lia).
  destruct (retryLoop_returns rnd env (NewBackoff rnd)
              (Payload (relay_request robotCode msg accToken to))
              (Header (relay_request robotCode msg accToken to))
              4 zeroSendMsgByRobotResp None 0 w1)
    as (r & w' & k & Hrun & Hposts & Hk & Hk1); try (cbn; lia).
  rewrite Hrun.
  destruct (GetAccessToken_frame env d w w1 _ Htok) as (Hp & _).
  assert (Hk' : (1 <= k <= 4)%nat) by (split; [apply Hk1 |]; lia).
  rewrite Hp in Hposts.
  destruct r as [[ret [e |]] retries]; eexists; exists w', k;
    (split; [reflexivity |]); (split; [exact Hk' | exact Hposts]).
Qed.

End SendMore.

Section RetrySleeps.

Variable rnd : Q -> Q.
Hypothesis R : Rounding rnd.
Variables (env : Env) (backOff : Backoff) (reqObj : SendMsgByRobotReq)
  (header : list (string * list string)).
Hypothesis WF : WellFormed rnd backOff.
Hypothesis draws_in_range : forall n, (0 <= random env n <= 1)%Q.

(** Every delay the loop sleeps for is within the bounds of the policy. *)
Lemma retryLoop_sleeps_bounded (fuel : nat) :
  forall (ret : SendMsgByRobotResp) (err : option error) (retries : Z) (w : World),
    0 <= retries ->
    4 - retries <= Z.of_nat fuel ->
    exists r w' slept,
      run env (retryLoop rnd fuel backOff reqObj header ret err retries) w
        = Some (r, w') /\
      sleeps w' = sleeps w ++ slept /\
      Z.of_nat (List.length slept) <= Z.max 0 (4 - retries) /\
      Forall (fun delay =>
                0 <= delay /\
                (inject_Z delay
                 <= fmul rnd (float64_of_int rnd (MaxDelay backOff))
                      (fadd rnd 1 (jitter backOff)))%Q) slept.
Proof.
  induction fuel as [| fuel IH]; intros ret err retries w H0 Hfuel.
  - exists (ret, err, retries), w, []. rewrite retryLoop_break by lia.
    rewrite app_nil_r. repeat split; [cbn; lia | constructor].
  - destruct (Z_lt_le_dec 3 retries) as [Hgt | Hle].
    + exists (ret, err, retries), w, []. rewrite retryLoop_break by lia.
      rewrite app_nil_r. repeat split; [cbn; lia | constructor].
    + destruct (post_outcome env (List.length (posts w))
                  (mkRequest batchSendAPI reqObj header) ret)
        as [ret' [e |]] eqn:Hpost.
      * rewrite (retryLoop_failure rnd env backOff reqObj header
                   fuel ret ret' err e retries w) by (assumption || lia).
        match goal with |- context [run env _ ?x] => set (w1 := x) end.
        destruct (IH ret' (Some e) (retries + 1) w1)
          as (r & w' & slept & Hrun & Hsl & Hlen & Hall); try lia.
        exists r, w'.
        exists (jittered rnd backOff (nominal rnd backOff (retries + 1))
                  (random env (draws w)) :: slept).
        split; [exact Hrun |].
        split; [rewrite Hsl; subst w1; cbn; rewrite <- app_assoc; reflexivity |].
        split; [cbn [List.length]; lia |].
        constructor; [| exact Hall].
        apply (jittered_bounds rnd R backOff WF);
          [apply (nominal_le_max rnd R backOff WF) | apply draws_in_range].
      * exists (ret', None, retries),
          (add_post (mkRequest batchSendAPI reqObj header) w), [].
        rewrite (retryLoop_success rnd env backOff reqObj header
                   fuel ret ret' err retries w) by assumption.
        rewrite app_nil_r. repeat split; [cbn; lia | constructor].
Qed.

End RetrySleeps.

(** X12. With the default policy and float64 rounding, whatever the
    network does and whatever the recipients, [SendMessageFromRobot] sleeps
    at most four times, each time between 0 and 216 seconds
    (216000000000 ns): it returns after at most 864 seconds of sleep. *)
Theorem SendMessageFromRobot_sleeps_bounded (env : Env) (d : DingTalkClient)
  (robotCode title content : string) (to : list string) (w : World) :
  mutex w = false ->
  (forall n, (0 <= random env n <= 1)%Q) ->
  exists r w' slept,
    run env (SendMessageFromRobot rnd64 d robotCode title content to) w
      = Some (r, w') /\
    sleeps w' = sleeps w ++ slept /\
    (List.length slept <= 4)%nat /\
    Forall (fun delay => 0 <= delay <= 216000000000) slept.
Proof.
  intros Hm Hdraws.
  destruct (GetAccessToken_returns env d w Hm) as ([tok terr] & w1 & Htok & Hm1 & _).
  destruct (GetAccessToken_frame env d w w1 _ Htok) as (Hp & Hs & Hl & _).
  destruct terr as [e |].
  { exists (None, Some e), w1, [].
    unfold SendMessageFromRobot. rewrite run_bind, Htok, Hs, app_nil_r.
    repeat split; [cbn; lia | constructor]. }
  destruct (json_marshal_msg env (mkMsgContent title content)) as [e | msg] eqn:Hmsg.
  { exists (None, Some (ErrMarshalMsg e)), w1, [].
    unfold SendMessageFromRobot. rewrite run_bind, Htok.
    cbn [bind trigger run handle]. rewrite Hmsg, Hs, app_nil_r.
    repeat split; [cbn; lia | constructor]. }
  destruct to as [| x to'].
  { exists (None, None), w1, [].
    unfold SendMessageFromRobot. rewrite run_bind, Htok.
    cbn [bind trigger run handle]. rewrite Hmsg, Hs, app_nil_r.
    repeat split; [cbn; lia | constructor]. }
  rewrite (SendMessageFromRobot_unfold rnd64 env d robotCode title content
             (x :: to') w w1 tok msg Htok Hmsg) by discriminate.
  match goal with
  | |- context [retryLoop rnd64 4 ?b ?p ?h _ _ _] =>
      destruct (retryLoop_sleeps_bounded rnd64 rnd64_Rounding env b p h
                  NewBackoff_WellFormed Hdraws 4 zeroSendMsgByRobotResp None 0 w1)
        as (r & w' & slept & Hrun & Hsl & Hlen & Hall); [lia | cbn; lia |]
  end.
  rewrite Hrun.
  assert (Hall' : Forall (fun delay => 0 <= delay <= 216000000000) slept).
  { eapply Forall_impl; [| exact Hall]. cbv beta. intros delay [H0 Hle].
    split; [exact H0 |]. rewrite NewBackoff_bound in Hle.
    rewrite <- Zle_Qle in Hle. exact Hle. }
  destruct r as [[ret [e |]] retries]; eexists; exists w', slept;
    (split; [reflexivity |]); rewrite Hsl, Hs;
    (split; [reflexivity |]); (split; [lia | exact Hall']).
Qed.

(** *** Examples *)

Lemma GetAccessToken_outcome_witness :
  exists tok err w',
    run env_relay_up (GetAccessToken client0) (world0 "" 0)
      = Some ((tok, err), w') /\
    mutex w' = false /\
    (err = None -> tok = accessToken w') /\
    (err <> None -> tok = ""%string) /\
    gets w' = (if cache_valid env_relay_up (world0 "" 0)
               then gets (world0 "" 0)
               else gets (world0 "" 0) ++ [token_url client0]).
Proof.
  apply (GetAccessToken_outcome env_relay_up client0 (world0 "" 0)).
  reflexivity.
Defined.

Lemma GetAccessToken_never_stale_witness :
  (cache_valid env_relay_up (world0 "" 0) = true /\
   "7122c6639d12378195cae4237d5fd61e"%string = accessToken (world0 "" 0) /\
   world_fetched = tick (world0 "" 0)) \/
  (cache_valid env_relay_up (world0 "" 0) = false /\
   exists atr,
     fetch_decodes env_relay_up client0 (world0 "" 0) atr /\
     ErrCode (Common atr) = 0 /\
     "7122c6639d12378195cae4237d5fd61e"%string = AccessToken atr /\
     world_fetched = fetched env_relay_up client0 atr (checked (world0 "" 0))).
Proof.
  apply (GetAccessToken_never_stale env_relay_up client0 (world0 "" 0)
           world_fetched "7122c6639d12378195cae4237d5fd61e").
  reflexivity.
Defined.

Lemma GetAccessToken_decode_failure_witness :
  exists w',
    run env_token_truncated (GetAccessToken client0) (world0 "stale" 200)
      = Some ((""%string,
               Some (ErrTokenRead (ErrRead (ErrLib "unexpected EOF")))), w') /\
    accessToken w' = accessToken (world0 "stale" 200) /\
    expireTime w' = expireTime (world0 "stale" 200) /\
    gets w' = gets (world0 "stale" 200) ++ [token_url client0].
Proof.
  apply (GetAccessToken_decode_failure env_token_truncated client0
           (world0 "stale" 200) response_truncated
           (ErrRead (ErrLib "unexpected EOF")));
    reflexivity.
Defined.

Lemma GetAccessToken_fetch_then_hits_witness :
  exists w',
    repeat_run env_relay_up (GetAccessToken client0) 4 (world0 "" 0)
      = Some (repeat (AccessToken (atr_ok 7200), None) 4, w') /\
    gets w' = gets (world0 "" 0) ++ [token_url client0].
Proof.
  apply (GetAccessToken_fetch_then_hits env_relay_up client0 (world0 "" 0)
           (atr_ok 7200) 3).
  - reflexivity.
  - reflexivity.
  - apply fetch_decodes_env0.
  - reflexivity.
  - discriminate.
  - split; vm_compute; discriminate.
  - intros i _. cbn. lia.
Defined.

Lemma GetAccessToken_refresh_on_expiry_witness :
  exists r w',
    repeat_run env_slow_clock (GetAccessToken client0) 2 (world0 "" 0)
      = Some ([(AccessToken (atr_ok 7200), None); r], w') /\
    gets w' = gets (world0 "" 0) ++ [token_url client0; token_url client0].
Proof.
  apply (GetAccessToken_refresh_on_expiry env_slow_clock client0 (world0 "" 0)
           (atr_ok 7200)).
  - reflexivity.
  - reflexivity.
  - exists response_ok, "{}"%string. repeat split.
  - reflexivity.
  - split; vm_compute; discriminate.
  - vm_compute. discriminate.
Defined.


Lemma SendMessageFromRobot_marshal_error_witness :
  run env_marshal_fails
    (SendMessageFromRobot rnd64 client0 "robot" "title" "text" ["A"; "B"]%string)
    (world0 "" 0)
  = Some ((None, Some (ErrMarshalMsg (ErrLib "json: unsupported value"))),
          world_fetched) /\
  posts world_fetched = posts (world0 "" 0) /\
  sleeps world_fetched = sleeps (world0 "" 0) /\
  logs world_fetched = logs (world0 "" 0).
Proof.
  apply (SendMessageFromRobot_marshal_error rnd64 env_marshal_fails client0
           "robot" "title" "text" ["A"; "B"]%string (world0 "" 0) world_fetched
           "7122c6639d12378195cae4237d5fd61e");
    reflexivity.
Defined.

Lemma SendMessageFromRobot_retry_cap_witness :
  exists resp err w' k f,
    run env_relay_down
      (SendMessageFromRobot rnd64 client0 "robot" "title" "text" ["A"; "B"]%string)
      (world0 "" 0)
      = Some ((resp, err), w') /\
    mutex w' = false /\
    List.length (posts w') = (List.length (posts (world0 "" 0)) + k)%nat /\
    List.length (sleeps w') = (List.length (sleeps (world0 "" 0)) + f)%nat /\
    List.length (logs w') = (List.length (logs (world0 "" 0)) + f)%nat /\
    (k <= 4)%nat /\
    (err <> None -> resp = None /\ (k = f /\ (k = 0 \/ k = 4))%nat) /\
    (err = None -> (resp = None /\ k = O /\ f = O) \/ (resp <> None /\ k = S f)).
Proof.
  apply (SendMessageFromRobot_retry_cap rnd64 env_relay_down client0
           "robot" "title" "text" ["A"; "B"]%string (world0 "" 0)).
  reflexivity.
Defined.

Lemma SendMessageFromRobot_retries_until_success_witness :
  exists ret w',
    run (env_relay_flaky 2)
      (SendMessageFromRobot rnd64 client0 "robot" "title" "text" ["A"; "B"]%string)
      (world0 "" 0)
      = Some ((Some ret, None), w') /\
    posts w'
      = posts (world0 "" 0)
        ++ repeat (relay_request "robot" "{title,text}"
                     "7122c6639d12378195cae4237d5fd61e"
                     (kept_recipients ["A"; "B"]%string)) 3 /\
    List.length (sleeps w') = (List.length (sleeps (world0 "" 0)) + 2)%nat /\
    List.length (logs w') = (List.length (logs (world0 "" 0)) + 2)%nat.
Proof.
  apply (SendMessageFromRobot_retries_until_success rnd64 (env_relay_flaky 2)
           client0 "robot" "title" "text" ["A"; "B"]%string (world0 "" 0)
           world_fetched "7122c6639d12378195cae4237d5fd61e" "{title,text}" 2).
  - reflexivity.
  - reflexivity.
  - discriminate.
  - lia.
  - intros i out Hi. destruct i as [| [| i]]; [discriminate | discriminate | lia].
  - reflexivity.
Defined.

Lemma SendMessageFromRobot_ignores_status_witness :
  run env_relay_500
    (SendMessageFromRobot rnd64 client0 "robot" "title" "text" ["A"; "B"]%string)
    (world0 "" 0)
  = Some ((Some zeroSendMsgByRobotResp, None),
          add_post (relay_request "robot" "{title,text}"
                      "7122c6639d12378195cae4237d5fd61e"
                      (kept_recipients ["A"; "B"]%string))
            world_fetched).
Proof.
  apply (SendMessageFromRobot_ignores_status rnd64 env_relay_500 client0
           "robot" "title" "text" ["A"; "B"]%string (world0 "" 0) world_fetched
           "7122c6639d12378195cae4237d5fd61e" "{title,text}" "{}"
           response_server_error zeroSendMsgByRobotResp);
    solve [reflexivity | discriminate].
Defined.

Lemma SendMessageFromRobot_keeps_short_list_witness :
  exists r w' k,
    run env_relay_up
      (SendMessageFromRobot rnd64 client0 "robot" "title" "text" ["A"; "B"]%string)
      (world0 "" 0)
      = Some (r, w') /\
    (1 <= k <= 4)%nat /\
    posts w'
      = posts (world0 "" 0)
        ++ repeat (relay_request "robot" "{title,text}"
                     "7122c6639d12378195cae4237d5fd61e" ["A"; "B"]%string) k.
Proof.
  apply (SendMessageFromRobot_keeps_short_list rnd64 env_relay_up client0
           "robot" "title" "text" ["A"; "B"]%string (world0 "" 0) world_fetched
           "7122c6639d12378195cae4237d5fd61e" "{title,text}").
  - reflexivity.
  - reflexivity.
  - cbn. lia.
Defined.

Lemma SendMessageFromRobot_sleeps_bounded_witness :
  exists r w' slept,
    run env_relay_down
      (SendMessageFromRobot rnd64 client0 "robot" "title" "text" ["A"; "B"]%string)
      (world0 "" 0)
      = Some (r, w') /\
    sleeps w' = sleeps (world0 "" 0) ++ slept /\
    (List.length slept <= 4)%nat /\
    Forall (fun delay => 0 <= delay <= 216000000000) slept.
Proof.
  apply (SendMessageFromRobot_sleeps_bounded env_relay_down client0
           "robot" "title" "text" ["A"; "B"]%string (world0 "" 0)).
  - reflexivity.
  - intros n. split; vm_compute; discriminate.
Defined.

(** ** Growth of the delay *)

Section BackoffGrowth.

Variable rnd : Q -> Q.
Hypothesis R : Rounding rnd.
Variable bc : Backoff.
Hypothesis WF : WellFormed rnd bc.
Hypothesis factor_ge_1 : (1 <= factor bc)%Q.


Lemma grow_stops (max b : Q) (n : nat) :
  Qltb b max = false -> grow rnd (factor bc) max b n = b.
Proof. intros H. destruct n; cbn; [| rewrite H]; reflexivity. Qed.

Lemma clamped_le_max (n : nat) (b : Q) :
  (clamped rnd bc n b <= float64_of_int rnd (MaxDelay bc))%Q.
Proof.
  unfold clamped. cbv zeta. destruct (Qltb _ _) eqn:H.
  - apply Qle_refl.
  - apply Qltb_false in H. exact H.
Qed.

Lemma clamped_at_max (n : nat) (b : Q) :
  Qltb b (float64_of_int rnd (MaxDelay bc)) = false ->
  (float64_of_int rnd (MaxDelay bc) <= clamped rnd bc n b)%Q.
Proof.
  intros H. unfold clamped. cbv zeta. rewrite (grow_stops _ _ _ H).
  destruct (Qltb _ b) eqn:H'; [apply Qle_refl |].
  apply Qltb_false in H. exact H.
Qed.

Lemma clamped_mono (n : nat) :
  forall b b' : Q, (b <= b')%Q -> (clamped rnd bc n b <= clamped rnd bc n b')%Q.
Proof.
  induction n as [| n IH]; intros b b' Hb.
  - unfold clamped. cbn.
    destruct (Qltb _ b) eqn:H1; destruct (Qltb _ b') eqn:H2;
      try apply Qltb_true in H1; try apply Qltb_false in H1;
      try apply Qltb_true in H2; try apply Qltb_false in H2; lra.
  - destruct (Qltb b' (float64_of_int rnd (MaxDelay bc))) eqn:H2.
    + assert (H1 : Qltb b (float64_of_int rnd (MaxDelay bc)) = true).
      { apply Qltb_true. apply Qltb_true in H2. lra. }
      unfold clamped. cbn. rewrite H1, H2.
      apply (IH (fmul rnd b (factor bc)) (fmul rnd b' (factor bc))).
      unfold fmul. apply (rnd_mono rnd R). nra.
    + apply Qle_trans with (float64_of_int rnd (MaxDelay bc)).
      * apply clamped_le_max.
      * apply clamped_at_max, H2.
Qed.

Lemma clamped_step (n : nat) (b : Q) :
  (rnd b == b)%Q -> (0 <= b)%Q -> (clamped rnd bc n b <= clamped rnd bc (S n) b)%Q.
Proof.
  intros Hfloat H0.
  destruct (Qltb b (float64_of_int rnd (MaxDelay bc))) eqn:H.
  - assert (Heq : clamped rnd bc (S n) b = clamped rnd bc n (fmul rnd b (factor bc))).
    { unfold clamped. cbn. rewrite H. reflexivity. }
    rewrite Heq. apply clamped_mono. unfold fmul.
    rewrite <- Hfloat at 1. apply (rnd_mono rnd R). nra.
  - unfold clamped. cbv zeta. rewrite !(grow_stops _ _ _ H). apply Qle_refl.
Qed.

Lemma nominal_clamped (retries : Z) :
  nominal rnd bc retries
  = clamped rnd bc (Z.to_nat retries) (float64_of_int rnd (baseDelay bc)).
Proof. reflexivity. Qed.

Lemma nominal_mono_nat (n n' : nat) :
  (n <= n')%nat ->
  (nominal rnd bc (Z.of_nat n) <= nominal rnd bc (Z.of_nat n'))%Q.
Proof.
  intros Hnat. rewrite !nominal_clamped, !Nat2Z.id.
  set (b := float64_of_int rnd (baseDelay bc)).
  assert (Hb : (b == inject_Z (baseDelay bc))%Q)
    by (apply (float_baseDelay rnd R bc WF)).
  assert (Hfloat : (rnd b == b)%Q).
  { rewrite Hb at 2. rewrite (rnd_proper rnd R _ _ Hb).
    apply (rnd_int rnd R). destruct WF as [Hbase Hm _ _].
    assert (2 ^ 52 <= 2 ^ 53) by (cbn; lia). lia. }
  assert (H0 : (0 <= b)%Q).
  { rewrite Hb. destruct WF as [Hbase _ _ _].
    change 0%Q with (inject_Z 0). rewrite <- Zle_Qle. lia. }
  induction Hnat as [| m _ IH]; [apply Qle_refl |].
  apply Qle_trans with (clamped rnd bc m b); [exact IH | apply clamped_step; assumption].
Qed.

(** X13. For a well-formed policy whose factor is at least 1, the delay
    before the jitter never shrinks as the retry counter grows. *)
Theorem nominal_monotone (retries retries' : Z) :
  retries <= retries' ->
  (nominal rnd bc retries <= nominal rnd bc retries')%Q.
Proof.
  intros Hle.
  assert (Hnat : (Z.to_nat retries <= Z.to_nat retries')%nat) by lia.
  pose proof (nominal_mono_nat _ _ Hnat) as H.
  rewrite !nominal_clamped, !Nat2Z.id in H. rewrite !nominal_clamped. exact H.
Qed.

End BackoffGrowth.

Lemma NewBackoff_factor_ge_1 : (1 <= factor (NewBackoff rnd64))%Q.
Proof. vm_compute. discriminate. Qed.

(** From 12 retries on, the delay of the default policy is the maximum before
    the jitter. *)
Lemma NewBackoff_saturates (retries : Z) :
  12 <= retries ->
  (nominal rnd64 (NewBackoff rnd64) retries == inject_Z 180000000000)%Q.
Proof.
  intros H. apply Qle_antisym.
  - apply (nominal_le_max rnd64 rnd64_Rounding (NewBackoff rnd64)
             NewBackoff_WellFormed).
  - apply Qle_trans with (nominal rnd64 (NewBackoff rnd64) 12).
    + vm_compute. discriminate.
    + pose proof (nominal_mono_nat rnd64 rnd64_Rounding (NewBackoff rnd64)
                    NewBackoff_WellFormed NewBackoff_factor_ge_1
                    12 (Z.to_nat retries) ltac:(lia)) as Hm.
      rewrite Z2Nat.id in Hm by lia. exact Hm.
Qed.

Section BackoffLower.

Variable rnd : Q -> Q.
Hypothesis R : Rounding rnd.
Variable bc : Backoff.
Hypothesis WF : WellFormed rnd bc.


Lemma jittered_lower (b r : Q) :
  (0 <= b <= inject_Z (MaxDelay bc))%Q -> (0 <= r <= 1)%Q ->
  Qfloor (fmul rnd b (least_multiplier rnd bc)) <= jittered rnd bc b r.
Proof.
  intros [Hb0 Hb] Hr. unfold jittered.
  pose proof (draw_bounds rnd R r Hr) as Hu.
  pose proof (multiplier_bounds rnd R bc WF _ Hu) as Hm.
  pose proof (bound_props rnd R bc WF) as [HB0 HB1].
  set (u := fsub rnd (fmul rnd r 2%Q) 1%Q) in *.
  set (m := fadd rnd 1%Q (fmul rnd (jitter bc) u)) in *.
  pose proof (wf_jitter rnd bc WF) as [Hj0 Hj1].
  pose proof (wf_max rnd bc WF) as Hmax.
  assert (Hleast : (0 <= least_multiplier rnd bc <= m)%Q).
  { unfold least_multiplier, m, fadd, fmul. split.
    - apply (rnd_ge_int rnd R 0); [cbn; lia |]. unfold inject_Z.
      assert (H : (-1 <= rnd (jitter bc * -1))%Q).
      { apply (rnd_ge_int rnd R (-1)); [cbn; lia |]. unfold inject_Z. lra. }
      lra.
    - apply (rnd_mono rnd R).
      assert (H : (rnd (jitter bc * -1) <= rnd (jitter bc * u))%Q).
      { apply (rnd_mono rnd R). destruct Hu as [Hu0 _]. nra. }
      lra. }
  assert (Hx : (fmul rnd b (least_multiplier rnd bc) <= fmul rnd b m)%Q).
  { unfold fmul. apply (rnd_mono rnd R). nra. }
  assert (Hx0 : (0 <= fmul rnd b (least_multiplier rnd bc))%Q).
  { unfold fmul. apply (rnd_ge_int rnd R 0); [cbn; lia |]. unfold inject_Z. nra. }
  assert (Hxu : (fmul rnd b m <= inject_Z (2 * MaxDelay bc))%Q).
  { apply Qle_trans
      with (fmul rnd (float64_of_int rnd (MaxDelay bc)) (fadd rnd 1%Q (jitter bc)));
      [| exact HB1].
    unfold fmul. apply (rnd_mono rnd R).
    fold (float64_of_int rnd (MaxDelay bc)).
    rewrite (float_MaxDelay rnd R bc WF).
    apply (product_le rnd bc WF); [exact Hb | exact Hm]. }
  replace (Qltb (fmul rnd b m) 0) with false
    by (symmetry; apply Qltb_false; lra).
  destruct (int64_of_float_floor (fmul rnd b m) (2 * MaxDelay bc)) as (-> & _ & _).
  - split; lra.
  - unfold max_int64. assert (2 * 2 ^ 52 <= 2 ^ 63 - 1) by (cbn; lia). lia.
  - apply Qfloor_resp_le, Hx.
Qed.

(** X14. For a well-formed policy with a non-negative factor, a positive
    retry counter and a draw in [[0, 1]], the delay returned is at least the
    delay before the jitter times [1 - jitter], computed in float64 and
    truncated: the jitter lowers a delay by the jitter fraction at most. *)
Theorem Duration_lower_bound (env : Env) (retries : Z) (w : World) :
  (0 <= factor bc)%Q ->
  0 < retries ->
  (0 <= random env (draws w) <= 1)%Q ->
  exists delay w',
    run env (Duration rnd bc retries) w = Some (delay, w') /\
    Qfloor (fmul rnd (nominal rnd bc retries) (least_multiplier rnd bc)) <= delay.
Proof.
  intros Hf Hretries Hr.
  exists (jittered rnd bc (nominal rnd bc retries) (random env (draws w))), (draw w).
  rewrite run_Duration_jittered by exact Hretries.
  split; [reflexivity |].
  apply jittered_lower; [| exact Hr].
  split; [apply (nominal_nonneg rnd R bc WF), Hf | apply (nominal_le_max rnd R bc WF)].
Qed.

End BackoffLower.

(** X15. With the default policy and float64 rounding, from the twelfth
    retry on, every delay lies between 144 and 216 seconds: 180 seconds,
    20% less or more. *)
Theorem NewBackoff_Duration_saturated (env : Env) (retries : Z) (w : World) :
  12 <= retries ->
  (0 <= random env (draws w) <= 1)%Q ->
  exists delay w',
    run env (Duration rnd64 (NewBackoff rnd64) retries) w = Some (delay, w') /\
    144000000000 <= delay <= 216000000000.
Proof.
  intros Hretries Hr.
  exists (jittered rnd64 (NewBackoff rnd64) (nominal rnd64 (NewBackoff rnd64) retries)
            (random env (draws w))), (draw w).
  rewrite run_Duration_jittered by lia.
  split; [reflexivity |].
  pose proof (NewBackoff_saturates retries Hretries) as Hsat.
  split.
  - apply Z.le_trans
      with (Qfloor (fmul rnd64 (nominal rnd64 (NewBackoff rnd64) retries)
                      (fadd rnd64 1%Q (fmul rnd64 (jitter (NewBackoff rnd64)) (-1)%Q)))).
    + assert (Heq : (fmul rnd64 (nominal rnd64 (NewBackoff rnd64) retries)
                       (fadd rnd64 1 (fmul rnd64 (jitter (NewBackoff rnd64)) (-1)))
                     == fmul rnd64 (inject_Z 180000000000)
                          (fadd rnd64 1 (fmul rnd64 (jitter (NewBackoff rnd64)) (-1))))%Q).
      { unfold fmul at 1 3. apply (rnd_proper rnd64 rnd64_Rounding).
        rewrite Hsat. reflexivity. }
      rewrite Heq. vm_compute. discriminate.
    + apply (jittered_lower rnd64 rnd64_Rounding (NewBackoff rnd64)
               NewBackoff_WellFormed); [| exact Hr].
      rewrite Hsat. split; vm_compute; discriminate.
  - destruct (jittered_bounds rnd64 rnd64_Rounding (NewBackoff rnd64)
                NewBackoff_WellFormed
                (nominal rnd64 (NewBackoff rnd64) retries)
                (random env (draws w))) as [_ Hle].
    + apply nominal_le_max; [exact rnd64_Rounding | exact NewBackoff_WellFormed].
    + exact Hr.
    + rewrite NewBackoff_bound in Hle. rewrite <- Zle_Qle in Hle. exact Hle.
Qed.

(** *** Examples *)

Lemma nominal_monotone_witness :
  (nominal rnd64 (NewBackoff rnd64) 2 <= nominal rnd64 (NewBackoff rnd64) 5)%Q.
Proof.
  apply (nominal_monotone rnd64 rnd64_Rounding (NewBackoff rnd64)
           NewBackoff_WellFormed NewBackoff_factor_ge_1 2 5).
  lia.
Defined.

Lemma Duration_lower_bound_witness :
  exists delay w',
    run (env0 300 (1 # 4) (inr response_ok) (atr_ok 7200) (inr response_ok))
      (Duration rnd64 (NewBackoff rnd64) 3) (world0 "" 0) = Some (delay, w') /\
    Qfloor (fmul rnd64 (nominal rnd64 (NewBackoff rnd64) 3)
              (least_multiplier rnd64 (NewBackoff rnd64))) <= delay.
Proof.
  apply (Duration_lower_bound rnd64 rnd64_Rounding (NewBackoff rnd64)
           NewBackoff_WellFormed
           (env0 300 (1 # 4) (inr response_ok) (atr_ok 7200) (inr response_ok))
           3 (world0 "" 0)).
  - vm_compute. discriminate.
  - lia.
  - split; vm_compute; discriminate.
Defined.

Lemma NewBackoff_Duration_saturated_witness :
  exists delay w',
    run (env0 300 (1 # 4) (inr response_ok) (atr_ok 7200) (inr response_ok))
      (Duration rnd64 (NewBackoff rnd64) 1000) (world0 "" 0) = Some (delay, w') /\
    144000000000 <= delay <= 216000000000.
Proof.
  apply (NewBackoff_Duration_saturated
           (env0 300 (1 # 4) (inr response_ok) (atr_ok 7200) (inr response_ok))
           1000 (world0 "" 0)).
  - lia.
  - split; vm_compute; discriminate.
Defined.
(** * The directory and login operations *)

(** ** Running them *)

Lemma runApi_abind (env : ApiEnv) (A B : Type) (p : Api A) (f : A -> Api B)
  (w : ApiWorld) :
  runApi env (abind p f) w =
  match runApi env p w with
  | Returned a w' => runApi env (f a) w'
  | Panicked msg w' => Panicked msg w'
  | Blocked => Blocked
  end.
Proof.
  revert w. induction p as [a | X e k IH]; intros w; cbn.
  - reflexivity.
  - destruct (handleApi env e w) as [x w' | msg w' |]; auto.
Qed.

Lemma runApi_call (env : ApiEnv) (A : Type) (p : Prog A) (w : ApiWorld) :
  runApi env (call p) w =
  match run (base_env env) p (world w) with
  | Some (a, w') => Returned a (set_world w' w)
  | None => Blocked
  end.
Proof.
  revert w. induction p as [a | X e k IH]; intros w; cbn.
  - destruct w; reflexivity.
  - destruct (handle (base_env env) e (world w)) as [[x w'] |]; [| reflexivity].
    rewrite IH. cbn. destruct (run (base_env env) (k x) w') as [[a w''] |];
      reflexivity.
Qed.

(** [post] for a response type whose decoder is [decode]. *)
Lemma runApi_apiPost (env : ApiEnv) (T : Type)
  (unmarshal : string -> T -> ApiEvent (T * option error))
  (decode : string -> T -> T * option error)
  (url : string) (data : ApiData) (out : T) (w : ApiWorld) :
  (forall payload out w,
     handleApi env (unmarshal payload out) w = Returned (decode payload out) w) ->
  runApi env (apiPost url data unmarshal out) w =
  match new_request env url with
  | Some err => Returned (out, Some (ErrNewRequest err)) w
  | None =>
      Returned
        (api_post_outcome env decode (List.length (api_posts w)) url data out)
        (add_api_post url data w)
  end.
Proof.
  intros Hdec. unfold apiPost, api_post_outcome. cbn.
  destruct (new_request env url) as [e |]; [reflexivity |]. cbn.
  destruct (http_post env _ url data) as [err | resp]; [reflexivity |].
  destruct (Body resp) as [err | payload]; [reflexivity |].
  cbn. rewrite Hdec. destruct (decode payload out) as [out' [e |]]; reflexivity.
Qed.

Lemma handle_children (env : ApiEnv) (payload : string)
  (out : DepartmentChildrenResp.t) (w : ApiWorld) :
  handleApi env (UnmarshalDepartmentChildrenResp payload out) w
  = Returned (unmarshal_children env payload out) w.
Proof. reflexivity. Qed.

(** [GetChildrenDepartments] once it has the token [tok]. *)
Lemma runApi_GetChildrenDepartments (env : ApiEnv) (d : DingTalkClient)
  (deptID : Z) (w : ApiWorld) (tok : string) (w1 : World) :
  run (base_env env) (GetAccessToken d) (world w) = Some ((tok, None), w1) ->
  new_request env (fst (children_request tok deptID)) = None ->
  runApi env (GetChildrenDepartments d deptID) w =
  Returned
    (match
       api_post_outcome env (unmarshal_children env) (List.length (api_posts w))
         (fst (children_request tok deptID)) (snd (children_request tok deptID))
         DepartmentChildrenResp.zero
     with
     | (_, Some err) => ([], Some (ErrChildren deptID err))
     | (data, None) =>
         if ErrCode (DepartmentChildrenResp.Common data) =? 0
         then (children_of data, None)
         else ([], Some (ErrChildrenRejected
                           (ErrMsg (DepartmentChildrenResp.Common data))
                           (ErrCode (DepartmentChildrenResp.Common data))))
     end)
    (add_api_post (fst (children_request tok deptID))
       (snd (children_request tok deptID)) (set_world w1 w)).
Proof.
  intros Htok Hnew. unfold GetChildrenDepartments.
  rewrite runApi_abind, runApi_call, Htok. cbn [children_request fst snd] in *.
  rewrite runApi_abind.
  rewrite (runApi_apiPost env _ _ (unmarshal_children env)) by apply handle_children.
  rewrite Hnew. cbn [set_world api_posts].
  destruct (api_post_outcome _ _ _ _ _ _) as [data [e |]]; [reflexivity |].
  unfold children_of.
  destruct (ErrCode (DepartmentChildrenResp.Common data) =? 0); cbn;
    [| reflexivity].
  destruct (DepartmentChildrenResp.Result data); reflexivity.
Qed.

(** ** Walking the department tree *)

Lemma token_held_tick (env : Env) (w : World) :
  token_held env w -> token_held env (tick w).
Proof. intros (Hm & Hne & Hclk). repeat split; assumption. Qed.

Lemma token_held_hit (env : Env) (d : DingTalkClient) (w : World) :
  token_held env w ->
  run env (GetAccessToken d) w = Some ((accessToken w, None), tick w).
Proof.
  intros (Hm & Hne & Hclk). apply GetAccessToken_hit; [exact Hm |].
  unfold cache_valid. apply andb_true_intro. split.
  - apply negb_true_iff, String.eqb_neq, Hne.
  - apply Z.ltb_lt, Hclk.
Qed.

(** One request for the children of a department the directory serves. *)
Lemma runApi_children_served (env : ApiEnv) (d : DingTalkClient)
  (kids : Z -> list Z) (deptID : Z) (w : ApiWorld) :
  token_held (base_env env) (world w) ->
  serves_children env (accessToken (world w)) kids ->
  runApi env (GetChildrenDepartments d deptID) w
  = Returned (kids deptID, None)
      (add_api_post (fst (children_request (accessToken (world w)) deptID))
         (snd (children_request (accessToken (world w)) deptID))
         (set_world (tick (world w)) w)).
Proof.
  intros Hheld Hserved. destruct (Hserved deptID) as [Hnew Hpost].
  rewrite (runApi_GetChildrenDepartments env d deptID w _ _
             (token_held_hit _ d _ Hheld) Hnew).
  destruct (Hpost (List.length (api_posts w))) as (data & -> & Hcode & Hkids).
  rewrite Hcode, Hkids. reflexivity.
Qed.

Lemma height_subtrees (id : Z) (sub : list tree) (n : nat) :
  (height (T id sub) <= S n)%nat -> Forall (fun t => (height t <= n)%nat) sub.
Proof.
  cbn -[Nat.max]. induction sub as [| t sub IH]; cbn -[Nat.max]; intros H;
    constructor.
  - lia.
  - apply IH. lia.
Qed.

Lemma height_leaf (t : tree) : (height t <= 0)%nat -> subtrees t = [].
Proof. destruct t as [id [| s sub]]; cbn -[Nat.max]; [reflexivity | lia]. Qed.

Lemma shaped_subtrees (kids : Z -> list Z) (id : Z) (sub : list tree) :
  shaped kids (T id sub) -> kids id = map root sub /\ Forall (shaped kids) sub.
Proof.
  cbn. intros [Hk Hs]. split; [exact Hk |]. clear Hk.
  induction sub as [| t sub IH]; constructor; [apply Hs | apply IH, Hs].
Qed.

Lemma after_requests_nil (w : ApiWorld) : after_requests [] w = w.
Proof. destruct w. unfold after_requests. cbn. rewrite app_nil_r. reflexivity. Qed.

Lemma iter_tick_token (n : nat) (w : World) :
  accessToken (Nat.iter n tick w) = accessToken w.
Proof. induction n as [| n IH]; [reflexivity | exact IH]. Qed.

Lemma token_held_iter (env : Env) (n : nat) (w : World) :
  token_held env w -> token_held env (Nat.iter n tick w).
Proof.
  intros H. induction n as [| n IH]; [exact H | apply token_held_tick, IH].
Qed.

Lemma after_requests_app (l1 l2 : list Z) (w : ApiWorld) :
  after_requests l2 (after_requests l1 w) = after_requests (l1 ++ l2) w.
Proof.
  unfold after_requests. cbn [world api_posts printed].
  rewrite iter_tick_token, length_app, map_app, <- app_assoc.
  f_equal. rewrite Nat.add_comm. symmetry. apply Nat.iter_add.
Qed.

Lemma after_requests_one (deptID : Z) (w : ApiWorld) :
  add_api_post (fst (children_request (accessToken (world w)) deptID))
    (snd (children_request (accessToken (world w)) deptID))
    (set_world (tick (world w)) w)
  = after_requests [deptID] w.
Proof. reflexivity. Qed.

Section Walk.

Variables (env : ApiEnv) (d : DingTalkClient) (kids : Z -> list Z).

(** The loop over the roots of a forest, when the call on the children walks
    the forests below. *)
Lemma departmentsLoop_walks
  (again : list Z -> Api (list Z * option apiError)) (ids : list Z) :
  forall (ts : list tree) (data : list Z) (w : ApiWorld),
    token_held (base_env env) (world w) ->
    serves_children env (accessToken (world w)) kids ->
    Forall (shaped kids) ts ->
    Forall (fun t =>
              subtrees t <> [] ->
              forall w,
                token_held (base_env env) (world w) ->
                serves_children env (accessToken (world w)) kids ->
                runApi env (again (map root (subtrees t))) w
                = Returned (flat_map below (subtrees t), None)
                    (after_requests (flat_map preorder (subtrees t)) w)) ts ->
    runApi env (departmentsLoop again d ids (map root ts) data) w
    = Returned (data ++ flat_map below ts, None)
        (after_requests (flat_map preorder ts) w).
Proof.
  induction ts as [| t ts IH]; intros data w Hheld Hserved Hshape Hagain.
  - cbn. rewrite app_nil_r, after_requests_nil. reflexivity.
  - inversion Hshape as [| ? ? Ht Hts]; subst.
    inversion Hagain as [| ? ? Hrec Hrest]; subst.
    destruct t as [id sub]. apply shaped_subtrees in Ht as [Hk Hsub].
    cbn [map root departmentsLoop]. rewrite runApi_abind.
    rewrite (runApi_children_served env d kids id w Hheld Hserved).
    rewrite after_requests_one, Hk.
    assert (Hheld1 : token_held (base_env env) (world (after_requests [id] w))).
    { apply (token_held_iter _ 1), Hheld. }
    assert (Hserved1 :
              serves_children env (accessToken (world (after_requests [id] w))) kids).
    { exact Hserved. }
    destruct sub as [| s sub].
    + cbn [map List.length Nat.ltb Nat.leb].
      rewrite IH; try assumption.
      rewrite after_requests_app. cbn. rewrite !app_nil_r. reflexivity.
    + cbn [map List.length Nat.ltb Nat.leb]. rewrite runApi_abind.
      cbn [subtrees] in Hrec.
      change (root s :: map root sub) with (map root (s :: sub)).
      rewrite Hrec; [| discriminate | assumption | assumption].
      rewrite after_requests_app.
      rewrite IH; try assumption.
      * rewrite after_requests_app.
        cbn [flat_map below preorder app]. rewrite <- !app_assoc.
        reflexivity.
      * apply token_held_iter, Hheld.
      * unfold after_requests. cbn [world]. rewrite iter_tick_token.
        exact Hserved.
Qed.

Lemma GetDepartmentsByParent_walks_forest (fuel : nat) :
  forall (ts : list tree) (w : ApiWorld),
    token_held (base_env env) (world w) ->
    serves_children env (accessToken (world w)) kids ->
    Forall (shaped kids) ts ->
    Forall (fun t => (height t <= fuel)%nat) ts ->
    runApi env (GetDepartmentsByParent fuel d (map root ts)) w
    = Returned (flat_map below ts, None)
        (after_requests (flat_map preorder ts) w).
Proof.
  induction fuel as [| fuel IH]; intros ts w Hheld Hserved Hshape Hheight.
  - cbn [GetDepartmentsByParent].
    rewrite (departmentsLoop_walks _ _ ts [] w Hheld Hserved Hshape);
      [reflexivity |].
    apply Forall_forall. intros t Hin Hne.
    rewrite Forall_forall in Hheight. apply Hheight, height_leaf in Hin.
    contradiction.
  - cbn [GetDepartmentsByParent].
    rewrite (departmentsLoop_walks _ _ ts [] w Hheld Hserved Hshape);
      [reflexivity |].
    apply Forall_forall. intros [id sub] Hin _ w1 Hheld1 Hserved1.
    cbn [subtrees].
    rewrite Forall_forall in Hheight, Hshape.
    apply IH; try assumption.
    + apply (shaped_subtrees kids id sub), Hshape, Hin.
    + apply (height_subtrees id), Hheight, Hin.
Qed.

End Walk.

Lemma preorder_root (t : tree) : preorder t = root t :: descendants t.
Proof. destruct t; reflexivity. Qed.

Lemma below_forest (sub : list tree) :
  Forall (fun t => Permutation (below t) (descendants t)) sub ->
  Permutation (flat_map below sub ++ map root sub) (flat_map preorder sub).
Proof.
  induction 1 as [| s sub Hs _ IH]; [constructor |].
  cbn [flat_map map]. rewrite preorder_root. cbn [app].
  apply Permutation_sym, Permutation_cons_app.
  rewrite <- app_assoc.
  apply Permutation_app; apply Permutation_sym; assumption.
Qed.

Lemma below_descendants_height (n : nat) :
  forall t, (height t <= n)%nat -> Permutation (below t) (descendants t).
Proof.
  induction n as [| n IH]; intros [id sub] Hh.
  - apply height_leaf in Hh. cbn in Hh. subst sub. constructor.
  - apply below_forest. apply height_subtrees in Hh.
    eapply Forall_impl; [| exact Hh]. exact IH.
Qed.

Lemma below_descendants (ts : list tree) :
  Permutation (flat_map below ts) (flat_map descendants ts).
Proof.
  induction ts as [| t ts IH]; [constructor |].
  cbn. apply Permutation_app; [| exact IH].
  apply (below_descendants_height (height t)). lia.
Qed.

(** X16. For a directory that answers every request (error code 0) and a token
    that stays valid, [GetDepartmentsByParent] on the roots of any finite
    forest of the directory returns, once the recursion may go as deep as
    the forest is high, a nil error and the departments below the roots:
    for each root in turn, those below its children and then the children.
    Every department below a root is listed as often as it occurs in the
    forest.  One request is posted for each department of the forest,
    leaves included, each before those below it, and no token is fetched. *)
Theorem GetDepartmentsByParent_walks (env : ApiEnv) (d : DingTalkClient)
  (kids : Z -> list Z) (ts : list tree) (fuel : nat) (w : ApiWorld) :
  token_held (base_env env) (world w) ->
  serves_children env (accessToken (world w)) kids ->
  Forall (shaped kids) ts ->
  Forall (fun t => (height t <= fuel)%nat) ts ->
  exists data w',
    runApi env (GetDepartmentsByParent fuel d (map root ts)) w
      = Returned (data, None) w' /\
    data = flat_map below ts /\
    Permutation data (flat_map descendants ts) /\
    api_posts w'
      = api_posts w
        ++ map (children_request (accessToken (world w))) (flat_map preorder ts) /\
    gets (world w') = gets (world w).
Proof.
  intros Hheld Hserved Hshape Hheight.
  exists (flat_map below ts), (after_requests (flat_map preorder ts) w).
  split; [apply (GetDepartmentsByParent_walks_forest env d kids); assumption |].
  split; [reflexivity |].
  split; [apply below_descendants |].
  split; [reflexivity |].
  cbn. generalize (List.length (flat_map preorder ts)). intros n.
  induction n as [| n IH]; [reflexivity | exact IH].
Qed.

(** X17. [GetDepartmentNamesByParent] is [GetDepartmentsByParent]: in every
    environment and world the two do the same and return the same, the
    identifiers of the departments below, and no names. *)
Theorem GetDepartmentNamesByParent_same (fuel : nat) (d : DingTalkClient)
  (ids : list Z) :
  GetDepartmentNamesByParent fuel d ids = GetDepartmentsByParent fuel d ids.
Proof. destruct fuel; reflexivity. Qed.

(** ** A directory with a cycle *)

Lemma deep_less (kids : Z -> list Z) (n : nat) :
  forall id, deep kids (S n) id -> deep kids n id.
Proof.
  induction n as [| n IH]; intros id H; [exact I |].
  destruct H as (c & Hin & Hc). exists c. split; [exact Hin | apply IH, Hc].
Qed.

Lemma under_deep (kids : Z -> list Z) (p g : Z) (n : nat) :
  under kids p g -> deep kids n g -> deep kids (S n) p.
Proof.
  induction 1 as [p c Hin | p c g Hin _ IH]; intros Hg.
  - exists c. split; assumption.
  - apply deep_less. exists c. split; [exact Hin | apply IH, Hg].
Qed.

Lemma cycle_deep (kids : Z -> list Z) (id : Z) :
  under kids id id -> forall n, deep kids n id.
Proof.
  intros Hcycle. induction n as [| n IH]; [exact I |].
  apply (under_deep kids id id n Hcycle IH).
Qed.

Section Cycle.

Variables (env : ApiEnv) (d : DingTalkClient) (kids : Z -> list Z).

Lemma departmentsLoop_goes_on
  (again : list Z -> Api (list Z * option apiError)) (ids : list Z) :
  (forall children w,
     token_held (base_env env) (world w) ->
     serves_children env (accessToken (world w)) kids ->
     walk_goes_on env w (runApi env (again children) w)) ->
  forall (rest data : list Z) (w0 w : ApiWorld),
    token_held (base_env env) (world w) ->
    serves_children env (accessToken (world w0)) kids ->
    accessToken (world w) = accessToken (world w0) ->
    walk_goes_on env w0 (runApi env (departmentsLoop again d ids rest data) w).
Proof.
  intros Hagain. induction rest as [| deptId rest IH];
    intros data w0 w Hheld Hserved Htok.
  { cbn. split; assumption. }
  cbn [departmentsLoop]. rewrite runApi_abind.
  rewrite <- Htok in Hserved.
  rewrite (runApi_children_served env d kids deptId w Hheld Hserved).
  rewrite after_requests_one.
  assert (Hheld1 : token_held (base_env env) (world (after_requests [deptId] w))).
  { apply (token_held_iter _ 1), Hheld. }
  destruct (0 <? List.length (kids deptId))%nat.
  - rewrite runApi_abind.
    specialize (Hagain (kids deptId) (after_requests [deptId] w) Hheld1 Hserved).
    destruct (runApi env (again (kids deptId)) (after_requests [deptId] w))
      as [[cc [e |]] w2 | msg w2 |]; cbn in Hagain; try contradiction;
      [| exact I].
    destruct Hagain as [Hheld2 Htok2].
    apply IH; [assumption | | congruence].
    rewrite <- Htok. exact Hserved.
  - apply IH; [assumption | | assumption].
    rewrite <- Htok. exact Hserved.
Qed.

Lemma GetDepartmentsByParent_goes_on (fuel : nat) :
  forall (ids : list Z) (w : ApiWorld),
    token_held (base_env env) (world w) ->
    serves_children env (accessToken (world w)) kids ->
    walk_goes_on env w (runApi env (GetDepartmentsByParent fuel d ids) w).
Proof.
  induction fuel as [| fuel IH]; intros ids w Hheld Hserved;
    cbn [GetDepartmentsByParent];
    apply (departmentsLoop_goes_on _ ids); try assumption; try reflexivity.
Qed.

(** The loop does not return when the call on the children of one of the
    departments does not. *)
Lemma departmentsLoop_blocked
  (again : list Z -> Api (list Z * option apiError)) (ids : list Z) (id : Z) :
  kids id <> [] ->
  (forall children w,
     token_held (base_env env) (world w) ->
     serves_children env (accessToken (world w)) kids ->
     walk_goes_on env w (runApi env (again children) w)) ->
  (forall w,
     token_held (base_env env) (world w) ->
     serves_children env (accessToken (world w)) kids ->
     runApi env (again (kids id)) w = Blocked) ->
  forall (rest data : list Z) (w : ApiWorld),
    In id rest ->
    token_held (base_env env) (world w) ->
    serves_children env (accessToken (world w)) kids ->
    runApi env (departmentsLoop again d ids rest data) w = Blocked.
Proof.
  intros Hkids Hagain Hblocked.
  induction rest as [| deptId rest IH]; intros data w Hin Hheld Hserved;
    [contradiction |].
  cbn [departmentsLoop]. rewrite runApi_abind.
  rewrite (runApi_children_served env d kids deptId w Hheld Hserved).
  rewrite after_requests_one.
  assert (Hheld1 : token_held (base_env env) (world (after_requests [deptId] w))).
  { apply (token_held_iter _ 1), Hheld. }
  destruct Hin as [-> | Hin].
  - destruct (kids id) as [| c cs] eqn:Hk; [contradiction |].
    cbn [List.length Nat.ltb Nat.leb]. rewrite runApi_abind.
    rewrite Hblocked; [reflexivity | assumption | assumption].
  - destruct (0 <? List.length (kids deptId))%nat.
    + rewrite runApi_abind.
      specialize (Hagain (kids deptId) (after_requests [deptId] w) Hheld1 Hserved).
      destruct (runApi env (again (kids deptId)) (after_requests [deptId] w))
        as [[cc [e |]] w2 | msg w2 |]; cbn in Hagain; try contradiction;
        [| reflexivity].
      destruct Hagain as [Hheld2 Htok2].
      apply IH; [assumption | assumption |].
      rewrite Htok2. exact Hserved.
    + apply IH; assumption.
Qed.

Lemma GetDepartmentsByParent_too_deep (fuel : nat) :
  forall (ids : list Z) (id : Z) (w : ApiWorld),
    In id ids ->
    deep kids (S fuel) id ->
    token_held (base_env env) (world w) ->
    serves_children env (accessToken (world w)) kids ->
    runApi env (GetDepartmentsByParent fuel d ids) w = Blocked.
Proof.
  induction fuel as [| fuel IH]; intros ids id w Hin Hdeep Hheld Hserved;
    cbn [GetDepartmentsByParent]; destruct Hdeep as (c & Hc & Hdeep).
  - apply (departmentsLoop_blocked _ ids id); try assumption.
    + intros Hk. rewrite Hk in Hc. contradiction.
    + intros children w1 _ _. unfold adiverge. rewrite runApi_call. exact I.
    + intros w1 _ _. unfold adiverge. rewrite runApi_call. reflexivity.
  - apply (departmentsLoop_blocked _ ids id); try assumption.
    + intros Hk. rewrite Hk in Hc. contradiction.
    + intros children w1. apply GetDepartmentsByParent_goes_on.
    + intros w1 Hheld1 Hserved1. apply (IH (kids id) c); assumption.
Qed.

End Cycle.

(** X18. Nothing in [GetDepartmentsByParent] guards against a cycle: when the
    directory puts one of the departments asked for below itself, the call
    does not return, however deep the recursion may go. *)
Theorem GetDepartmentsByParent_cycle (env : ApiEnv) (d : DingTalkClient)
  (kids : Z -> list Z) (ids : list Z) (id : Z) (fuel : nat) (w : ApiWorld) :
  token_held (base_env env) (world w) ->
  serves_children env (accessToken (world w)) kids ->
  In id ids ->
  under kids id id ->
  runApi env (GetDepartmentsByParent fuel d ids) w = Blocked.
Proof.
  intros Hheld Hserved Hin Hcycle.
  apply (GetDepartmentsByParent_too_deep env d kids fuel ids id);
    try assumption.
  apply cycle_deep, Hcycle.
Qed.

(** ** GetDepartments and ForEach *)

Lemma handle_department (env : ApiEnv) (payload : string)
  (out : DepartmentResp.t) (w : ApiWorld) :
  handleApi env (UnmarshalDepartmentResp payload out) w
  = Returned (unmarshal_department env payload out) w.
Proof. reflexivity. Qed.

(** X19. With the mutex free, [GetDepartments] always returns, with a nil list
    whenever the error is not nil, after one POST at most; the request
    carries the language [en_US] when that is the language asked for and
    [zh_CN] for every other one. *)
Theorem GetDepartments_language (env : ApiEnv) (d : DingTalkClient)
  (deptID : Z) (language : Lang) (w : ApiWorld) :
  mutex (world w) = false ->
  exists list err w',
    runApi env (GetDepartments d deptID language) w = Returned (list, err) w' /\
    mutex (world w') = false /\
    (err <> None -> list = []) /\
    (api_posts w' = api_posts w \/
     exists tok lang,
       api_posts w'
       = api_posts w
         ++ [((domain ++ reqDept tok)%string,
              DataDepartmentReq (DepartmentReq.mk deptID lang))] /\
       (language = EnglishLanguage -> lang = EnglishLanguage) /\
       (language <> EnglishLanguage -> lang = ChineseLanguage)).
Proof.
  intros Hm.
  destruct (GetAccessToken_returns (base_env env) d (world w) Hm)
    as ([tok [e |]] & w1 & Htok & Hm1 & _);
    unfold GetDepartments; rewrite runApi_abind, runApi_call, Htok.
  { do 3 eexists. split; [reflexivity |]. repeat split; auto. }
  rewrite runApi_abind.
  rewrite (runApi_apiPost env _ _ (unmarshal_department env))
    by apply handle_department.
  destruct (new_request env _) as [e |].
  { do 3 eexists. split; [reflexivity |]. repeat split; auto. }
  assert (Hlang :
            (language = EnglishLanguage ->
             (if (language =? EnglishLanguage)%string then language
              else ChineseLanguage) = EnglishLanguage) /\
            (language <> EnglishLanguage ->
             (if (language =? EnglishLanguage)%string then language
              else ChineseLanguage) = ChineseLanguage)).
  { destruct (String.eqb_spec language EnglishLanguage) as [-> | Hne];
      split; intros H; congruence. }
  destruct (api_post_outcome _ _ _ _ _ _) as [data [e |]].
  { do 3 eexists. split; [reflexivity |].
    split; [exact Hm1 |]. split; [reflexivity |].
    right. do 2 eexists. split; [reflexivity | exact Hlang]. }
  destruct (negb (ErrCode (DepartmentResp.Common data) =? 0)).
  - do 3 eexists. split; [reflexivity |].
    split; [exact Hm1 |]. split; [reflexivity |].
    right. do 2 eexists. split; [reflexivity | exact Hlang].
  - do 3 eexists. split; [reflexivity |].
    split; [exact Hm1 |]. split; [congruence |].
    right. do 2 eexists. split; [reflexivity | exact Hlang].
Qed.

Lemma runApi_ForEach_app (env : ApiEnv) (E : Type)
  (fn : option DepartmentNameCnf.t -> Api (option E))
  (c1 c2 : DepartmentNameCnfCollection) :
  forall w,
    runApi env (ForEach (c1 ++ c2) fn) w =
    match runApi env (ForEach c1 fn) w with
    | Returned None w1 => runApi env (ForEach c2 fn) w1
    | o => o
    end.
Proof.
  induction c1 as [| item c1 IH]; intros w; [reflexivity |].
  cbn [app ForEach]. rewrite !runApi_abind.
  destruct (runApi env (fn item) w) as [[e |] w1 | msg w1 |]; try reflexivity.
  apply IH.
Qed.

(** X20. [ForEach] calls [fn] on the items in order and stops at the first
    error: when [fn] went through the items [c1] with no error and fails on
    the next item, [ForEach] returns that error in the world that call left,
    whatever items follow; [fn] is not called on them. *)
Theorem ForEach_stops_at_first_error (env : ApiEnv) (E : Type)
  (fn : option DepartmentNameCnf.t -> Api (option E))
  (c1 c2 : DepartmentNameCnfCollection) (item : option DepartmentNameCnf.t)
  (e : E) (w w1 w2 : ApiWorld) :
  runApi env (ForEach c1 fn) w = Returned None w1 ->
  runApi env (fn item) w1 = Returned (Some e) w2 ->
  runApi env (ForEach (c1 ++ item :: c2) fn) w = Returned (Some e) w2.
Proof.
  intros H1 Hitem. rewrite runApi_ForEach_app, H1.
  cbn [ForEach]. rewrite runApi_abind, Hitem. reflexivity.
Qed.

(** ** Listing the users of departments *)

Lemma handle_simple_users (env : ApiEnv) (payload : string)
  (out : SimpleUserResp.t) (w : ApiWorld) :
  handleApi env (UnmarshalSimpleUserResp payload out) w
  = Returned (unmarshal_simple_users env payload out) w.
Proof. reflexivity. Qed.

(** [GetSimpleUsers] once it has the token [tok]. *)
Lemma runApi_GetSimpleUsers (env : ApiEnv) (d : DingTalkClient)
  (req : SimpleUserReq.t) (w : ApiWorld) (tok : string) (w1 : World) :
  run (base_env env) (GetAccessToken d) (world w) = Some ((tok, None), w1) ->
  new_request env (fst (users_request tok req)) = None ->
  runApi env (GetSimpleUsers d req) w =
  Returned
    (match
       api_post_outcome env (unmarshal_simple_users env)
         (List.length (api_posts w))
         (fst (users_request tok req)) (snd (users_request tok req))
         SimpleUserResp.zero
     with
     | (_, Some err) => (None, Some (ErrSimpleUsers (SimpleUserReq.DeptID req) err))
     | (data, None) =>
         if ErrCode (SimpleUserResp.Common data) =? 0
         then (SimpleUserResp.Result data, None)
         else (None, Some (ErrSimpleUsersRejected
                             (ErrMsg (SimpleUserResp.Common data))
                             (ErrCode (SimpleUserResp.Common data))))
     end)
    (add_api_post (fst (users_request tok req)) (snd (users_request tok req))
       (set_world w1 w)).
Proof.
  intros Htok Hnew. unfold GetSimpleUsers.
  rewrite runApi_abind, runApi_call, Htok. cbn [users_request fst snd] in *.
  rewrite runApi_abind.
  rewrite (runApi_apiPost env _ _ (unmarshal_simple_users env))
    by apply handle_simple_users.
  rewrite Hnew. cbn [set_world api_posts].
  destruct (api_post_outcome _ _ _ _ _ _) as [data [e |]]; [reflexivity |].
  destruct (ErrCode (SimpleUserResp.Common data) =? 0); reflexivity.
Qed.

Lemma insertUsers_all (env : ApiEnv) (us : list SimpleUser.t) :
  forall (users : UserMap) (w : ApiWorld),
    runApi env (insertUsers (map Some us) users) w
    = Returned (assign_all us users) w.
Proof.
  induction us as [| u us IH]; intros users w; [reflexivity |]. apply IH.
Qed.

Lemma insertUsers_nil_entry (env : ApiEnv) (l : list (option SimpleUser.t)) :
  forall (users : UserMap) (w : ApiWorld),
    In None l ->
    runApi env (insertUsers l users) w = Panicked nilDereference w.
Proof.
  induction l as [| [u |] l IH]; intros users w Hin.
  - contradiction.
  - destruct Hin as [H | Hin]; [discriminate | apply IH, Hin].
  - reflexivity.
Qed.

Lemma map_set_keys (k : string) (v : SimpleUser.t) (users : UserMap) (x : string) :
  In x (map fst (map_set k v users)) -> x = k \/ In x (map fst users).
Proof.
  induction users as [| [k' v'] users IH]; cbn.
  - intros [H | []]. left. congruence.
  - destruct (String.eqb_spec k' k) as [-> | Hne]; cbn.
    + intros [H | H]; auto.
    + intros [H | H]; [auto |]. destruct (IH H); auto.
Qed.

Lemma map_set_keyed (u : SimpleUser.t) (users : UserMap) :
  keyed users -> keyed (map_set (SimpleUser.UserID u) u users).
Proof.
  intros [Hnd Hkey]. induction users as [| [k' v'] users IH]; cbn.
  - split; [repeat constructor; intros [] | repeat constructor].
  - inversion Hnd as [| ? ? Hnotin Hnd']; subst.
    inversion Hkey as [| ? ? Hk Hkey']; subst.
    destruct (String.eqb_spec k' (SimpleUser.UserID u)) as [-> | Hne].
    + split; [exact Hnd | constructor; [reflexivity | exact Hkey']].
    + destruct (IH Hnd' Hkey') as [IHnd IHkey]. split.
      * cbn. constructor; [| exact IHnd].
        intros Hin. apply map_set_keys in Hin as [H | H]; [| contradiction].
        apply Hne. exact H.
      * constructor; assumption.
Qed.

Lemma assign_all_keyed (us : list SimpleUser.t) :
  forall users, keyed users -> keyed (assign_all us users).
Proof.
  induction us as [| u us IH]; intros users H; [exact H |].
  apply IH, map_set_keyed, H.
Qed.

Lemma insertUsers_keyed (env : ApiEnv) (l : list (option SimpleUser.t)) :
  forall (users users' : UserMap) (w w' : ApiWorld),
    runApi env (insertUsers l users) w = Returned users' w' ->
    keyed users -> keyed users'.
Proof.
  induction l as [| [u |] l IH]; intros users users' w w' Hrun Hk.
  - cbn in Hrun. injection Hrun as <- _. exact Hk.
  - cbn [insertUsers] in Hrun. apply (IH _ _ _ _ Hrun), map_set_keyed, Hk.
  - discriminate Hrun.
Qed.

Lemma userPages_keyed (env : ApiEnv) (d : DingTalkClient) (dept : Z) (fuel : nat) :
  forall (cursor : Z) (users users' : UserMap) (w w' : ApiWorld),
    runApi env (userPages fuel d dept cursor users) w
      = Returned (users', None) w' ->
    keyed users -> keyed users'.
Proof.
  induction fuel as [| fuel IH]; intros cursor users users' w w' Hrun Hk.
  - unfold userPages, adiverge in Hrun. rewrite runApi_call in Hrun.
    discriminate Hrun.
  - cbn [userPages] in Hrun. rewrite runApi_abind in Hrun.
    destruct (runApi env (GetSimpleUsers d _) w)
      as [[listRes [e |]] w1 | msg w1 |]; try discriminate Hrun.
    destruct listRes as [listRes |]; [| discriminate Hrun].
    rewrite runApi_abind in Hrun.
    destruct (runApi env (insertUsers _ users) w1)
      as [users1 w2 | msg w2 |] eqn:Hins; try discriminate Hrun.
    apply (insertUsers_keyed env _ _ _ _ _ Hins) in Hk.
    destruct (negb (ListSimpleUserRes.HasMore listRes)).
    + injection Hrun as <- _. exact Hk.
    + apply (IH _ _ _ _ _ Hrun Hk).
Qed.

Lemma userDepts_keyed (env : ApiEnv) (d : DingTalkClient) (fuel : nat)
  (depts : list Z) :
  forall (users users' : UserMap) (w w' : ApiWorld),
    runApi env (userDepts fuel d depts users) w = Returned (users', None) w' ->
    keyed users -> keyed users'.
Proof.
  induction depts as [| dept depts IH]; intros users users' w w' Hrun Hk.
  - injection Hrun as <- _. exact Hk.
  - cbn [userDepts] in Hrun. rewrite runApi_abind in Hrun.
    destruct (runApi env (userPages fuel d dept 0 users) w)
      as [[users1 [e |]] w1 | msg w1 |] eqn:Hpages; try discriminate Hrun.
    apply (IH _ _ _ _ Hrun). apply (userPages_keyed env d dept fuel _ _ _ _ _ Hpages Hk).
Qed.

Lemma keyed_ids (users : UserMap) :
  keyed users -> NoDup (map SimpleUser.UserID (map snd users)).
Proof.
  intros [Hnd Hkey]. rewrite map_map.
  replace (map (fun kv => SimpleUser.UserID (snd kv)) users) with (map fst users);
    [exact Hnd |].
  induction Hkey as [| kv users Hk _ IH]; [reflexivity |].
  cbn. rewrite Hk. f_equal. apply IH. inversion Hnd. assumption.
Qed.

(** X21. In every environment, the users [GetSimpleUserByDeptIDList] returns
    with a nil error have distinct [UserID]s, in whatever order the map is
    ranged over. *)
Theorem GetSimpleUserByDeptIDList_distinct (env : ApiEnv) (d : DingTalkClient)
  (fuel : nat) (depts : list Z) (w w' : ApiWorld) (data : list SimpleUser.t) :
  (forall users, Permutation (range_order env users) users) ->
  runApi env (GetSimpleUserByDeptIDList fuel d depts) w
    = Returned (data, None) w' ->
  NoDup (map SimpleUser.UserID data).
Proof.
  intros Hrange Hrun. unfold GetSimpleUserByDeptIDList in Hrun.
  rewrite runApi_abind in Hrun.
  destruct (runApi env (userDepts fuel d depts []) w)
    as [[users [e |]] w1 | msg w1 |] eqn:Hdepts; try discriminate Hrun.
  cbn in Hrun. injection Hrun as <- _.
  assert (Hk : keyed users).
  { apply (userDepts_keyed env d fuel depts _ _ _ _ Hdepts).
    split; constructor. }
  apply keyed_ids in Hk.
  eapply Permutation_NoDup; [| exact Hk].
  apply Permutation_map, Permutation_map, Permutation_sym, Hrange.
Qed.

Lemma keyed_value_key (users : UserMap) (u : SimpleUser.t) :
  keyed users -> In u (map snd users) -> In (SimpleUser.UserID u) (map fst users).
Proof.
  intros [_ Hkey] Hin. apply in_map_iff in Hin as ([k v] & <- & Hin).
  rewrite Forall_forall in Hkey. specialize (Hkey _ Hin). cbn in *.
  rewrite <- Hkey. apply (in_map fst _ _ Hin).
Qed.

Lemma In_map_set (u a : SimpleUser.t) (users : UserMap) :
  keyed users ->
  In u (map snd (map_set (SimpleUser.UserID a) a users)) <->
  u = a \/ (In u (map snd users) /\ SimpleUser.UserID u <> SimpleUser.UserID a).
Proof.
  induction users as [| [k' v'] users IH]; intros Hk.
  - cbn. split; [intros [H | []]; auto | intros [H | [[] _]]; auto].
  - assert (Hk' : keyed users).
    { destruct Hk as [Hnd Hkey]. inversion Hnd; inversion Hkey; subst.
      split; assumption. }
    assert (Hhead : k' = SimpleUser.UserID v' /\ ~ In k' (map fst users)).
    { destruct Hk as [Hnd Hkey]. inversion Hnd; inversion Hkey; subst. auto. }
    destruct Hhead as [Hv' Hnotin]. specialize (IH Hk').
    cbn [map_set]. destruct (String.eqb_spec k' (SimpleUser.UserID a)) as [He | Hne].
    + cbn [map snd]. split.
      * intros [H | H]; [left; congruence |].
        right. split; [right; exact H |].
        intros Heq. apply Hnotin. rewrite He, <- Heq.
        apply keyed_value_key; assumption.
      * intros [H | [[H | H] Hne]]; [left; congruence | | right; exact H].
        exfalso. apply Hne. congruence.
    + cbn [map snd]. split.
      * intros [H | H].
        -- right. split; [left; exact H |]. congruence.
        -- apply IH in H as [H | [H Hd]]; [left; exact H |].
           right. split; [right; exact H | exact Hd].
      * intros [H | [[H | H] Hd]].
        -- right. apply IH. left. exact H.
        -- left. exact H.
        -- right. apply IH. right. split; assumption.
Qed.

(** The values of the map after a run of assignments: of the users
    assigned, the last one with each [UserID]; of the values there before,
    those whose [UserID] was not assigned. *)
Lemma In_assign_all (us : list SimpleUser.t) :
  forall (users : UserMap) (u : SimpleUser.t),
    keyed users ->
    In u (map snd (assign_all us users)) <->
    (exists l1 l2,
       us = l1 ++ u :: l2 /\
       ~ In (SimpleUser.UserID u) (map SimpleUser.UserID l2)) \/
    (In u (map snd users) /\
     ~ In (SimpleUser.UserID u) (map SimpleUser.UserID us)).
Proof.
  induction us as [| a us IH]; intros users u Hk.
  - cbn. split.
    + intros H. right. split; [exact H | intros []].
    + intros [(l1 & l2 & H & _) | [H _]]; [| exact H].
      destruct l1; discriminate H.
  - change (assign_all (a :: us) users)
      with (assign_all us (map_set (SimpleUser.UserID a) a users)).
    rewrite (IH _ u (map_set_keyed a users Hk)), (In_map_set u a users Hk).
    split.
    + intros [(l1 & l2 & -> & Hl2) | [[-> | [Hin Hne]] Hnot]].
      * left. exists (a :: l1), l2. split; [reflexivity | exact Hl2].
      * left. exists [], us. split; [reflexivity | exact Hnot].
      * right. split; [exact Hin |]. cbn. intros [H | H]; [congruence | auto].
    + intros [(l1 & l2 & Heq & Hl2) | [Hin Hnot]].
      * destruct l1 as [| b l1]; cbn in Heq; injection Heq as -> ->.
        -- right. split; [left; reflexivity | exact Hl2].
        -- left. exists l1, l2. split; [reflexivity | exact Hl2].
      * right. cbn in Hnot. split.
        -- right. split; [exact Hin |]. intros H. apply Hnot. left. congruence.
        -- intros H. apply Hnot. right. exact H.
Qed.

Lemma after_posts_app (l1 l2 : list (string * ApiData)) (w : ApiWorld) :
  after_posts l2 (after_posts l1 w) = after_posts (l1 ++ l2) w.
Proof.
  unfold after_posts. cbn [world api_posts printed].
  rewrite length_app, <- app_assoc.
  f_equal. rewrite Nat.add_comm. symmetry. apply Nat.iter_add.
Qed.

Lemma after_posts_nil (w : ApiWorld) : after_posts [] w = w.
Proof. destruct w. unfold after_posts. cbn. rewrite app_nil_r. reflexivity. Qed.

Section Pages.

Variables (env : ApiEnv) (d : DingTalkClient)
  (page : Z -> Z -> ListSimpleUserRes.t) (tok : string).

Hypothesis served : serves_users env tok page.

(** One request for a page the directory serves. *)
Lemma runApi_page_served (dept cursor : Z) (w : ApiWorld) :
  token_held (base_env env) (world w) ->
  accessToken (world w) = tok ->
  runApi env (GetSimpleUsers d (page_request dept cursor)) w
  = Returned (Some (page dept cursor), None)
      (after_posts [users_request tok (page_request dept cursor)] w).
Proof.
  intros Hheld Htok. destruct (served dept cursor) as [Hnew Hpost].
  pose proof (token_held_hit _ d _ Hheld) as Hhit. rewrite Htok in Hhit.
  rewrite (runApi_GetSimpleUsers env d _ w _ _ Hhit Hnew).
  destruct (Hpost (List.length (api_posts w))) as (data & -> & Hcode & Hres).
  rewrite Hcode, Hres. reflexivity.
Qed.

Lemma userPages_served (dept : Z) (fuel : nat) :
  forall (cursor : Z) (users : UserMap) (w : ApiWorld) (us : list SimpleUser.t),
    token_held (base_env env) (world w) ->
    accessToken (world w) = tok ->
    ends_within page dept cursor fuel = true ->
    flat_map (fun cursor => ListSimpleUserRes.List (page dept cursor))
      (cursors page dept cursor fuel) = map Some us ->
    runApi env (userPages fuel d dept cursor users) w
    = Returned (assign_all us users, None)
        (after_posts
           (map (fun cursor => users_request tok (page_request dept cursor))
              (cursors page dept cursor fuel)) w).
Proof.
  induction fuel as [| fuel IH]; intros cursor users w us Hheld Htok Hend Hus;
    [discriminate Hend |].
  cbn [userPages]. rewrite runApi_abind.
  change (SimpleUserReq.mk dept cursor 100 EntryAsc false ChineseLanguage)
    with (page_request dept cursor).
  rewrite (runApi_page_served dept cursor w Hheld Htok).
  cbn [cursors ends_within flat_map map] in *.
  symmetry in Hus. apply map_eq_app in Hus as (us1 & us2 & -> & Hus1 & Hus2).
  rewrite runApi_abind, <- Hus1, insertUsers_all.
  destruct (ListSimpleUserRes.HasMore (page dept cursor)); cbn [negb orb] in *.
  - rewrite (IH _ _ _ us2).
    + rewrite after_posts_app. unfold assign_all. rewrite fold_left_app.
      reflexivity.
    + apply (token_held_iter _ 1), Hheld.
    + exact Htok.
    + exact Hend.
    + symmetry. exact Hus2.
  - destruct us2; [| discriminate Hus2]. rewrite app_nil_r. reflexivity.
Qed.

Lemma userDepts_served (fuel : nat) (depts : list Z) :
  forall (users : UserMap) (w : ApiWorld) (us : list SimpleUser.t),
    token_held (base_env env) (world w) ->
    accessToken (world w) = tok ->
    forallb (fun dept => ends_within page dept 0 fuel) depts = true ->
    users_listed page depts fuel = map Some us ->
    runApi env (userDepts fuel d depts users) w
    = Returned (assign_all us users, None)
        (after_posts (map (users_request tok) (pages_asked page depts fuel)) w).
Proof.
  induction depts as [| dept depts IH]; intros users w us Hheld Htok Hend Hus.
  - destruct us; [| discriminate Hus]. cbn. rewrite after_posts_nil.
    reflexivity.
  - cbn [forallb] in Hend. apply andb_prop in Hend as [Hend1 Hend].
    unfold users_listed in Hus. cbn [flat_map] in Hus.
    symmetry in Hus. apply map_eq_app in Hus as (us1 & us2 & -> & Hus1 & Hus2).
    cbn [userDepts]. rewrite runApi_abind.
    rewrite (userPages_served dept fuel 0 users w us1 Hheld Htok Hend1)
      by (symmetry; exact Hus1).
    rewrite (IH _ _ us2).
    + rewrite after_posts_app. unfold assign_all. rewrite fold_left_app.
      unfold pages_asked. cbn [flat_map]. rewrite map_app, map_map.
      reflexivity.
    + apply token_held_iter, Hheld.
    + unfold after_posts. cbn [world]. rewrite iter_tick_token. exact Htok.
    + exact Hend.
    + symmetry. exact Hus2.
Qed.

End Pages.

(** X22. For a directory that answers every request and whose pages end, and a
    token that stays valid, [GetSimpleUserByDeptIDList] asks for the pages
    of each department in turn, from cursor 0 and then from the cursor each
    page names, until a page has no more.  It returns, with a nil error and
    distinct [UserID]s, exactly the users listed, and of two users listed
    with the same [UserID] the one listed last. *)
Theorem GetSimpleUserByDeptIDList_collects (env : ApiEnv) (d : DingTalkClient)
  (page : Z -> Z -> ListSimpleUserRes.t) (depts : list Z) (fuel : nat)
  (us : list SimpleUser.t) (w : ApiWorld) :
  token_held (base_env env) (world w) ->
  serves_users env (accessToken (world w)) page ->
  (forall users, Permutation (range_order env users) users) ->
  forallb (fun dept => ends_within page dept 0 fuel) depts = true ->
  users_listed page depts fuel = map Some us ->
  exists data w',
    runApi env (GetSimpleUserByDeptIDList fuel d depts) w
      = Returned (data, None) w' /\
    api_posts w'
      = api_posts w
        ++ map (users_request (accessToken (world w)))
             (pages_asked page depts fuel) /\
    NoDup (map SimpleUser.UserID data) /\
    forall u,
      In u data <->
      exists l1 l2,
        us = l1 ++ u :: l2 /\
        ~ In (SimpleUser.UserID u) (map SimpleUser.UserID l2).
Proof.
  intros Hheld Hserved Hrange Hend Hus.
  assert (Hk0 : keyed []) by (split; constructor).
  unfold GetSimpleUserByDeptIDList.
  exists (map snd (range_order env (assign_all us []))).
  eexists. rewrite runApi_abind.
  rewrite (userDepts_served env d page _ Hserved fuel depts [] w us Hheld
             eq_refl Hend Hus).
  split; [reflexivity |]. split; [reflexivity |]. split.
  - eapply Permutation_NoDup.
    + apply Permutation_map, Permutation_map, Permutation_sym, Hrange.
    + apply keyed_ids, assign_all_keyed, Hk0.
  - intros u.
    assert (Hperm : In u (map snd (range_order env (assign_all us [])))
                    <-> In u (map snd (assign_all us []))).
    { split; apply Permutation_in, Permutation_map;
        [apply Hrange | apply Permutation_sym, Hrange]. }
    rewrite Hperm, (In_assign_all us [] u Hk0). split.
    + intros [H | [[] _]]. exact H.
    + intros H. left. exact H.
Qed.

(** X23. [GetSimpleUserByDeptIDList] dereferences what it is given: when the
    first answer decodes with error code 0 and no result, or with a nil
    entry in the list, the call panics, after that one POST. *)
Theorem GetSimpleUserByDeptIDList_nil_panics (env : ApiEnv) (d : DingTalkClient)
  (fuel : nat) (dept : Z) (depts : list Z) (w : ApiWorld) (tok : string)
  (w1 : World) (data : SimpleUserResp.t) :
  run (base_env env) (GetAccessToken d) (world w) = Some ((tok, None), w1) ->
  new_request env (fst (users_request tok (page_request dept 0))) = None ->
  api_post_outcome env (unmarshal_simple_users env) (List.length (api_posts w))
    (fst (users_request tok (page_request dept 0)))
    (snd (users_request tok (page_request dept 0)))
    SimpleUserResp.zero = (data, None) ->
  ErrCode (SimpleUserResp.Common data) = 0 ->
  SimpleUserResp.Result data = None \/
  (exists listRes,
     SimpleUserResp.Result data = Some listRes /\
     In None (ListSimpleUserRes.List listRes)) ->
  exists w',
    runApi env (GetSimpleUserByDeptIDList (S fuel) d (dept :: depts)) w
      = Panicked nilDereference w' /\
    api_posts w' = api_posts w ++ [users_request tok (page_request dept 0)].
Proof.
  intros Htok Hnew Hpost Hcode Hnil.
  unfold GetSimpleUserByDeptIDList. rewrite runApi_abind.
  cbn [userDepts userPages]. rewrite !runApi_abind.
  change (SimpleUserReq.mk dept 0 100 EntryAsc false ChineseLanguage)
    with (page_request dept 0).
  rewrite (runApi_GetSimpleUsers env d _ w tok w1 Htok Hnew), Hpost, Hcode.
  cbn [Z.eqb].
  destruct Hnil as [-> | (listRes & -> & Hin)].
  - eexists. split; reflexivity.
  - rewrite runApi_abind, (insertUsers_nil_entry env _ _ _ Hin).
    eexists. split; reflexivity.
Qed.

(** ** Logging in with a scanned code *)

Lemma handle_sns (env : ApiEnv) (payload : string) (out : SnsResponse.t)
  (w : ApiWorld) :
  handleApi env (UnmarshalSnsResponse payload out) w
  = Returned (unmarshal_sns env payload out) w.
Proof. reflexivity. Qed.

Lemma handle_user_id (env : ApiEnv) (payload : string) (out : UserIDResponse.t)
  (w : ApiWorld) :
  handleApi env (UnmarshalUserIDResponse payload out) w
  = Returned (unmarshal_user_id env payload out) w.
Proof. reflexivity. Qed.

(** [GetUserUnionIDByCode] up to the request. *)
Lemma runApi_GetUserUnionIDByCode (env : ApiEnv) (d : DingTalkClient)
  (tmpCode : string) (w : ApiWorld) :
  runApi env (GetUserUnionIDByCode d tmpCode) w =
  match new_request env (sns_url env d w) with
  | Some err =>
      Returned (None, Some (ErrSns (ErrNewRequest err)))
        (add_printed (PrintString (sns_url env d w))
           (set_world (tick (world w)) w))
  | None =>
      match
        api_post_outcome env (unmarshal_sns env) (List.length (api_posts w))
          (sns_url env d w) (DataSnsRequest (SnsRequest.mk tmpCode))
          SnsResponse.zero
      with
      | (_, Some err) =>
          Returned (None, Some (ErrSns err))
            (add_api_post (sns_url env d w)
               (DataSnsRequest (SnsRequest.mk tmpCode))
               (add_printed (PrintString (sns_url env d w))
                  (set_world (tick (world w)) w)))
      | (data, None) =>
          if ErrCode (SnsResponse.Common data) >? 0 then
            Returned
              (None, Some (ErrRemote (ErrMsg (SnsResponse.Common data))
                             (ErrCode (SnsResponse.Common data))))
              (add_printed (PrintSnsResponse data)
                 (add_api_post (sns_url env d w)
                    (DataSnsRequest (SnsRequest.mk tmpCode))
                    (add_printed (PrintString (sns_url env d w))
                       (set_world (tick (world w)) w))))
          else
            Returned (SnsResponse.UserInfo data, None)
              (add_printed (PrintSnsUserInfo (SnsResponse.UserInfo data))
                 (add_api_post (sns_url env d w)
                    (DataSnsRequest (SnsRequest.mk tmpCode))
                    (add_printed (PrintString (sns_url env d w))
                       (set_world (tick (world w)) w))))
      end
  end.
Proof.
  unfold GetUserUnionIDByCode.
  cbn [abind atrigger runApi handleApi handle].
  fold (sns_timestamp env w). fold (sns_url env d w).
  rewrite runApi_abind.
  rewrite (runApi_apiPost env _ _ (unmarshal_sns env)) by apply handle_sns.
  destruct (new_request env (sns_url env d w)) as [e |]; [reflexivity |].
  cbn [add_printed set_world api_posts].
  destruct (api_post_outcome _ _ _ _ _ _) as [data [e |]]; [reflexivity |].
  destruct (ErrCode (SnsResponse.Common data) >? 0); reflexivity.
Qed.


(** X25. The test of line 459 is [ErrCode > 0]: an answer with a zero or
    negative error code is a success, and [GetUserUnionIDByCode] returns its
    user info, nil if there is none, with a nil error. *)
Theorem GetUserUnionIDByCode_nonpositive_errcode (env : ApiEnv)
  (d : DingTalkClient) (tmpCode : string) (w : ApiWorld) (data : SnsResponse.t) :
  new_request env (sns_url env d w) = None ->
  api_post_outcome env (unmarshal_sns env) (List.length (api_posts w))
    (sns_url env d w) (DataSnsRequest (SnsRequest.mk tmpCode))
    SnsResponse.zero = (data, None) ->
  ErrCode (SnsResponse.Common data) <= 0 ->
  exists w',
    runApi env (GetUserUnionIDByCode d tmpCode) w
      = Returned (SnsResponse.UserInfo data, None) w' /\
    printed w'
    = printed w
      ++ [PrintString (sns_url env d w);
          PrintSnsUserInfo (SnsResponse.UserInfo data)].
Proof.
  intros Hnew Hpost Hcode.
  rewrite runApi_GetUserUnionIDByCode, Hnew, Hpost.
  replace (ErrCode (SnsResponse.Common data) >? 0) with false
    by (symmetry; rewrite Z.gtb_ltb; apply Z.ltb_ge; exact Hcode).
  eexists. split; [reflexivity |]. cbn. rewrite <- app_assoc. reflexivity.
Qed.

(** [GetUserIDByUnionID] once it has the token [tok]. *)
Lemma runApi_GetUserIDByUnionID (env : ApiEnv) (d : DingTalkClient)
  (unionID : string) (w : ApiWorld) (tok : string) (w1 : World) :
  run (base_env env) (GetAccessToken d) (world w) = Some ((tok, None), w1) ->
  new_request env (fst (union_request tok unionID)) = None ->
  runApi env (GetUserIDByUnionID d unionID) w =
  match
    api_post_outcome env (unmarshal_user_id env) (List.length (api_posts w))
      (fst (union_request tok unionID)) (snd (union_request tok unionID))
      UserIDResponse.zero
  with
  | (_, Some err) =>
      Returned (""%string, Some err)
        (add_api_post (fst (union_request tok unionID))
           (snd (union_request tok unionID)) (set_world w1 w))
  | (data, None) =>
      if ErrCode (UserIDResponse.Common data) >? 0 then
        Returned
          (""%string,
           Some (ErrRemote (ErrMsg (UserIDResponse.Common data))
                   (ErrCode (UserIDResponse.Common data))))
          (add_printed (PrintUserIDResponse data)
             (add_api_post (fst (union_request tok unionID))
                (snd (union_request tok unionID)) (set_world w1 w)))
      else
        match UserIDResponse.Result data with
        | None =>
            Panicked nilDereference
              (add_api_post (fst (union_request tok unionID))
                 (snd (union_request tok unionID)) (set_world w1 w))
        | Some result =>
            Returned (UserGetByUnionIdResponse.UserID result, None)
              (add_api_post (fst (union_request tok unionID))
                 (snd (union_request tok unionID)) (set_world w1 w))
        end
  end.
Proof.
  intros Htok Hnew. unfold GetUserIDByUnionID.
  rewrite runApi_abind, runApi_call, Htok. cbn [union_request fst snd] in *.
  rewrite runApi_abind.
  rewrite (runApi_apiPost env _ _ (unmarshal_user_id env))
    by apply handle_user_id.
  rewrite Hnew. cbn [set_world api_posts].
  destruct (api_post_outcome _ _ _ _ _ _) as [data [e |]]; [reflexivity |].
  destruct (ErrCode (UserIDResponse.Common data) >? 0); [reflexivity |].
  destruct (UserIDResponse.Result data); reflexivity.
Qed.

(** X26. [GetUserIDByUnionID] dereferences [data.Result] whenever the error
    code is not positive: an answer with a zero or negative error code and
    no result makes the call panic, after the POST. *)
Theorem GetUserIDByUnionID_nil_result_panics (env : ApiEnv)
  (d : DingTalkClient) (unionID : string) (w : ApiWorld) (tok : string)
  (w1 : World) (data : UserIDResponse.t) :
  run (base_env env) (GetAccessToken d) (world w) = Some ((tok, None), w1) ->
  new_request env (fst (union_request tok unionID)) = None ->
  api_post_outcome env (unmarshal_user_id env) (List.length (api_posts w))
    (fst (union_request tok unionID)) (snd (union_request tok unionID))
    UserIDResponse.zero = (data, None) ->
  ErrCode (UserIDResponse.Common data) <= 0 ->
  UserIDResponse.Result data = None ->
  exists w',
    runApi env (GetUserIDByUnionID d unionID) w = Panicked nilDereference w' /\
    api_posts w' = api_posts w ++ [union_request tok unionID].
Proof.
  intros Htok Hnew Hpost Hcode Hres.
  rewrite (runApi_GetUserIDByUnionID env d unionID w tok w1 Htok Hnew), Hpost.
  replace (ErrCode (UserIDResponse.Common data) >? 0) with false
    by (symmetry; rewrite Z.gtb_ltb; apply Z.ltb_ge; exact Hcode).
  rewrite Hres. eexists. split; reflexivity.
Qed.

(** X27. When both services answer, [GetUserIDFromScanQrCode] returns the
    [UserID] of the second answer: it posts the temporary code to the signed
    URL, then acquires the token and posts the [UnionID] of the first answer
    to the union-id URL. *)
Theorem GetUserIDFromScanQrCode_success (env : ApiEnv) (d : DingTalkClient)
  (tmpCode : string) (w : ApiWorld) (sns : SnsResponse.t)
  (info : SnsUserInfo.t) (tok : string) (w1 : World) (data : UserIDResponse.t)
  (result : UserGetByUnionIdResponse.t) :
  new_request env (sns_url env d w) = None ->
  api_post_outcome env (unmarshal_sns env) (List.length (api_posts w))
    (sns_url env d w) (DataSnsRequest (SnsRequest.mk tmpCode))
    SnsResponse.zero = (sns, None) ->
  ErrCode (SnsResponse.Common sns) <= 0 ->
  SnsResponse.UserInfo sns = Some info ->
  run (base_env env) (GetAccessToken d) (tick (world w)) = Some ((tok, None), w1) ->
  new_request env (fst (union_request tok (SnsUserInfo.UnionID info))) = None ->
  api_post_outcome env (unmarshal_user_id env) (S (List.length (api_posts w)))
    (fst (union_request tok (SnsUserInfo.UnionID info)))
    (snd (union_request tok (SnsUserInfo.UnionID info)))
    UserIDResponse.zero = (data, None) ->
  ErrCode (UserIDResponse.Common data) <= 0 ->
  UserIDResponse.Result data = Some result ->
  exists w',
    runApi env (GetUserIDFromScanQrCode d tmpCode) w
      = Returned (UserGetByUnionIdResponse.UserID result, None) w' /\
    world w' = w1 /\
    api_posts w'
    = api_posts w
      ++ [(sns_url env d w, DataSnsRequest (SnsRequest.mk tmpCode));
          union_request tok (SnsUserInfo.UnionID info)].
Proof.
  intros Hnew1 Hpost1 Hcode1 Hinfo Htok Hnew2 Hpost2 Hcode2 Hres.
  unfold GetUserIDFromScanQrCode.
  rewrite runApi_abind, runApi_GetUserUnionIDByCode, Hnew1, Hpost1.
  replace (ErrCode (SnsResponse.Common sns) >? 0) with false
    by (symmetry; rewrite Z.gtb_ltb; apply Z.ltb_ge; exact Hcode1).
  rewrite Hinfo, runApi_abind.
  match goal with |- context [runApi env (GetUserIDByUnionID _ _) ?x] => set (w2 := x) end.
  assert (Hlen : List.length (api_posts w2) = S (List.length (api_posts w))).
  { subst w2. cbn. rewrite length_app. cbn. lia. }
  rewrite (runApi_GetUserIDByUnionID env d _ w2 tok w1 Htok Hnew2), Hlen, Hpost2.
  replace (ErrCode (UserIDResponse.Common data) >? 0) with false
    by (symmetry; rewrite Z.gtb_ltb; apply Z.ltb_ge; exact Hcode2).
  rewrite Hres. eexists. split; [reflexivity |]. split; [reflexivity |].
  subst w2. cbn. rewrite <- app_assoc. reflexivity.
Qed.

(** X28. When the first answer carries no user info and an error code that is
    not positive, [GetUserIDFromScanQrCode] returns the invalid-UnionID
    error after that one POST: the token is not acquired and no second
    request is made. *)
Theorem GetUserIDFromScanQrCode_no_user_info (env : ApiEnv)
  (d : DingTalkClient) (tmpCode : string) (w : ApiWorld) (sns : SnsResponse.t) :
  new_request env (sns_url env d w) = None ->
  api_post_outcome env (unmarshal_sns env) (List.length (api_posts w))
    (sns_url env d w) (DataSnsRequest (SnsRequest.mk tmpCode))
    SnsResponse.zero = (sns, None) ->
  ErrCode (SnsResponse.Common sns) <= 0 ->
  SnsResponse.UserInfo sns = None ->
  exists w',
    runApi env (GetUserIDFromScanQrCode d tmpCode) w
      = Returned (""%string, Some ErrInvalidUnionID) w' /\
    world w' = tick (world w) /\
    api_posts w'
    = api_posts w ++ [(sns_url env d w, DataSnsRequest (SnsRequest.mk tmpCode))].
Proof.
  intros Hnew Hpost Hcode Hinfo.
  unfold GetUserIDFromScanQrCode.
  rewrite runApi_abind, runApi_GetUserUnionIDByCode, Hnew, Hpost.
  replace (ErrCode (SnsResponse.Common sns) >? 0) with false
    by (symmetry; rewrite Z.gtb_ltb; apply Z.ltb_ge; exact Hcode).
  rewrite Hinfo. eexists. split; [reflexivity |]. split; reflexivity.
Qed.

(** ** GetProcessCode *)

Lemma handle_process_code (env : ApiEnv) (payload : string)
  (out : ProcessCodeResult.t) (w : ApiWorld) :
  handleApi env (UnmarshalProcessCodeResult payload out) w
  = Returned (unmarshal_process_code env payload out) w.
Proof. reflexivity. Qed.

(** [GetProcessCode] once it has the token [tok]. *)
Lemma runApi_GetProcessCode (env : ApiEnv) (d : DingTalkClient) (w : ApiWorld)
  (tok : string) (w1 : World) :
  run (base_env env) (GetAccessToken d) (world w) = Some ((tok, None), w1) ->
  new_request env (fst (process_code_request tok)) = None ->
  runApi env (GetProcessCode d) w =
  match
    api_post_outcome env (unmarshal_process_code env)
      (List.length (api_posts w)) (fst (process_code_request tok))
      (snd (process_code_request tok)) ProcessCodeResult.zero
  with
  | (data, Some _) =>
      Returned
        (Some (ErrProcessCode (ErrMsg (ProcessCodeResult.Common data))
                 (ErrCode (ProcessCodeResult.Common data))))
        (add_api_post (fst (process_code_request tok))
           (snd (process_code_request tok)) (set_world w1 w))
  | (data, None) =>
      Returned None
        (add_printed (PrintString (ProcessCodeResult.Code data))
           (add_api_post (fst (process_code_request tok))
              (snd (process_code_request tok)) (set_world w1 w)))
  end.
Proof.
  intros Htok Hnew. unfold GetProcessCode.
  rewrite runApi_abind, runApi_call, Htok.
  cbn [process_code_request fst snd] in *. rewrite runApi_abind.
  rewrite (runApi_apiPost env _ _ (unmarshal_process_code env))
    by apply handle_process_code.
  rewrite Hnew. cbn [set_world api_posts].
  destruct (api_post_outcome _ _ _ _ _ _) as [data [e |]]; reflexivity.
Qed.

(** X29. [GetProcessCode] never looks at the error code of the answer: whenever
    the answer decodes, whatever its error code, it prints the code decoded
    and returns a nil error. *)
Theorem GetProcessCode_ignores_errcode (env : ApiEnv) (d : DingTalkClient)
  (w : ApiWorld) (tok : string) (w1 : World) (data : ProcessCodeResult.t) :
  run (base_env env) (GetAccessToken d) (world w) = Some ((tok, None), w1) ->
  new_request env (fst (process_code_request tok)) = None ->
  api_post_outcome env (unmarshal_process_code env)
    (List.length (api_posts w)) (fst (process_code_request tok))
    (snd (process_code_request tok)) ProcessCodeResult.zero = (data, None) ->
  exists w',
    runApi env (GetProcessCode d) w = Returned None w' /\
    api_posts w' = api_posts w ++ [process_code_request tok] /\
    printed w' = printed w ++ [PrintString (ProcessCodeResult.Code data)].
Proof.
  intros Htok Hnew Hpost.
  rewrite (runApi_GetProcessCode env d w tok w1 Htok Hnew), Hpost.
  eexists. repeat split.
Qed.

(** X30. When the request of [GetProcessCode] fails in transport, the error
    returned is built from the response object, which is still the zero
    value: it carries an empty message and the code 0, and not the cause. *)
Theorem GetProcessCode_drops_cause (env : ApiEnv) (d : DingTalkClient)
  (w : ApiWorld) (tok : string) (w1 : World) (e : error) :
  run (base_env env) (GetAccessToken d) (world w) = Some ((tok, None), w1) ->
  new_request env (fst (process_code_request tok)) = None ->
  http_post env (List.length (api_posts w)) (fst (process_code_request tok))
    (snd (process_code_request tok)) = inl e ->
  exists w',
    runApi env (GetProcessCode d) w
      = Returned (Some (ErrProcessCode "" 0)) w' /\
    api_posts w' = api_posts w ++ [process_code_request tok] /\
    printed w' = printed w.
Proof.
  intros Htok Hnew Hdo.
  rewrite (runApi_GetProcessCode env d w tok w1 Htok Hnew).
  unfold api_post_outcome. rewrite Hdo.
  eexists. repeat split.
Qed.

(** ** Examples *)

Lemma api_env0_token_held :
  token_held (base_env api_env0) (world api_world0).
Proof.
  split; [reflexivity |]. split; [discriminate |]. intros n. reflexivity.
Qed.

Lemma api_env0_serves_children :
  serves_children api_env0 (accessToken (world api_world0)) kids0.
Proof.
  intros deptID. split; [reflexivity |]. intros n.
  exists (decode_children (children_payload deptID)). repeat split.
Qed.

Lemma api_env0_serves_users :
  serves_users api_env0 (accessToken (world api_world0)) page0.
Proof.
  intros dept cursor. split; [reflexivity |]. intros n.
  eexists. repeat split.
Qed.

Lemma api_env0_range (users : UserMap) :
  Permutation (range_order api_env0 users) users.
Proof. apply Permutation_sym, Permutation_rev. Qed.

Lemma GetDepartmentsByParent_walks_witness :
  exists data w',
    runApi api_env0 (GetDepartmentsByParent 2 client0 (map root [tree0]))
      api_world0 = Returned (data, None) w' /\
    data = flat_map below [tree0] /\
    Permutation data (flat_map descendants [tree0]) /\
    api_posts w'
      = api_posts api_world0
        ++ map (children_request (accessToken (world api_world0)))
             (flat_map preorder [tree0]) /\
    gets (world w') = gets (world api_world0).
Proof.
  apply (GetDepartmentsByParent_walks api_env0 client0 kids0 [tree0] 2
           api_world0).
  - apply api_env0_token_held.
  - apply api_env0_serves_children.
  - repeat constructor.
  - repeat constructor.
Defined.

Lemma GetDepartmentsByParent_cycle_witness :
  runApi api_env0 (GetDepartmentsByParent 1000 client0 [1; 7]) api_world0
  = Blocked.
Proof.
  apply (GetDepartmentsByParent_cycle api_env0 client0 kids0 [1; 7] 7 1000
           api_world0).
  - apply api_env0_token_held.
  - apply api_env0_serves_children.
  - right. left. reflexivity.
  - apply (under_below kids0 7 8 7); [left; reflexivity |].
    apply under_child. left. reflexivity.
Defined.

Lemma GetDepartments_language_witness :
  exists list err w',
    runApi api_env0 (GetDepartments client0 1 "ja_JP"%string) api_world0
      = Returned (list, err) w' /\
    mutex (world w') = false /\
    (err <> None -> list = []) /\
    (api_posts w' = api_posts api_world0 \/
     exists tok lang,
       api_posts w'
       = api_posts api_world0
         ++ [((domain ++ reqDept tok)%string,
              DataDepartmentReq (DepartmentReq.mk 1 lang))] /\
       ("ja_JP"%string = EnglishLanguage -> lang = EnglishLanguage) /\
       ("ja_JP"%string <> EnglishLanguage -> lang = ChineseLanguage)).
Proof.
  apply (GetDepartments_language api_env0 client0 1 "ja_JP"%string api_world0).
  reflexivity.
Defined.

Lemma ForEach_stops_at_first_error_witness :
  runApi api_env0
    (ForEach ([department 1 "board"] ++ department 2 "sales"
                :: [department 3 "support"]) print_until_2)
    api_world0
  = Returned (Some "stop"%string)
      (add_printed (PrintString "board") api_world0).
Proof.
  apply (ForEach_stops_at_first_error api_env0 string print_until_2
           [department 1 "board"] [department 3 "support"]
           (department 2 "sales") "stop"%string api_world0
           (add_printed (PrintString "board") api_world0)
           (add_printed (PrintString "board") api_world0));
    reflexivity.
Defined.

Lemma GetSimpleUserByDeptIDList_distinct_witness :
  NoDup (map SimpleUser.UserID [carol; bob20; alice]).
Proof.
  apply (GetSimpleUserByDeptIDList_distinct api_env0 client0 3 [10; 20]
           api_world0
           (after_posts
              (map (users_request (accessToken (world api_world0)))
                 (pages_asked page0 [10; 20] 3)) api_world0)
           [carol; bob20; alice]).
  - apply api_env0_range.
  - reflexivity.
Defined.

Lemma GetSimpleUserByDeptIDList_collects_witness :
  exists data w',
    runApi api_env0 (GetSimpleUserByDeptIDList 3 client0 [10; 20]) api_world0
      = Returned (data, None) w' /\
    api_posts w'
      = api_posts api_world0
        ++ map (users_request (accessToken (world api_world0)))
             (pages_asked page0 [10; 20] 3) /\
    NoDup (map SimpleUser.UserID data) /\
    forall u,
      In u data <->
      exists l1 l2,
        [alice; bob; carol; bob20] = l1 ++ u :: l2 /\
        ~ In (SimpleUser.UserID u) (map SimpleUser.UserID l2).
Proof.
  apply (GetSimpleUserByDeptIDList_collects api_env0 client0 page0 [10; 20] 3
           [alice; bob; carol; bob20] api_world0).
  - apply api_env0_token_held.
  - apply api_env0_serves_users.
  - apply api_env0_range.
  - reflexivity.
  - reflexivity.
Defined.

Lemma GetSimpleUserByDeptIDList_nil_panics_witness :
  exists w',
    runApi api_env_no_result (GetSimpleUserByDeptIDList 3 client0 [10; 20])
      api_world0 = Panicked nilDereference w' /\
    api_posts w'
    = api_posts api_world0
      ++ [users_request "7122c6639d12378195cae4237d5fd61e" (page_request 10 0)].
Proof.
  apply (GetSimpleUserByDeptIDList_nil_panics api_env_no_result client0 2 10
           [20] api_world0 "7122c6639d12378195cae4237d5fd61e"
           (tick world_fetched)
           (SimpleUserResp.mk (mkCommonResp 0 "ok" "") None)).
  - reflexivity.
  - reflexivity.
  - reflexivity.
  - reflexivity.
  - left. reflexivity.
Defined.

Lemma GetUserUnionIDByCode_nonpositive_errcode_witness :
  exists w',
    runApi api_env0 (GetUserUnionIDByCode client0 "a stale code") api_world0
      = Returned (None, None) w' /\
    printed w'
    = printed api_world0
      ++ [PrintString (sns_url api_env0 client0 api_world0);
          PrintSnsUserInfo None].
Proof.
  apply (GetUserUnionIDByCode_nonpositive_errcode api_env0 client0
           "a stale code" api_world0
           (SnsResponse.mk (mkCommonResp (-1) "system busy" "") None)).
  - reflexivity.
  - reflexivity.
  - cbn. lia.
Defined.

Lemma GetUserIDByUnionID_nil_result_panics_witness :
  exists w',
    runApi api_env0 (GetUserIDByUnionID client0 "union-nobody") api_world0
      = Panicked nilDereference w' /\
    api_posts w'
    = api_posts api_world0
      ++ [union_request "7122c6639d12378195cae4237d5fd61e" "union-nobody"].
Proof.
  apply (GetUserIDByUnionID_nil_result_panics api_env0 client0 "union-nobody"
           api_world0 "7122c6639d12378195cae4237d5fd61e" (tick world_fetched)
           (UserIDResponse.mk (mkCommonResp (-1) "system busy" "") None)).
  - reflexivity.
  - reflexivity.
  - reflexivity.
  - cbn. lia.
  - reflexivity.
Defined.

Lemma GetUserIDFromScanQrCode_success_witness :
  exists w',
    runApi api_env0 (GetUserIDFromScanQrCode client0 "code of alice") api_world0
      = Returned ("manager4220"%string, None) w' /\
    world w' = tick (tick world_fetched) /\
    api_posts w'
    = api_posts api_world0
      ++ [(sns_url api_env0 client0 api_world0,
           DataSnsRequest (SnsRequest.mk "code of alice"));
          union_request "7122c6639d12378195cae4237d5fd61e" "union-alice"].
Proof.
  apply (GetUserIDFromScanQrCode_success api_env0 client0 "code of alice"
           api_world0
           (SnsResponse.mk (mkCommonResp 0 "ok" "") (Some sns_user))
           sns_user "7122c6639d12378195cae4237d5fd61e"
           (tick (tick world_fetched))
           (UserIDResponse.mk (mkCommonResp 0 "ok" "")
              (Some (UserGetByUnionIdResponse.mk "manager4220" 0)))
           (UserGetByUnionIdResponse.mk "manager4220" 0));
    solve [reflexivity | cbn; lia].
Defined.

Lemma GetUserIDFromScanQrCode_no_user_info_witness :
  exists w',
    runApi api_env0 (GetUserIDFromScanQrCode client0 "a stale code") api_world0
      = Returned (""%string, Some ErrInvalidUnionID) w' /\
    world w' = tick (world api_world0) /\
    api_posts w'
    = api_posts api_world0
      ++ [(sns_url api_env0 client0 api_world0,
           DataSnsRequest (SnsRequest.mk "a stale code"))].
Proof.
  apply (GetUserIDFromScanQrCode_no_user_info api_env0 client0 "a stale code"
           api_world0
           (SnsResponse.mk (mkCommonResp (-1) "system busy" "") None)).
  - reflexivity.
  - reflexivity.
  - cbn. lia.
  - reflexivity.
Defined.

Lemma GetProcessCode_ignores_errcode_witness :
  exists w',
    runApi api_env0 (GetProcessCode client0) api_world0 = Returned None w' /\
    api_posts w'
    = api_posts api_world0
      ++ [process_code_request "7122c6639d12378195cae4237d5fd61e"] /\
    printed w' = printed api_world0 ++ [PrintString ""].
Proof.
  apply (GetProcessCode_ignores_errcode api_env0 client0 api_world0
           "7122c6639d12378195cae4237d5fd61e" (tick world_fetched)
           (ProcessCodeResult.mk (mkCommonResp 40078 "no such template" "") ""));
    reflexivity.
Defined.

Lemma GetProcessCode_drops_cause_witness :
  exists w',
    runApi api_env_down (GetProcessCode client0) api_world0
      = Returned (Some (ErrProcessCode "" 0)) w' /\
    api_posts w'
    = api_posts api_world0
      ++ [process_code_request "7122c6639d12378195cae4237d5fd61e"] /\
    printed w' = printed api_world0.
Proof.
  apply (GetProcessCode_drops_cause api_env_down client0 api_world0
           "7122c6639d12378195cae4237d5fd61e" (tick world_fetched)
           (ErrLib "dial tcp: connection refused"));
    reflexivity.
Defined.
